(** * A shallow embedding of the read-only PDF library (reader, lexer, pages, fonts)

    The Go sources are embedded function by function.  Conventions:
    - Go's [int], [int64], [uint32], [uint16], [byte] and [rune] are integers
      of [Z]; every conversion writes its wrap-around out ([int] is 64 bits);
    - a Go [string] holding raw data and a [[]byte] are lists of bytes;
      names, keywords and dictionary keys are Rocq strings;
    - a Go function that can fail returns its Go results (a value and an
      [error]); a [panic] and a run that never ends are the two extra
      constructors of [outcome];
    - every Go loop without a static bound takes fuel. *)

From Stdlib Require Import ZArith List String Ascii Bool Lia SpecFloat.
Import ListNotations.
Set Warnings "-register-all".
Local Open Scope string_scope.
Local Open Scope list_scope.
Local Open Scope Z_scope.

(** ** Outcomes of a Go call *)

Inductive outcome (A : Type) : Type :=
| Ret (a : A)               (* the call returns *)
| Panic (msg : string)      (* the call panics *)
| OutOfFuel.                (* the model ran out of fuel *)
Arguments Ret {A} a.
Arguments Panic {A} msg.
Arguments OutOfFuel {A}.

Definition bind {A B} (m : outcome A) (k : A -> outcome B) : outcome B :=
  match m with
  | Ret a => k a
  | Panic msg => Panic msg
  | OutOfFuel => OutOfFuel
  end.

Notation "x <- m ;; k" := (bind m (fun x => k))
  (at level 61, m at next level, right associativity).
Notation "' p <- m ;; k" := (bind m (fun p => k))
  (at level 61, p pattern, m at next level, right associativity).

(** Go error values.  The package-level sentinels are compared by identity;
    an error made by [fmt.Errorf] is a fresh value carrying its format. *)
Inductive error : Type :=
| EOF
| ErrUnexpectedEOF
| ErrNotAValidStream
| ErrNotAStream
| ErrNotObjectStream
| ErrMissingFirst
| ErrExtendsNotValidStream
| ErrObjectOutOfBounds
| ErrUnexpectedValueType
| ErrInvalidPassword
| Errorf (format : string).

Definition is_ErrInvalidPassword (e : error) : bool :=
  match e with ErrInvalidPassword => true | _ => false end.

(** ** Machine integers *)

(** a [byte] is an integer from 0 to 255 *)
Abbreviation byte := Z (only parsing).

Definition to_byte (x : Z) : byte := x mod 256.
Definition uint16 (x : Z) : Z := x mod 2 ^ 16.
Definition uint32 (x : Z) : Z := x mod 2 ^ 32.
(** two's complement wrap-around of a 64-bit signed integer *)
Definition int64 (x : Z) : Z := (x + 2 ^ 63) mod 2 ^ 64 - 2 ^ 63.

Definition bytes_of_string (s : string) : list byte :=
  map (fun c => Z.of_N (N_of_ascii c)) (list_ascii_of_string s).

Definition string_of_bytes (l : list byte) : string :=
  string_of_list_ascii (map (fun b => ascii_of_N (Z.to_N (to_byte b))) l).

Definition ch (c : ascii) : byte := Z.of_N (N_of_ascii c).

Fixpoint list_eqb {A} (eqb : A -> A -> bool) (l1 l2 : list A) : bool :=
  match l1, l2 with
  | [], [] => true
  | x :: l1', y :: l2' => eqb x y && list_eqb eqb l1' l2'
  | _, _ => false
  end.

Definition bytes_eqb : list byte -> list byte -> bool := list_eqb Z.eqb.

(** [l[i]] of a Go slice, for an index already known to be in range *)
Definition nthZ {A} (d : A) (l : list A) (i : Z) : A := nth (Z.to_nat i) l d.

Definition len {A} (l : list A) : Z := Z.of_nat (List.length l).

(** ** crypto/md5 *)

Module MD5.

Definition K : list Z :=
  [ 3614090360; 3905402710; 606105819; 3250441966; 4118548399; 1200080426;
    2821735955; 4249261313; 1770035416; 2336552879; 4294925233; 2304563134;
    1804603682; 4254626195; 2792965006; 1236535329; 4129170786; 3225465664;
    643717713; 3921069994; 3593408605; 38016083; 3634488961; 3889429448;
    568446438; 3275163606; 4107603335; 1163531501; 2850285829; 4243563512;
    1735328473; 2368359562; 4294588738; 2272392833; 1839030562; 4259657740;
    2763975236; 1272893353; 4139469664; 3200236656; 681279174; 3936430074;
    3572445317; 76029189; 3654602809; 3873151461; 530742520; 3299628645;
    4096336452; 1126891415; 2878612391; 4237533241; 1700485571; 2399980690;
    4293915773; 2240044497; 1873313359; 4264355552; 2734768916; 1309151649;
    4149444226; 3174756917; 718787259; 3951481745 ].

Definition S : list Z :=
  [ 7; 12; 17; 22; 7; 12; 17; 22; 7; 12; 17; 22; 7; 12; 17; 22;
    5; 9; 14; 20; 5; 9; 14; 20; 5; 9; 14; 20; 5; 9; 14; 20;
    4; 11; 16; 23; 4; 11; 16; 23; 4; 11; 16; 23; 4; 11; 16; 23;
    6; 10; 15; 21; 6; 10; 15; 21; 6; 10; 15; 21; 6; 10; 15; 21 ].

Definition not32 (x : Z) : Z := Z.lxor x (2 ^ 32 - 1).
Definition add32 (x y : Z) : Z := uint32 (x + y).
Definition rotl32 (x n : Z) : Z :=
  uint32 (Z.lor (Z.shiftl x n) (Z.shiftr x (32 - n))).

(** the 32-bit little-endian words of a block *)
Fixpoint words (l : list byte) : list Z :=
  match l with
  | b0 :: b1 :: b2 :: b3 :: l' =>
      (b0 + 256 * b1 + 65536 * b2 + 16777216 * b3) :: words l'
  | _ => []
  end.

Definition le32 (x : Z) : list byte :=
  [ to_byte x; to_byte (Z.shiftr x 8); to_byte (Z.shiftr x 16);
    to_byte (Z.shiftr x 24) ].

Definition state : Type := Z * Z * Z * Z.

Definition init : state := (1732584193, 4023233417, 2562383102, 271733878).

Definition step (M : list Z) (st : state) (i : Z) : state :=
  let '(a, b, c, d) := st in
  let '(f, g) :=
    if i <? 16 then (Z.lor (Z.land b c) (Z.land (not32 b) d), i)
    else if i <? 32 then
      (Z.lor (Z.land d b) (Z.land (not32 d) c), (5 * i + 1) mod 16)
    else if i <? 48 then (Z.lxor (Z.lxor b c) d, (3 * i + 5) mod 16)
    else (Z.lxor c (Z.lor b (not32 d)), (7 * i) mod 16) in
  let f' := add32 (add32 (add32 f a) (nthZ 0 K i)) (nthZ 0 M g) in
  (d, add32 b (rotl32 f' (nthZ 0 S i)), b, c).

Definition block (st : state) (blk : list byte) : state :=
  let M := words blk in
  let '(a, b, c, d) := st in
  let '(a', b', c', d') :=
    fold_left (step M) (map Z.of_nat (seq 0 64)) st in
  (add32 a a', add32 b b', add32 c c', add32 d d').

Fixpoint blocks (n : nat) (st : state) (l : list byte) : state :=
  match n with
  | O => st
  | Datatypes.S n' => blocks n' (block st (firstn 64 l)) (skipn 64 l)
  end.

(** the message followed by 0x80, zeros up to 56 modulo 64, and the bit
    length on 8 little-endian bytes *)
Definition pad (msg : list byte) : list byte :=
  let n := len msg in
  let z := (55 - n) mod 64 in
  msg ++ [128] ++ repeat 0 (Z.to_nat z)
      ++ le32 (uint32 (8 * n)) ++ le32 (uint32 (Z.shiftr (8 * n) 32)).

(** [h := md5.New(); h.Write(msg); h.Sum(nil)] *)
Definition sum (msg : list byte) : list byte :=
  let p := pad msg in
  let '(a, b, c, d) := blocks (List.length p / 64) init p in
  le32 a ++ le32 b ++ le32 c ++ le32 d.

End MD5.

(** ** crypto/rc4 *)

Module RC4.

Definition swap (s : list byte) (i j : Z) : list byte :=
  let si := nthZ 0 s i in
  let sj := nthZ 0 s j in
  let s1 := firstn (Z.to_nat i) s ++ sj :: skipn (Datatypes.S (Z.to_nat i)) s in
  firstn (Z.to_nat j) s1 ++ si :: skipn (Datatypes.S (Z.to_nat j)) s1.

(** key scheduling, as [rc4.NewCipher] does for a key of 1 to 256 bytes *)
Definition ksa (key : list byte) : list byte :=
  let k := len key in
  snd (fold_left
         (fun '(j, s) i =>
            let j' := to_byte (j + nthZ 0 s i + nthZ 0 key (i mod k)) in
            (j', swap s i j'))
         (map Z.of_nat (seq 0 256))
         (0, map Z.of_nat (seq 0 256))).

Fixpoint prga (s : list byte) (i j : Z) (data : list byte) : list byte :=
  match data with
  | [] => []
  | x :: data' =>
      let i' := to_byte (i + 1) in
      let j' := to_byte (j + nthZ 0 s i') in
      let s' := swap s i' j' in
      let k := nthZ 0 s' (to_byte (nthZ 0 s' i' + nthZ 0 s' j')) in
      Z.lxor x k :: prga s' i' j' data'
  end.

(** [c, _ := rc4.NewCipher(key); c.XORKeyStream(data, data)] on a fresh
    cipher *)
Definition xorKeyStream (key data : list byte) : list byte :=
  prga (ksa key) 0 0 data.

End RC4.


(** ** float64

    A [float64] is a binary64 number of the library's [SpecFloat]; the only
    operations the reader needs are the conversion of an integer and the
    parsing of a decimal literal, both rounding to nearest even. *)

Abbreviation float64 := spec_float (only parsing).
Definition prec : Z := 53.
Definition emax : Z := 1024.
Definition float64_zero : float64 := S754_zero false.

(** Go's [float64(x)] for an [int64] *)
Definition float64_of_int64 (x : Z) : float64 :=
  binary_normalize prec emax x 0 false.

(** ** Objects (font.go, "pdfobject") *)

Record pdfobjptr : Type := { id : Z (* uint32 *); gen : Z (* uint16 *) }.

Definition pdfobjptr_zero : pdfobjptr := {| id := 0; gen := 0 |}.

Definition pdfobjptr_eqb (p q : pdfobjptr) : bool :=
  (id p =? id q) && (gen p =? gen q).

(** The dynamic types a [token] or a [pdfobject] (both [interface{}]) holds.
    A [pdfdict] is a Go map, read here only through lookups and built
    through assignments: an association list whose first binding of a key
    is the current one. *)
Inductive pdfobject : Type :=
| Onil
| Obool (x : bool)
| Oint64 (x : Z)
| Ofloat64 (x : float64)
| Ostring (x : list byte)
| Oname (x : string)                          (* pdfname *)
| Okeyword (x : string)                       (* pdfkeyword *)
| Odict (x : list (string * pdfobject))       (* pdfdict *)
| Oarray (x : list pdfobject)                 (* pdfarray *)
| Ostream (hdr : list (string * pdfobject)) (ptr : pdfobjptr) (offset : Z)
| Oobjptr (x : pdfobjptr)
| Oobjdef (ptr : pdfobjptr) (obj : pdfobject)
| Oerror (e : error).                         (* io.EOF as a token *)

Abbreviation pdfdict := (list (string * pdfobject)) (only parsing).
Abbreviation token := pdfobject (only parsing).

(** [d[key]]: the zero value [nil] when the key is absent *)
Fixpoint map_get (d : pdfdict) (key : string) : pdfobject :=
  match d with
  | [] => Onil
  | (k, v) :: d' => if String.eqb k key then v else map_get d' key
  end.

(** [d[key] = v] *)
Definition map_set (d : pdfdict) (key : string) (v : pdfobject) : pdfdict :=
  (key, v) :: d.

Definition is_keyword (t : token) (s : string) : bool :=
  match t with Okeyword k => String.eqb k s | _ => false end.

Definition is_name (t : pdfobject) (s : string) : bool :=
  match t with Oname k => String.eqb k s | _ => false end.

(** ** Byte readers

    An [io.Reader] over data that is already determined: the bytes it still
    delivers, in chunks as large as the caller asks for, and what a read
    does once they are used up (report an error, [io.EOF] as a rule, or
    panic). *)

Inductive rdend : Type :=
| RdErr (e : error)
| RdPanic (msg : string).

Definition reader : Type := (list byte * rdend)%type.

(** ** The buffer (font.go, "pdfbuffer")

    The scratch slice [tmp] carries no state between calls and is left
    out. *)

Record pdfbuffer : Type := {
  b_r : reader;
  b_buf : list byte;
  b_pos : Z;
  b_offset : Z;
  b_unread : list token;        (* the last element is the next token *)
  b_allowEOF : bool;
  b_allowObjptr : bool;
  b_allowStream : bool;
  b_eof : bool;
  b_key : option (list byte);   (* [None] is the nil slice *)
  b_useAES : bool;
  b_objptr : pdfobjptr
}.

Definition bufcap : Z := 4096.

Definition newPdfBuffer (r : reader) (offset : Z) : pdfbuffer :=
  {| b_r := r; b_buf := []; b_pos := 0; b_offset := offset; b_unread := [];
     b_allowEOF := false; b_allowObjptr := true; b_allowStream := true;
     b_eof := false; b_key := None; b_useAES := false;
     b_objptr := pdfobjptr_zero |}.

Definition set_input (b : pdfbuffer) (r : reader) (buf : list byte)
    (pos offset : Z) (eof : bool) : pdfbuffer :=
  {| b_r := r; b_buf := buf; b_pos := pos; b_offset := offset;
     b_unread := b_unread b; b_allowEOF := b_allowEOF b;
     b_allowObjptr := b_allowObjptr b; b_allowStream := b_allowStream b;
     b_eof := eof; b_key := b_key b; b_useAES := b_useAES b;
     b_objptr := b_objptr b |}.

Definition set_pos (b : pdfbuffer) (pos : Z) : pdfbuffer :=
  set_input b (b_r b) (b_buf b) pos (b_offset b) (b_eof b).

Definition set_unread (b : pdfbuffer) (u : list token) : pdfbuffer :=
  {| b_r := b_r b; b_buf := b_buf b; b_pos := b_pos b; b_offset := b_offset b;
     b_unread := u; b_allowEOF := b_allowEOF b;
     b_allowObjptr := b_allowObjptr b; b_allowStream := b_allowStream b;
     b_eof := b_eof b; b_key := b_key b; b_useAES := b_useAES b;
     b_objptr := b_objptr b |}.

Definition set_objptr (b : pdfbuffer) (p : pdfobjptr) : pdfbuffer :=
  {| b_r := b_r b; b_buf := b_buf b; b_pos := b_pos b; b_offset := b_offset b;
     b_unread := b_unread b; b_allowEOF := b_allowEOF b;
     b_allowObjptr := b_allowObjptr b; b_allowStream := b_allowStream b;
     b_eof := b_eof b; b_key := b_key b; b_useAES := b_useAES b;
     b_objptr := p |}.

Definition set_crypt (b : pdfbuffer) (key : option (list byte)) (aes : bool)
    : pdfbuffer :=
  {| b_r := b_r b; b_buf := b_buf b; b_pos := b_pos b; b_offset := b_offset b;
     b_unread := b_unread b; b_allowEOF := b_allowEOF b;
     b_allowObjptr := b_allowObjptr b; b_allowStream := b_allowStream b;
     b_eof := b_eof b; b_key := key; b_useAES := aes;
     b_objptr := b_objptr b |}.

Definition set_allowEOF (b : pdfbuffer) (a : bool) : pdfbuffer :=
  {| b_r := b_r b; b_buf := b_buf b; b_pos := b_pos b; b_offset := b_offset b;
     b_unread := b_unread b; b_allowEOF := a;
     b_allowObjptr := b_allowObjptr b; b_allowStream := b_allowStream b;
     b_eof := b_eof b; b_key := b_key b; b_useAES := b_useAES b;
     b_objptr := b_objptr b |}.

(** [reload]: one [Read] into [b.buf[:n]].  A read that delivers nothing
    comes with the reader's error; only [io.EOF] under [allowEOF] is not a
    panic. *)
Definition reload (b : pdfbuffer) : outcome (bool * pdfbuffer) :=
  let n := bufcap - Z.rem (b_offset b) bufcap in
  if bufcap <? n then Panic "slice bounds out of range"
  else
    let '(data, e) := b_r b in
    let chunk := firstn (Z.to_nat n) data in
    match chunk with
    | [] =>
        match e with
        | RdPanic msg => Panic msg
        | RdErr EOF =>
            if b_allowEOF b then
              Ret (false, set_input b (b_r b) [] 0 (b_offset b) true)
            else Panic "malformed PDF: reading at offset %d: %v"
        | RdErr _ => Panic "malformed PDF: reading at offset %d: %v"
        end
    | _ :: _ =>
        Ret (true, set_input b (skipn (Z.to_nat n) data, e) chunk 0
                     (b_offset b + len chunk) (b_eof b))
    end.

Definition readByte (b : pdfbuffer) : outcome (byte * pdfbuffer) :=
  b1 <- (if len (b_buf b) <=? b_pos b
         then '(_, b') <- reload b ;; Ret b'
         else Ret b) ;;
  if len (b_buf b1) <=? b_pos b1 then Ret (ch "010", b1)
  else Ret (nthZ 0 (b_buf b1) (b_pos b1), set_pos b1 (b_pos b1 + 1)).

Definition unreadByte (b : pdfbuffer) : pdfbuffer :=
  if 0 <? b_pos b then set_pos b (b_pos b - 1) else b.

Definition readOffset (b : pdfbuffer) : Z :=
  b_offset b - len (b_buf b) + b_pos b.

Definition unreadToken (b : pdfbuffer) (t : token) : pdfbuffer :=
  set_unread b (b_unread b ++ [t]).

(** [seekForward]: the loop reloads until the offset is reached *)
Fixpoint seekForward (fuel : nat) (b : pdfbuffer) (offset : Z)
    : outcome pdfbuffer :=
  if b_offset b <? offset then
    match fuel with
    | O => OutOfFuel
    | S fuel' =>
        '(ok, b') <- reload b ;;
        if ok then seekForward fuel' b' offset else Ret b'
    end
  else Ret (set_pos b (len (b_buf b) - (b_offset b - offset))).

Definition isSpace (b : byte) : bool :=
  (b =? 0) || (b =? 9) || (b =? 10) || (b =? 12) || (b =? 13) || (b =? 32).

Definition isDelim (b : byte) : bool :=
  (b =? ch "<") || (b =? ch ">") || (b =? ch "(") || (b =? ch ")")
  || (b =? ch "[") || (b =? ch "]") || (b =? ch "{") || (b =? ch "}")
  || (b =? ch "/") || (b =? ch "%").

Definition unhex (b : byte) : Z :=
  if (ch "0" <=? b) && (b <=? ch "9") then b - ch "0"
  else if (ch "a" <=? b) && (b <=? ch "f") then b - ch "a" + 10
  else if (ch "A" <=? b) && (b <=? ch "F") then b - ch "A" + 10
  else -1.

(** [unhex(c)<<4 | unhex(c2)] on Go's [int] *)
Definition hexpair (c c2 : byte) : Z :=
  Z.lor (Z.shiftl (unhex c) 4) (unhex c2).

(** The second half of an iteration of [readHexString]: the label [Loop2]. *)
Fixpoint readHexString_c2 (fuel : nat) (b : pdfbuffer)
    : outcome (byte * pdfbuffer) :=
  match fuel with
  | O => OutOfFuel
  | S fuel' =>
      '(c2, b) <- readByte b ;;
      if isSpace c2 then readHexString_c2 fuel' b else Ret (c2, b)
  end.

Fixpoint readHexString_loop (fuel : nat) (tmp : list byte) (b : pdfbuffer)
    : outcome (token * pdfbuffer) :=
  match fuel with
  | O => OutOfFuel
  | S fuel' =>
      '(c, b) <- readByte b ;;
      if c =? ch ">" then Ret (Ostring tmp, b)
      else if isSpace c then readHexString_loop fuel' tmp b
      else
        '(c2, b) <- readHexString_c2 fuel' b ;;
        let x := hexpair c c2 in
        if x <? 0 then Panic "malformed hex string %c %c %s"
        else readHexString_loop fuel' (tmp ++ [to_byte x]) b
  end.

Definition readHexString (fuel : nat) (b : pdfbuffer)
    : outcome (token * pdfbuffer) :=
  readHexString_loop fuel [] b.

(** The octal escape of [readLiteralString]: at most [n] more digits. *)
Fixpoint readOctal (n : nat) (x : Z) (b : pdfbuffer)
    : outcome (Z * pdfbuffer) :=
  match n with
  | O => Ret (x, b)
  | S n' =>
      '(c, b) <- readByte b ;;
      if (c <? ch "0") || (ch "7" <? c) then Ret (x, unreadByte b)
      else readOctal n' (x * 8 + (c - ch "0")) b
  end.

Fixpoint readLiteralString_loop (fuel : nat) (tmp : list byte) (depth : Z)
    (b : pdfbuffer) : outcome (token * pdfbuffer) :=
  match fuel with
  | O => OutOfFuel
  | S fuel' =>
      '(c, b) <- readByte b ;;
      if c =? ch "(" then
        readLiteralString_loop fuel' (tmp ++ [c]) (depth + 1) b
      else if c =? ch ")" then
        if depth - 1 =? 0 then Ret (Ostring tmp, b)
        else readLiteralString_loop fuel' (tmp ++ [c]) (depth - 1) b
      else if c =? ch "\" then
        '(c, b) <- readByte b ;;
        if c =? ch "n" then readLiteralString_loop fuel' (tmp ++ [10]) depth b
        else if c =? ch "r" then
          readLiteralString_loop fuel' (tmp ++ [13]) depth b
        else if c =? ch "b" then
          readLiteralString_loop fuel' (tmp ++ [8]) depth b
        else if c =? ch "t" then
          readLiteralString_loop fuel' (tmp ++ [9]) depth b
        else if c =? ch "f" then
          readLiteralString_loop fuel' (tmp ++ [12]) depth b
        else if (c =? ch "(") || (c =? ch ")") || (c =? ch "\") then
          readLiteralString_loop fuel' (tmp ++ [c]) depth b
        else if c =? 13 then
          '(c', b) <- readByte b ;;
          let b := if c' =? 10 then b else unreadByte b in
          readLiteralString_loop fuel' tmp depth b
        else if c =? 10 then readLiteralString_loop fuel' tmp depth b
        else if (ch "0" <=? c) && (c <=? ch "7") then
          '(x, b) <- readOctal 2 (c - ch "0") b ;;
          if 255 <? x then Panic "invalid octal escape \%03o"
          else readLiteralString_loop fuel' (tmp ++ [to_byte x]) depth b
        else Panic "invalid escape sequence \%c"
      else readLiteralString_loop fuel' (tmp ++ [c]) depth b
  end.

Definition readLiteralString (fuel : nat) (b : pdfbuffer)
    : outcome (token * pdfbuffer) :=
  readLiteralString_loop fuel [] 1 b.

Fixpoint readName_loop (fuel : nat) (tmp : list byte) (b : pdfbuffer)
    : outcome (token * pdfbuffer) :=
  match fuel with
  | O => OutOfFuel
  | S fuel' =>
      '(c, b) <- readByte b ;;
      if isDelim c || isSpace c then
        Ret (Oname (string_of_bytes tmp), unreadByte b)
      else if c =? ch "#" then
        '(h1, b) <- readByte b ;;
        '(h2, b) <- readByte b ;;
        let x := hexpair h1 h2 in
        if x <? 0 then Panic "malformed name"
        else readName_loop fuel' (tmp ++ [to_byte x]) b
      else readName_loop fuel' (tmp ++ [c]) b
  end.

Definition readName (fuel : nat) (b : pdfbuffer)
    : outcome (token * pdfbuffer) :=
  readName_loop fuel [] b.

Definition isDigit (c : byte) : bool := (ch "0" <=? c) && (c <=? ch "9").

Definition dropSign (s : list byte) : list byte :=
  match s with
  | c :: s' => if (c =? ch "+") || (c =? ch "-") then s' else s
  | [] => s
  end.

Definition isInteger (s : list byte) : bool :=
  let s := dropSign s in
  match s with
  | [] => false
  | _ => forallb isDigit s
  end.

Definition isReal (s : list byte) : bool :=
  let s := dropSign s in
  match s with
  | [] => false
  | _ =>
      forallb (fun c => (c =? ch ".") || isDigit c) s
      && (len (filter (fun c => c =? ch ".") s) =? 1)
  end.

Definition isNegative (s : list byte) : bool :=
  match s with c :: _ => c =? ch "-" | [] => false end.

Definition digitsValue (s : list byte) : Z :=
  fold_left (fun acc c => 10 * acc + (c - ch "0")) s 0.

(** [strconv.ParseInt(s, 10, 64)] on a string accepted by [isInteger];
    [None] is the range error *)
Definition ParseInt (s : list byte) : option Z :=
  let v := digitsValue (dropSign s) in
  let x := if isNegative s then - v else v in
  if (- 2 ^ 63 <=? x) && (x <? 2 ^ 63) then Some x else None.

(** [strconv.ParseFloat(s, 64)] on a string accepted by [isReal]: the
    decimal is rounded to the nearest binary64; [None] is a syntax error
    (no digit) or a range error. *)
Definition ParseFloat (s : list byte) : option float64 :=
  let body := dropSign s in
  let digits := filter isDigit body in
  let frac :=
    (fix after (l : list byte) : list byte :=
       match l with
       | [] => []
       | c :: l' => if c =? ch "." then l' else after l'
       end) body in
  match digits with
  | [] => None
  | _ =>
      match digitsValue digits with
      | Zpos m =>
          match SFdiv prec emax
                  (S754_finite (isNegative s) m 0)
                  (S754_finite false (Z.to_pos (10 ^ len frac)) 0)
          with
          | S754_infinity _ => None
          | x => Some x
          end
      | _ => Some (S754_zero (isNegative s))
      end
  end.

Definition readKeyword_classify (tmp : list byte) : outcome token :=
  let s := string_of_bytes tmp in
  if String.eqb s "true" then Ret (Obool true)
  else if String.eqb s "false" then Ret (Obool false)
  else if isInteger tmp then
    match ParseInt tmp with
    | Some x => Ret (Oint64 x)
    | None => Panic "invalid integer %s"
    end
  else if isReal tmp then
    match ParseFloat tmp with
    | Some x => Ret (Ofloat64 x)
    | None => Panic "invalid real %s"
    end
  else Ret (Okeyword s).

Fixpoint readKeyword_loop (fuel : nat) (tmp : list byte) (b : pdfbuffer)
    : outcome (token * pdfbuffer) :=
  match fuel with
  | O => OutOfFuel
  | S fuel' =>
      '(c, b) <- readByte b ;;
      if isDelim c || isSpace c then
        t <- readKeyword_classify tmp ;; Ret (t, unreadByte b)
      else readKeyword_loop fuel' (tmp ++ [c]) b
  end.

Definition readKeyword (fuel : nat) (b : pdfbuffer)
    : outcome (token * pdfbuffer) :=
  readKeyword_loop fuel [] b.

(** The comment loop of [readToken]: [for c != '\r' && c != '\n']. *)
Fixpoint skipComment (fuel : nat) (c : byte) (b : pdfbuffer)
    : outcome (byte * pdfbuffer) :=
  if (c =? 13) || (c =? 10) then Ret (c, b)
  else
    match fuel with
    | O => OutOfFuel
    | S fuel' => '(c, b) <- readByte b ;; skipComment fuel' c b
    end.

(** The first loop of [readToken]: [None] when the loop returns [io.EOF],
    the first byte of the token otherwise. *)
Fixpoint skipSpace (fuel : nat) (c : byte) (b : pdfbuffer)
    : outcome (option byte * pdfbuffer) :=
  match fuel with
  | O => OutOfFuel
  | S fuel' =>
      if isSpace c then
        if b_eof b then Ret (None, b)
        else '(c, b) <- readByte b ;; skipSpace fuel' c b
      else if c =? ch "%" then
        '(c, b) <- skipComment fuel' c b ;; skipSpace fuel' c b
      else Ret (Some c, b)
  end.

Definition readToken (fuel : nat) (b : pdfbuffer)
    : outcome (token * pdfbuffer) :=
  match rev (b_unread b) with
  | t :: u => Ret (t, set_unread b (rev u))
  | [] =>
      '(c, b) <- readByte b ;;
      '(oc, b) <- skipSpace fuel c b ;;
      match oc with
      | None => Ret (Oerror EOF, b)
      | Some c =>
          if c =? ch "<" then
            '(c', b) <- readByte b ;;
            if c' =? ch "<" then Ret (Okeyword "<<", b)
            else readHexString fuel (unreadByte b)
          else if c =? ch "(" then readLiteralString fuel b
          else if (c =? ch "[") || (c =? ch "]") || (c =? ch "{")
                  || (c =? ch "}") then
            Ret (Okeyword (string_of_bytes [c]), b)
          else if c =? ch "/" then readName fuel b
          else if c =? ch ">" then
            '(c', b) <- readByte b ;;
            if c' =? ch ">" then Ret (Okeyword ">>", b)
            else Panic "unexpected delimiter %#q"
          else if isDelim c then Panic "unexpected delimiter %#q"
          else readKeyword fuel (unreadByte b)
      end
  end.

(** ** Per-object keys and string decryption (reader, "cryptKey") *)

Definition cryptKey (key : list byte) (useAES : bool) (ptr : pdfobjptr)
    : list byte :=
  MD5.sum
    (key
     ++ [ to_byte (id ptr); to_byte (Z.shiftr (id ptr) 8);
          to_byte (Z.shiftr (id ptr) 16);
          to_byte (gen ptr); to_byte (Z.shiftr (gen ptr) 8) ]
     ++ (if useAES then bytes_of_string "sAlT" else [])).

Definition decryptString (key : list byte) (useAES : bool) (ptr : pdfobjptr)
    (x : list byte) : outcome (list byte) :=
  let key := cryptKey key useAES ptr in
  if useAES then Panic "AES not implemented"
  else Ret (RC4.xorKeyStream key x).

(** ** The object parser (font.go, "readObject") *)

Fixpoint readObject (fuel : nat) (b : pdfbuffer)
    : outcome (pdfobject * pdfbuffer) :=
  match fuel with
  | O => OutOfFuel
  | S fuel' =>
      '(tok, b) <- readToken fuel' b ;;
      match tok with
      | Okeyword kw =>
          if String.eqb kw "null" then Ret (Onil, b)
          else if String.eqb kw "<<" then readDict fuel' [] b
          else if String.eqb kw "[" then readArray fuel' [] b
          else Panic "unexpected keyword %q parsing object"
      | _ =>
          tok <- match tok, b_key b with
                 | Ostring str, Some key =>
                     if negb (id (b_objptr b) =? 0) then
                       s <- decryptString key (b_useAES b) (b_objptr b) str ;;
                       Ret (Ostring s)
                     else Ret tok
                 | _, _ => Ret tok
                 end ;;
          if negb (b_allowObjptr b) then Ret (tok, b)
          else
            match tok with
            | Oint64 t1 =>
                if uint32 t1 =? t1 then
                  '(tok2, b) <- readToken fuel' b ;;
                  match tok2 with
                  | Oint64 t2 =>
                      if uint16 t2 =? t2 then
                        '(tok3, b) <- readToken fuel' b ;;
                        let p := {| id := uint32 t1; gen := uint16 t2 |} in
                        if is_keyword tok3 "R" then Ret (Oobjptr p, b)
                        else if is_keyword tok3 "obj" then
                          let old := b_objptr b in
                          '(obj, b) <- readObject fuel' (set_objptr b p) ;;
                          b <- match obj with
                               | Ostream _ _ _ => Ret b
                               | _ =>
                                   '(tok4, b) <- readToken fuel' b ;;
                                   if is_keyword tok4 "endobj" then Ret b
                                   else Panic "missing endobj after indirect object definition"
                               end ;;
                          Ret (Oobjdef p obj, set_objptr b old)
                        else
                          Ret (tok, unreadToken (unreadToken b tok3) tok2)
                      else Ret (tok, unreadToken b tok2)
                  | _ => Ret (tok, unreadToken b tok2)
                  end
                else Ret (tok, b)
            | _ => Ret (tok, b)
            end
      end
  end

with readArray (fuel : nat) (x : list pdfobject) (b : pdfbuffer)
    : outcome (pdfobject * pdfbuffer) :=
  match fuel with
  | O => OutOfFuel
  | S fuel' =>
      '(tok, b) <- readToken fuel' b ;;
      match tok with
      | Onil => Ret (Oarray x, b)
      | _ =>
          if is_keyword tok "]" then Ret (Oarray x, b)
          else
            '(o, b) <- readObject fuel' (unreadToken b tok) ;;
            readArray fuel' (x ++ [o]) b
      end
  end

with readDict (fuel : nat) (x : pdfdict) (b : pdfbuffer)
    : outcome (pdfobject * pdfbuffer) :=
  match fuel with
  | O => OutOfFuel
  | S fuel' =>
      '(tok, b) <- readToken fuel' b ;;
      let finish (b : pdfbuffer) : outcome (pdfobject * pdfbuffer) :=
        if negb (b_allowStream b) then Ret (Odict x, b)
        else
          '(tok, b) <- readToken fuel' b ;;
          if negb (is_keyword tok "stream") then
            Ret (Odict x, unreadToken b tok)
          else
            '(c, b) <- readByte b ;;
            b <- (if c =? 13 then
                    '(c', b) <- readByte b ;;
                    Ret (if c' =? 10 then b else unreadByte b)
                  else if c =? 10 then Ret b
                  else Panic "stream keyword not followed by newline") ;;
            Ret (Ostream x (b_objptr b) (readOffset b), b) in
      match tok with
      | Onil => finish b
      | Oname n =>
          '(o, b) <- readObject fuel' b ;;
          readDict fuel' (map_set x n o) b
      | _ =>
          if is_keyword tok ">>" then finish b
          else Panic "unexpected non-name key %T(%v) parsing dictionary"
      end
  end.

(** [io.ReadFull(rd, buf)] for a [buf] of [n] bytes: the bytes read, the
    error, and the reader afterwards. *)
Definition ReadFull (rd : reader) (n : Z)
    : outcome (list byte * option error * reader) :=
  let '(l, e) := rd in
  if n <=? 0 then Ret ([], None, rd)
  else if n <=? len l then
    Ret (firstn (Z.to_nat n) l, None, (skipn (Z.to_nat n) l, e))
  else
    match e with
    | RdPanic msg => Panic msg
    | RdErr e' =>
        match l with
        | [] => Ret ([], Some e', rd)
        | _ => Ret (l, Some (match e' with EOF => ErrUnexpectedEOF | _ => e' end),
                    ([], e))
        end
    end.

(** [io.NewSectionReader(f, off, n)] over the file [f]: nothing to read for
    [n <= 0]; a negative offset is refused by [ReadAt]. *)
Definition NewSectionReader (f : list byte) (off n : Z) : reader :=
  if n <=? 0 then ([], RdErr EOF)
  else if off <? 0 then ([], RdErr (Errorf "negative offset"))
  else (firstn (Z.to_nat n) (skipn (Z.to_nat off) f), RdErr EOF).

(** ** The PNG "Up" predictor (reader, "pngUpReader") *)

Record pngUpReader : Type := {
  png_r : reader;
  png_hist : list byte;
  png_tmp : list byte;
  png_pend : list byte   (* a suffix of [hist], read before [hist] changes *)
}.

(** [r.hist[i] += b] for every [i, b] of [r.tmp]; [hist] and [tmp] have the
    same length *)
Fixpoint addRow (hist tmp : list byte) : list byte :=
  match hist, tmp with
  | h :: hist', t :: tmp' => to_byte (h + t) :: addRow hist' tmp'
  | _, _ => hist
  end.

(** [Read(b)] for a [b] of [n] bytes: the bytes stored in [b], the count, the
    error and the reader afterwards. *)
Fixpoint pngUpRead_loop (fuel : nat) (r : pngUpReader) (n : Z)
    (out : list byte)
    : outcome (list byte * option error * pngUpReader) :=
  if n <=? 0 then Ret (out, None, r)
  else
    match fuel with
    | O => OutOfFuel
    | S fuel' =>
        match png_pend r with
        | _ :: _ =>
            let m := Z.min n (len (png_pend r)) in
            pngUpRead_loop fuel'
              {| png_r := png_r r; png_hist := png_hist r;
                 png_tmp := png_tmp r;
                 png_pend := skipn (Z.to_nat m) (png_pend r) |}
              (n - m) (out ++ firstn (Z.to_nat m) (png_pend r))
        | [] =>
            '(row, err, rd) <- ReadFull (png_r r) (len (png_tmp r)) ;;
            (* a failed [ReadFull] leaves what it read in [tmp] *)
            let tmp := row ++ skipn (List.length row) (png_tmp r) in
            match err with
            | Some e =>
                Ret (out, Some e,
                     {| png_r := rd; png_hist := png_hist r; png_tmp := tmp;
                        png_pend := [] |})
            | None =>
                match tmp with
                | [] => Panic "index out of range"
                | t0 :: _ =>
                    if negb (t0 =? 2) then
                      Ret (out, Some (Errorf "malformed PNG-Up encoding"),
                           {| png_r := rd; png_hist := png_hist r;
                              png_tmp := tmp; png_pend := [] |})
                    else if len (png_hist r) <? len tmp then
                      Panic "index out of range"
                    else
                      let hist := addRow (png_hist r) tmp in
                      pngUpRead_loop fuel'
                        {| png_r := rd; png_hist := hist; png_tmp := tmp;
                           png_pend := tl hist |}
                        n out
                end
            end
        end
    end.

(** Each turn of the loop uses up a byte of [b] or a row of the input. *)
Definition pngUpRead (r : pngUpReader) (n : Z)
    : outcome (list byte * option error * pngUpReader) :=
  pngUpRead_loop (Z.to_nat n + List.length (fst (png_r r)) + 2) r n [].

(** [&pngUpReader{r: zr, hist: make([]byte, 1+columns), tmp: make([]byte, 1+columns)}];
    [columns] is an [int64], and so is [1+columns]: at [columns = 2^63-1]
    the sum wraps to [-2^63] and [make] panics *)
Definition newPngUpReader (zr : reader) (columns : Z) : outcome pngUpReader :=
  let n := int64 (1 + columns) in
  if n <? 0 then Panic "makeslice: len out of range"
  else
    Ret {| png_r := zr;
           png_hist := repeat 0 (Z.to_nat n);
           png_tmp := repeat 0 (Z.to_nat n);
           png_pend := [] |}.

(** ** The reader and its values (reader, "Reader", "xref", "Value") *)

Record xref : Type := {
  x_ptr : pdfobjptr;
  x_inStream : bool;
  x_stream : pdfobjptr;
  x_offset : Z
}.

Definition xref_zero : xref :=
  {| x_ptr := pdfobjptr_zero; x_inStream := false;
     x_stream := pdfobjptr_zero; x_offset := 0 |}.

(** A [Value] without its [*Reader]: every value of one run belongs to the
    one reader the functions below take as an argument. *)
Record Value : Type := { v_ptr : pdfobjptr; v_data : pdfobject }.

(** [Value{}] *)
Definition Value_zero : Value := {| v_ptr := pdfobjptr_zero; v_data := Onil |}.

Record Reader : Type := {
  r_f : list byte;                (* the bytes behind the [io.ReaderAt] *)
  r_end : Z;
  r_xref : list xref;
  r_Trailer : Value;
  r_key : option (list byte);
  r_useAES : bool
}.

Module ValueKind.

Inductive t : Type :=
| Null | Bool | Integer | Real | String | Name | Dict | Array | Stream.

(** the constants' values ([iota]) *)
Definition code (k : t) : Z :=
  match k with
  | Null => 0 | Bool => 1 | Integer => 2 | Real => 3 | String => 4
  | Name => 5 | Dict => 6 | Array => 7 | Stream => 8
  end.

Definition eqb (k1 k2 : t) : bool := code k1 =? code k2.

End ValueKind.

Definition IsNull (v : Value) : bool :=
  match v_data v with Onil => true | _ => false end.

Definition Kind (v : Value) : ValueKind.t :=
  match v_data v with
  | Obool _ => ValueKind.Bool
  | Oint64 _ => ValueKind.Integer
  | Ofloat64 _ => ValueKind.Real
  | Ostring _ => ValueKind.String
  | Oname _ => ValueKind.Name
  | Odict _ => ValueKind.Dict
  | Oarray _ => ValueKind.Array
  | Ostream _ _ _ => ValueKind.Stream
  | _ => ValueKind.Null
  end.

Definition Float64 (v : Value) : float64 :=
  match v_data v with
  | Ofloat64 x => x
  | Oint64 x => float64_of_int64 x
  | _ => float64_zero
  end.

Definition RawString (v : Value) : list byte :=
  match v_data v with Ostring x => x | _ => [] end.

Definition Len (v : Value) : Z :=
  match v_data v with Oarray x => len x | _ => 0 end.

(** An element of a variadic [path ...interface{}] *)
Inductive pathelem : Type :=
| Pstring (s : string)
| Pint (i : Z)
| PWalkType (wt : Z)
| Pother.

Definition WalkChildren : Z := 0.
Definition WalkInherited : Z := 1.

(** The libraries outside the repository that the stream pipeline calls:
    [zlib.NewReader] (the inflated data as a reader, or the error of a bad
    header) and the block decryption of [crypto/aes]. *)
Section Libraries.

Variable zlib_NewReader : reader -> reader + error.
Variable aes_Decrypt : list byte -> list byte -> list byte.

(** *** Stream decryption and filters *)

Definition xorBytes (a b : list byte) : list byte :=
  map (fun '(x, y) => Z.lxor x y) (combine a b).

(** [cbcReader]: whole blocks are decrypted as long as the input has them;
    the first failed [ReadFull] ends the stream. *)
Fixpoint cbcBlocks (n : nat) (key iv : list byte) (rd : reader) : reader :=
  match n with
  | O => ([], snd rd)
  | S n' =>
      match ReadFull rd 16 with
      | Ret (blk, None, rd') =>
          let '(l, e) := cbcBlocks n' key blk rd' in
          (xorBytes (aes_Decrypt key blk) iv ++ l, e)
      | Ret (_, Some e, _) => ([], RdErr e)
      | Panic msg => ([], RdPanic msg)
      | OutOfFuel => ([], snd rd)
      end
  end.

Definition decryptStream (key : list byte) (useAES : bool) (ptr : pdfobjptr)
    (rd : reader) : outcome reader :=
  let key := cryptKey key useAES ptr in
  if useAES then
    if negb ((len key =? 16) || (len key =? 24) || (len key =? 32)) then
      Panic "AES: invalid key size"
    else
      '(ivr, _, rd') <- ReadFull rd 16 ;;
      let iv := ivr ++ repeat 0 (16 - List.length ivr) in
      Ret (cbcBlocks (S (List.length (fst rd') / 16)) key iv rd')
  else Ret (RC4.xorKeyStream key (fst rd), snd rd).


(** *** Accessors (reader, "Key", "Index", "Walk", "Int64", "Name")

    The accessors call [v.r.resolve]; they are written over the resolver
    [res] they call, and [resolve] below ties the knot on its fuel. *)

Section Accessors.

Variable r : Reader.
Variable res : pdfobjptr -> pdfobject -> outcome (Value * option error).

Definition Key_with (v : Value) (key : string)
    : outcome (Value * option error) :=
  match v_data v with
  | Odict x => res (v_ptr v) (map_get x key)
  | Ostream hdr _ _ => res (v_ptr v) (map_get hdr key)
  | _ => Ret (Value_zero, Some ErrNotAValidStream)
  end.

Definition Index_with (v : Value) (i : Z) : outcome (Value * option error) :=
  match v_data v with
  | Oarray x =>
      if (i <? 0) || (len x <=? i) then
        Ret (Value_zero, Some ErrNotAValidStream)
      else res (v_ptr v) (nthZ Onil x i)
  | _ => Ret (Value_zero, Some ErrNotAValidStream)
  end.

(** the loop of [DoWalkChildren] over [path[:len(path)-1]] *)
Fixpoint DoWalkChildren_loop (current : Value) (path : list pathelem)
    : outcome (Value * option error) :=
  match path with
  | [] => Ret (current, None)
  | p :: path' =>
      match p with
      | Pstring k =>
          '(current, err) <- Key_with current k ;;
          match err with
          | Some e => Ret (Value_zero, Some e)
          | None => DoWalkChildren_loop current path'
          end
      | Pint i =>
          '(current, err) <- Index_with current i ;;
          match err with
          | Some e => Ret (Value_zero, Some e)
          | None => DoWalkChildren_loop current path'
          end
      | _ => Ret (Value_zero, Some (Errorf "unsupported path element type %T"))
      end
  end.

Definition DoWalkChildren_with (v : Value) (path : list pathelem)
    : outcome (Value * option error) :=
  match path with
  | [] => Panic "slice bounds out of range [:-1]"
  | _ => DoWalkChildren_loop v (removelast path)
  end.

Definition Walk_with (v : Value) (path : list pathelem)
    : outcome (Value * option error) :=
  match path with
  | [] => Ret (v, None)
  | PWalkType wt :: path' =>
      if wt =? WalkChildren then DoWalkChildren_with v path'
      else if wt =? WalkInherited then
        Panic "WalkInherited not implemented yet!"
      else DoWalkChildren_with v path'
  | _ => DoWalkChildren_with v path
  end.

(** [Int]: the assertion [v2.data.(int)] never holds, no object being of
    the dynamic type [int] *)
Definition Int_with (v : Value) (path : list pathelem)
    : outcome (Z * option error) :=
  '(v2, err) <- match path with
                | [] => Ret (v, None)
                | _ => Walk_with v path
                end ;;
  match err with
  | Some e => Ret (0, Some e)
  | None => Ret (0, Some (Errorf "Could not cast into int64"))
  end.

Definition Int64_with (v : Value) (path : list pathelem)
    : outcome (Z * option error) :=
  '(v2, err) <- match path with
                | [] => Ret (v, None)
                | _ => Walk_with v path
                end ;;
  match err with
  | Some e => Ret (0, Some e)
  | None =>
      match v_data v2 with
      | Oint64 x => Ret (x, None)
      | _ => Ret (0, Some (Errorf "Could not cast into int64"))
      end
  end.

Definition Name_with (v : Value) (path : list pathelem)
    : outcome (string * option error) :=
  '(v2, err) <- match path with
                | [] => Ret (v, None)
                | _ => Walk_with v path
                end ;;
  match err with
  | Some e => Ret (EmptyString, Some e)
  | None =>
      match v_data v2 with
      | Oname x => Ret (x, None)
      | _ => Ret (EmptyString, Some (Errorf "Object is not a valid name"))
      end
  end.

(** what a [pngUpReader] delivers when it is read to its end *)
Definition pngUpStream (png : pngUpReader) : reader :=
  match pngUpRead png (len (fst (png_r png)) + 1) with
  | Ret (out, Some e, _) => (out, RdErr e)
  | Ret (out, None, _) => (out, RdErr EOF)
  | Panic msg => ([], RdPanic msg)
  | OutOfFuel => ([], RdErr EOF)
  end.

Definition applyFilter_with (rd : reader) (name : string) (param : Value)
    : outcome reader :=
  if String.eqb name "FlateDecode" then
    match zlib_NewReader rd with
    | inr _ => Panic "zlib: invalid header"
    | inl zr =>
        '(pred, err) <- Int64_with param [Pstring "Predictor"] ;;
        match err with
        | Some _ => Ret zr
        | None =>
            '(columns, err) <- Int64_with param [Pstring "Columns"] ;;
            let columns := match err with Some _ => 1 | None => columns end in
            if pred =? 1 then Ret zr
            else if pred =? 12 then
              png <- newPngUpReader zr columns ;; Ret (pngUpStream png)
            else Panic "pred"
        end
    end
  else Panic "unknown filter ".

(** [Value.Reader] *)
Definition Value_Reader_with (v : Value) : outcome reader :=
  match v_data v with
  | Ostream hdr ptr offset =>
      '(length, _) <- Int64_with v [Pstring "Length"] ;;
      let rd := NewSectionReader (r_f r) offset length in
      rd <- match r_key r with
            | Some key => decryptStream key (r_useAES r) ptr rd
            | None => Ret rd
            end ;;
      '(filter, _) <- Key_with v "Filter" ;;
      '(param, _) <- Key_with v "DecodeParms" ;;
      match Kind filter with
      | ValueKind.Null => Ret rd
      | ValueKind.Name =>
          '(name, _) <- Name_with filter [] ;;
          applyFilter_with rd name param
      | ValueKind.Array =>
          fold_left
            (fun (acc : outcome reader) (i : nat) =>
               rd <- acc ;;
               '(flt, _) <- Index_with filter (Z.of_nat i) ;;
               '(name, _) <- Name_with flt [] ;;
               applyFilter_with rd name flt)
            (seq 0 (Z.to_nat (Len filter))) (Ret rd)
      | _ => Panic "unsupported filter %v"
      end
  | _ => Ret ([], RdErr (Errorf "stream not present"))
  end.

(** The table of an object stream: [for i := 0; i < n; i++].  [Some b] is
    the buffer placed on the object when the id is found. *)
Fixpoint objstmScan (fuel : nat) (n : nat) (first : Z) (target : Z)
    (b : pdfbuffer) : outcome (option pdfbuffer * pdfbuffer) :=
  match n with
  | O => Ret (None, b)
  | S n' =>
      '(t1, b) <- readToken fuel b ;;
      '(t2, b) <- readToken fuel b ;;
      let id_ := match t1 with Oint64 x => x | _ => 0 end in
      let off := match t2 with Oint64 x => x | _ => 0 end in
      if uint32 id_ =? target then
        b <- seekForward fuel b (int64 (first + off)) ;; Ret (Some b, b)
      else objstmScan fuel n' first target b
  end.

(** The loop [Search] of [resolve]: [inl x] when the loop is left through
    [break Search] with the object [x], [inr] when [resolve] returns from
    inside the loop. *)
Fixpoint objstmSearch (fuel : nat) (strm : Value) (ptr : pdfobjptr)
    : outcome (pdfobject + Value * option error) :=
  match fuel with
  | O => OutOfFuel
  | S fuel' =>
      if negb (ValueKind.eqb (Kind strm) ValueKind.Stream) then
        Ret (inr (Value_zero, Some ErrNotAStream))
      else
        '(name, _) <- Name_with strm [Pstring "Type"] ;;
        if negb (String.eqb name "ObjStm") then Panic "not an object stream"
        else
          '(n, _) <- Int_with strm [Pstring "N"] ;;
          '(first, err) <- Int64_with strm [Pstring "First"] ;;
          match err with
          | Some _ => Panic "missing First"
          | None =>
              rd <- Value_Reader_with strm ;;
              let b := set_allowEOF (newPdfBuffer rd 0) true in
              '(found, b) <- objstmScan fuel' (Z.to_nat n) first (id ptr) b ;;
              match found with
              | Some b => '(x, _) <- readObject fuel' b ;; Ret (inl x)
              | None =>
                  '(ext, err) <- Key_with strm "Extends" ;;
                  match err with
                  | Some _ => Panic "error reading stream"
                  | None =>
                      if negb (ValueKind.eqb (Kind ext) ValueKind.Stream) then
                        Panic "cannot find object in stream"
                      else objstmSearch fuel' ext ptr
                  end
              end
          end
  end.

End Accessors.

(** the closing type switch of [resolve] *)
Definition resolveWrap (parent : pdfobjptr) (x : pdfobject)
    : Value * option error :=
  match x with
  | Onil | Obool _ | Oint64 _ | Ofloat64 _ | Oname _ | Odict _ | Oarray _
  | Ostream _ _ _ | Ostring _ =>
      ({| v_ptr := parent; v_data := x |}, None)
  | _ => (Value_zero, Some ErrUnexpectedValueType)
  end.

(** *** resolve *)

Fixpoint resolve (fuel : nat) (r : Reader) (parent : pdfobjptr)
    (x : pdfobject) {struct fuel} : outcome (Value * option error) :=
  match fuel with
  | O => OutOfFuel
  | S fuel' =>
      match x with
      | Oobjptr ptr =>
          if uint32 (len (r_xref r)) <=? id ptr then
            Ret (Value_zero, Some ErrObjectOutOfBounds)
          else
            let xref := nthZ xref_zero (r_xref r) (id ptr) in
            if negb (pdfobjptr_eqb (x_ptr xref) ptr)
               || (negb (x_inStream xref) && (x_offset xref =? 0)) then
              Ret (Value_zero, None)
            else if x_inStream xref then
              '(strm, err) <- resolve fuel' r parent (Oobjptr (x_stream xref)) ;;
              match err with
              | Some e => Ret (Value_zero, Some e)
              | None =>
                  s <- objstmSearch r (resolve fuel' r) fuel' strm ptr ;;
                  match s with
                  | inl x => Ret (resolveWrap ptr x)
                  | inr ret => Ret ret
                  end
              end
            else
              let b :=
                set_crypt
                  (newPdfBuffer
                     (NewSectionReader (r_f r) (x_offset xref)
                        (int64 (r_end r - x_offset xref)))
                     (x_offset xref))
                  (r_key r) (r_useAES r) in
              '(obj, _) <- readObject fuel' b ;;
              match obj with
              | Oobjdef dptr o =>
                  if negb (pdfobjptr_eqb dptr ptr) then
                    Panic "loading %v: found %v"
                  else Ret (resolveWrap ptr o)
              | _ => Panic "loading %v: found %T instead of objdef"
              end
      | _ => Ret (resolveWrap parent x)
      end
  end.

Definition Key (fuel : nat) (r : Reader) : Value -> string -> outcome (Value * option error) :=
  Key_with (resolve fuel r).

Definition Index (fuel : nat) (r : Reader) : Value -> Z -> outcome (Value * option error) :=
  Index_with (resolve fuel r).

Definition Walk (fuel : nat) (r : Reader) := Walk_with (resolve fuel r).
Definition Int (fuel : nat) (r : Reader) := Int_with (resolve fuel r).
Definition Int64 (fuel : nat) (r : Reader) := Int64_with (resolve fuel r).
Definition Name (fuel : nat) (r : Reader) := Name_with (resolve fuel r).
Definition Value_Reader (fuel : nat) (r : Reader) :=
  Value_Reader_with r (resolve fuel r).


(** *** Cross-reference tables (reader, "readXrefTableData")

    The table of this path is a slice whose length alone is observed: it is
    nil at the start, grows through [append], and is cut to [x+1] right
    after, so the elements added are zero values.  It is a list here. *)

Definition growTable (table : list xref) (x : Z) : list xref :=
  table ++ repeat xref_zero (Z.to_nat (x + 1) - List.length table).

(** [table[x] = v] for [0 <= x < len(table)] *)
Definition setTable (table : list xref) (x : Z) (v : xref) : list xref :=
  firstn (Z.to_nat x) table ++ v :: skipn (S (Z.to_nat x)) table.

Definition malformedXrefTable : error := Errorf "malformed xref table".

(** the loop [for i := 0; i < int(n); i++] of one subsection; [count] is the
    number of turns left *)
Fixpoint readXrefTableData_entries (fuel : nat) (count : nat) (i start : Z)
    (b : pdfbuffer) (table : list xref)
    : outcome (list xref * option error * pdfbuffer) :=
  match count with
  | O => Ret (table, None, b)
  | S count' =>
      '(t1, b) <- readToken fuel b ;;
      '(t2, b) <- readToken fuel b ;;
      '(t3, b) <- readToken fuel b ;;
      match t1, t2, t3 with
      | Oint64 off, Oint64 gen_, Okeyword alloc =>
          if negb (String.eqb alloc "f") && negb (String.eqb alloc "n") then
            Ret ([], Some malformedXrefTable, b)
          else
            let x := int64 (int64 start + i) in
            let table := growTable table x in
            if String.eqb alloc "n" then
              if x <? 0 then Panic "index out of range"
              else
                let table :=
                  if x_offset (nthZ xref_zero table x) =? 0 then
                    setTable table x
                      {| x_ptr := {| id := uint32 x; gen := uint16 gen_ |};
                         x_inStream := false; x_stream := pdfobjptr_zero;
                         x_offset := off |}
                  else table in
                readXrefTableData_entries fuel count' (i + 1) start b table
            else readXrefTableData_entries fuel count' (i + 1) start b table
      | _, _, _ => Ret ([], Some malformedXrefTable, b)
      end
  end.

Fixpoint readXrefTableData (fuel : nat) (b : pdfbuffer) (table : list xref)
    : outcome (list xref * option error * pdfbuffer) :=
  match fuel with
  | O => OutOfFuel
  | S fuel' =>
      '(tok, b) <- readToken fuel' b ;;
      if is_keyword tok "trailer" then Ret (table, None, b)
      else
        '(tok2, b) <- readToken fuel' b ;;
        match tok, tok2 with
        | Oint64 start, Oint64 n =>
            '(table, err, b) <-
               readXrefTableData_entries fuel' (Z.to_nat n) 0 start b table ;;
            match err with
            | Some e => Ret ([], Some e, b)
            | None => readXrefTableData fuel' b table
            end
        | _, _ => Ret ([], Some malformedXrefTable, b)
        end
  end.

(** The result of [readXref] and its helpers:
    [([]xref, pdfobjptr, pdfdict, error)]. *)
Definition xrefResult : Type :=
  (list xref * pdfobjptr * pdfdict * option error)%type.

Definition xrefError (format : string) : xrefResult :=
  ([], pdfobjptr_zero, [], Some (Errorf format)).

(** the loop over [Prev] of [readXrefTable]; the trailer it reads shadows
    the outer one *)
Fixpoint readXrefTable_prev (fuel : nat) (r : Reader) (prevoff : pdfobject)
    (table : list xref) : outcome (list xref * option error) :=
  match prevoff with
  | Onil => Ret (table, None)
  | _ =>
      match fuel with
      | O => OutOfFuel
      | S fuel' =>
          match prevoff with
          | Oint64 off =>
              let b :=
                newPdfBuffer
                  (NewSectionReader (r_f r) off (int64 (r_end r - off))) off in
              '(tok, b) <- readToken fuel' b ;;
              if negb (is_keyword tok "xref") then
                Ret ([], Some (Errorf "malformed PDF: xref Prev does not point to xref"))
              else
                '(table, err, b) <- readXrefTableData fuel' b table ;;
                match err with
                | Some _ => Ret ([], Some (Errorf "malformed PDF: %v"))
                | None =>
                    '(obj, b) <- readObject fuel' b ;;
                    match obj with
                    | Odict trailer =>
                        readXrefTable_prev fuel' r (map_get trailer "Prev")
                          table
                    | _ =>
                        Ret ([], Some (Errorf "malformed PDF: xref Prev table not followed by trailer dictionary"))
                    end
                end
          | _ =>
              Ret ([], Some (Errorf "malformed PDF: xref Prev is not integer: %v"))
          end
      end
  end.

Definition readXrefTable (fuel : nat) (r : Reader) (b : pdfbuffer)
    : outcome xrefResult :=
  '(table, err, b) <- readXrefTableData fuel b [] ;;
  match err with
  | Some _ => Ret (xrefError "malformed PDF: %v")
  | None =>
      '(obj, b) <- readObject fuel b ;;
      match obj with
      | Odict trailer =>
          '(table, err) <-
             readXrefTable_prev fuel r (map_get trailer "Prev") table ;;
          match err with
          | Some e => Ret ([], pdfobjptr_zero, [], Some e)
          | None =>
              match map_get trailer "Size" with
              | Oint64 size =>
                  if size <? len table then
                    if size <? 0 then Panic "slice bounds out of range"
                    else
                      Ret (firstn (Z.to_nat size) table, pdfobjptr_zero,
                           trailer, None)
                  else Ret (table, pdfobjptr_zero, trailer, None)
              | _ => Ret (xrefError "malformed PDF: trailer missing /Size entry")
              end
          end
      | _ =>
          Ret (xrefError "malformed PDF: xref table not followed by trailer dictionary")
      end
  end.

(** *** Cross-reference streams (reader, "readXrefStreamData")

    Here the length and the capacity of the table are both observed:
    [append] is the only step that makes the table longer.  A slice is its
    elements up to its length and its capacity; the elements between the
    two are zero values.  The capacity [append] chooses is the runtime's. *)

Record xrefSlice : Type := { s_elems : list xref; s_cap : Z }.

Variable growslice : Z -> Z.

(** [table = append(table[:cap(table)], xref{})] *)
Definition appendFull (table : xrefSlice) : xrefSlice :=
  {| s_elems :=
       s_elems table
       ++ repeat xref_zero
            (Z.to_nat (s_cap table) - List.length (s_elems table))
       ++ [xref_zero];
     s_cap := growslice (s_cap table) |}.

(** [for cap(table) <= x { table = append(table[:cap(table)], xref{}) }] *)
Fixpoint growSlice (fuel : nat) (table : xrefSlice) (x : Z)
    : outcome xrefSlice :=
  if s_cap table <=? x then
    match fuel with
    | O => OutOfFuel
    | S fuel' => growSlice fuel' (appendFull table) x
    end
  else Ret table.

Definition decodeInt (b : list byte) : Z :=
  fold_left (fun x c => int64 (Z.lor (Z.shiftl x 8) c)) b 0.

(** [buf[lo:hi]] of a slice whose capacity is its length *)
Definition subslice (buf : list byte) (lo hi : Z) : outcome (list byte) :=
  if (lo <? 0) || (hi <? lo) || (len buf <? hi) then
    Panic "slice bounds out of range"
  else Ret (firstn (Z.to_nat (hi - lo)) (skipn (Z.to_nat lo) buf)).

(** one turn of the loop over the entries of an [Index] range *)
Definition readXrefStreamData_entry (fuel : nat) (w0 w1 w2 : Z)
    (buf : list byte) (x : Z) (table : xrefSlice) : outcome xrefSlice :=
  f1 <- subslice buf 0 w0 ;;
  let v1 := if w0 =? 0 then 1 else decodeInt f1 in
  f2 <- subslice buf w0 (int64 (w0 + w1)) ;;
  let v2 := decodeInt f2 in
  f3 <- subslice buf (int64 (w0 + w1)) (int64 (int64 (w0 + w1) + w2)) ;;
  let v3 := decodeInt f3 in
  table <- growSlice fuel table x ;;
  if (x <? 0) || (len (s_elems table) <=? x) then Panic "index out of range"
  else if negb (pdfobjptr_eqb (x_ptr (nthZ xref_zero (s_elems table) x))
                  pdfobjptr_zero) then Ret table
  else
    let set (v : xref) : xrefSlice :=
      {| s_elems := setTable (s_elems table) x v; s_cap := s_cap table |} in
    if v1 =? 0 then
      Ret (set {| x_ptr := {| id := 0; gen := 65535 |}; x_inStream := false;
                  x_stream := pdfobjptr_zero; x_offset := 0 |})
    else if v1 =? 1 then
      Ret (set {| x_ptr := {| id := uint32 x; gen := uint16 v3 |};
                  x_inStream := false; x_stream := pdfobjptr_zero;
                  x_offset := v2 |})
    else if v1 =? 2 then
      Ret (set {| x_ptr := {| id := uint32 x; gen := 0 |};
                  x_inStream := true;
                  x_stream := {| id := uint32 v2; gen := 0 |};
                  x_offset := v3 |})
    else Ret table.

Definition nilSlice : xrefSlice := {| s_elems := []; s_cap := 0 |}.

Fixpoint readXrefStreamData_entries (fuel : nat) (count : nat) (i start : Z)
    (w0 w1 w2 wtotal : Z) (data : reader) (table : xrefSlice)
    : outcome (xrefSlice * option error * reader) :=
  match count with
  | O => Ret (table, None, data)
  | S count' =>
      '(buf, err, data) <- ReadFull data wtotal ;;
      match err with
      | Some _ =>
          Ret (nilSlice, Some (Errorf "error reading xref stream: %v"), data)
      | None =>
          table <- readXrefStreamData_entry fuel w0 w1 w2 buf
                     (int64 (int64 start + i)) table ;;
          readXrefStreamData_entries fuel count' (i + 1) start w0 w1 w2 wtotal
            data table
      end
  end.

(** the loop [for len(index) > 0] *)
Fixpoint readXrefStreamData_index (fuel : nat) (index : list pdfobject)
    (w0 w1 w2 wtotal : Z) (data : reader) (table : xrefSlice)
    : outcome (xrefSlice * option error) :=
  match index with
  | [] => Ret (table, None)
  | [ _ ] => Panic "index out of range"
  | i0 :: i1 :: index' =>
      match i0, i1 with
      | Oint64 start, Oint64 n =>
          '(table, err, data) <-
             readXrefStreamData_entries fuel (Z.to_nat n) 0 start w0 w1 w2
               wtotal data table ;;
          match err with
          | Some e => Ret (nilSlice, Some e)
          | None =>
              readXrefStreamData_index fuel index' w0 w1 w2 wtotal data table
          end
      | _, _ => Ret (nilSlice, Some (Errorf "malformed Index pair %v %v %T %T"))
      end
  end.

(** the elements of [W] as [int]s, [None] when one is not an integer *)
Fixpoint widthsOfW (ww : list pdfobject) : option (list Z) :=
  match ww with
  | [] => Some []
  | Oint64 i :: ww' =>
      match widthsOfW ww' with
      | Some w => Some (i :: w)
      | None => None
      end
  | _ :: _ => None
  end.

Definition readXrefStreamData (fuel : nat) (r : Reader)
    (hdr : pdfdict) (sptr : pdfobjptr) (soff : Z)
    (table : xrefSlice) (size : Z) : outcome (xrefSlice * option error) :=
  let index :=
    match map_get hdr "Index" with
    | Oarray ((_ :: _) as index) => index
    | _ => [Oint64 0; Oint64 size]
    end in
  if negb (Z.rem (len index) 2 =? 0) then
    Ret (nilSlice, Some (Errorf "invalid Index array %v"))
  else
    match map_get hdr "W" with
    | Oarray ww =>
        match widthsOfW ww with
        | Some ((w0 :: w1 :: w2 :: _) as w) =>
            let wtotal := fold_left (fun a wid => int64 (a + wid)) w 0 in
            if wtotal <? 0 then Panic "makeslice: len out of range"
            else
              data <- Value_Reader fuel r
                        {| v_ptr := pdfobjptr_zero;
                           v_data := Ostream hdr sptr soff |} ;;
              readXrefStreamData_index fuel index w0 w1 w2 wtotal data table
        | _ => Ret (nilSlice, Some (Errorf "invalid W array %v"))
        end
    | _ => Ret (nilSlice, Some (Errorf "xref stream missing W array"))
    end.

(** the loop over [Prev] of [readXrefStream] *)
Fixpoint readXrefStream_prev (fuel : nat) (r : Reader) (prevoff : pdfobject)
    (size : Z) (table : xrefSlice) : outcome (xrefSlice * option error) :=
  match prevoff with
  | Onil => Ret (table, None)
  | _ =>
      match fuel with
      | O => OutOfFuel
      | S fuel' =>
          match prevoff with
          | Oint64 off =>
              let b :=
                newPdfBuffer
                  (NewSectionReader (r_f r) off (int64 (r_end r - off))) off in
              '(obj1, b) <- readObject fuel' b ;;
              match obj1 with
              | Oobjdef _ (Ostream phdr pptr poff as prevstrm) =>
                  let prev := {| v_ptr := pdfobjptr_zero; v_data := prevstrm |} in
                  if negb (ValueKind.eqb (Kind prev) ValueKind.Stream) then
                    Ret (nilSlice, Some (Errorf "malformed PDF: xref prev stream is not stream: %v"))
                  else
                    '(name, _) <- Name fuel' r prev [Pstring "Type"] ;;
                    if negb (String.eqb name "XRef") then
                      Ret (nilSlice, Some (Errorf "malformed PDF: xref prev stream does not have type XRef"))
                    else
                      '(psize, err) <- Int64 fuel' r prev [Pstring "Size"] ;;
                      match err with
                      | Some e => Ret (nilSlice, Some e)
                      | None =>
                          if size <? psize then
                            Ret (nilSlice, Some (Errorf "malformed PDF: xref prev stream larger than last stream"))
                          else
                            '(table, err) <-
                               readXrefStreamData fuel' r phdr pptr poff table psize ;;
                            match err with
                            | Some _ =>
                                Ret (nilSlice, Some (Errorf "malformed PDF: reading xref prev stream: %v"))
                            | None =>
                                readXrefStream_prev fuel' r
                                  (map_get phdr "Prev") size table
                            end
                      end
              | _ =>
                  Ret (nilSlice, Some (Errorf "malformed PDF: xref prev stream not found: %v"))
              end
          | _ =>
              Ret (nilSlice, Some (Errorf "malformed PDF: xref Prev is not integer: %v"))
          end
      end
  end.

Definition readXrefStream (fuel : nat) (r : Reader) (b : pdfbuffer)
    : outcome xrefResult :=
  '(obj1, b) <- readObject fuel b ;;
  match obj1 with
  | Oobjdef strmptr (Ostream hdr sptr soff as strm) =>
      if negb (is_name (map_get hdr "Type") "XRef") then
        Ret (xrefError "malformed PDF: xref stream does not have type XRef")
      else
        match map_get hdr "Size" with
        | Oint64 size =>
            if size <? 0 then Panic "makeslice: len out of range"
            else
              let table :=
                {| s_elems := repeat xref_zero (Z.to_nat size);
                   s_cap := size |} in
              '(table, err) <- readXrefStreamData fuel r hdr sptr soff table size ;;
              match err with
              | Some _ => Ret (xrefError "malformed PDF: %v")
              | None =>
                  '(table, err) <-
                     readXrefStream_prev fuel r (map_get hdr "Prev") size
                       table ;;
                  match err with
                  | Some e => Ret ([], pdfobjptr_zero, [], Some e)
                  | None => Ret (s_elems table, strmptr, hdr, None)
                  end
              end
        | _ => Ret (xrefError "malformed PDF: xref stream missing Size")
        end
  | _ => Ret (xrefError "malformed PDF: cross-reference table not found: %v")
  end.

Definition readXref (fuel : nat) (r : Reader) (b : pdfbuffer)
    : outcome xrefResult :=
  '(tok, b) <- readToken fuel b ;;
  if is_keyword tok "xref" then readXrefTable fuel r b
  else
    match tok with
    | Oint64 _ => readXrefStream fuel r (unreadToken b tok)
    | _ => Ret (xrefError "malformed PDF: cross-reference table not found: %v")
    end.

(** *** Encryption (reader, "initEncrypt") *)

Definition passwordPad : list byte :=
  [ 40; 191; 78; 94; 78; 117; 138; 65; 100; 0; 78; 86; 255; 250; 1; 8;
    46; 46; 0; 182; 208; 104; 62; 128; 47; 12; 169; 254; 100; 83; 105; 122 ].

(** Go's [==] on two interface values of which the right one holds a name,
    and on a value against the integer 16 *)
Definition okayV4 (encrypt : pdfdict) : bool :=
  match map_get encrypt "CF", map_get encrypt "StmF", map_get encrypt "StrF" with
  | Odict cf, Oname stmf, Oname strf =>
      if negb (String.eqb stmf strf) then false
      else
        let cfparam :=
          match map_get cf stmf with Odict d => d | _ => [] end in
        let authEvent := map_get cfparam "AuthEvent" in
        let length := map_get cfparam "Length" in
        if match authEvent with
           | Onil => false
           | _ => negb (is_name authEvent "DocOpen")
           end then false
        else if match length with
                | Onil => false
                | Oint64 16 => false
                | _ => true
                end then false
        else if negb (is_name (map_get cfparam "CFM") "AESV2") then false
        else true
  | _, _, _ => false
  end.

(** [bytes.HasPrefix(s, prefix)] *)
Definition HasPrefix (s prefix : list byte) : bool :=
  bytes_eqb (firstn (List.length prefix) s) prefix.

(** [bytes.HasSuffix(s, suffix)] *)
Definition HasSuffix (s suffix : list byte) : bool :=
  (len suffix <=? len s)
  && bytes_eqb (skipn (List.length s - List.length suffix) s) suffix.

(** the 50 rounds of revision 3 and later *)
Fixpoint md5Rounds (n : nat) (klen : Z) (key : list byte) : list byte :=
  match n with
  | O => key
  | S n' => md5Rounds n' klen (MD5.sum (firstn (Z.to_nat klen) key))
  end.

(** the 19 further RC4 passes, [i] from [i] to 19 *)
Fixpoint rc4Rounds (n : nat) (i : Z) (key u : list byte) : list byte :=
  match n with
  | O => u
  | S n' =>
      let key1 := map (fun k => Z.lxor k (to_byte i)) key in
      rc4Rounds n' (i + 1) key (RC4.xorKeyStream key1 u)
  end.

Definition set_key (r : Reader) (key : list byte) (aes : bool) : Reader :=
  {| r_f := r_f r; r_end := r_end r; r_xref := r_xref r;
     r_Trailer := r_Trailer r; r_key := Some key; r_useAES := aes |}.

(** [initEncrypt] returns its error and leaves the key in the reader *)
Definition initEncrypt (fuel : nat) (r : Reader) (password : list byte)
    : outcome (option error * Reader) :=
  '(e, err) <- Key fuel r (r_Trailer r) "Encrypt" ;;
  match err with
  | Some _ => Ret (Some (Errorf "Failed to resolve Encrypt key"), r)
  | None =>
      let encrypt := match v_data e with Odict d => d | _ => [] end in
      if negb (is_name (map_get encrypt "Filter") "Standard") then
        Ret (Some (Errorf "unsupported PDF: encryption filter %v"), r)
      else
        let n := match map_get encrypt "Length" with Oint64 n => n | _ => 0 end in
        let n := if n =? 0 then 40 else n in
        if negb (Z.rem n 8 =? 0) || (128 <? n) || (n <? 40) then
          Ret (Some (Errorf "malformed PDF: %d-bit encryption key"), r)
        else
          let V := match map_get encrypt "V" with Oint64 v => v | _ => 0 end in
          if negb (V =? 1) && negb (V =? 2)
             && (negb (V =? 4) || negb (okayV4 encrypt)) then
            Ret (Some (Errorf "unsupported PDF: encryption version V=%d; %v"), r)
          else
            '(ids, err2) <- Key fuel r (r_Trailer r) "ID" ;;
            if match err2 with Some _ => true | None => Len ids <? 1 end then
              Ret (Some (Errorf "malformed PDF: missing ID in trailer"), r)
            else
              '(idstr1, err2) <- Index fuel r ids 0 ;;
              let ID := RawString idstr1 in
              match err2 with
              | Some _ =>
                  Ret (Some (Errorf "malformed PDF: missing ID in trailer"), r)
              | None =>
                  let R := match map_get encrypt "R" with
                           | Oint64 x => x | _ => 0 end in
                  if R <? 2 then
                    Ret (Some (Errorf "malformed PDF: encryption revision R=%d"), r)
                  else if 4 <? R then
                    Ret (Some (Errorf "unsupported PDF: encryption revision R=%d"), r)
                  else
                    let O := match map_get encrypt "O" with
                             | Ostring s => s | _ => [] end in
                    let U := match map_get encrypt "U" with
                             | Ostring s => s | _ => [] end in
                    if negb (len O =? 32) || negb (len U =? 32) then
                      Ret (Some (Errorf "malformed PDF: missing O= or U= encryption parameters"), r)
                    else
                      let p := match map_get encrypt "P" with
                               | Oint64 x => x | _ => 0 end in
                      let P := uint32 p in
                      let pw :=
                        if 32 <=? len password then firstn 32 password
                        else password
                             ++ firstn (32 - List.length password) passwordPad in
                      let key := MD5.sum (pw ++ O ++ MD5.le32 P ++ ID) in
                      let key :=
                        if 3 <=? R then
                          firstn (Z.to_nat (n / 8)) (md5Rounds 50 (n / 8) key)
                        else firstn 5 key in
                      let u :=
                        if R =? 2 then RC4.xorKeyStream key passwordPad
                        else
                          rc4Rounds 19 1 key
                            (RC4.xorKeyStream key (MD5.sum (passwordPad ++ ID))) in
                      if negb (HasPrefix U u) then Ret (Some ErrInvalidPassword, r)
                      else Ret (None, set_key r key (V =? 4))
              end
  end.

(** *** Opening a file (reader, "NewReaderEncrypted") *)

(** [f.ReadAt(buf, off)] into a fresh [buf] of [n] bytes, the error dropped *)
Definition ReadAt (f : list byte) (n : nat) (off : Z) : list byte :=
  if off <? 0 then repeat 0 n
  else
    let d := firstn n (skipn (Z.to_nat off) f) in
    d ++ repeat 0 (n - List.length d).

(** [bytes.LastIndex(s, sep)] for a non-empty [sep]: candidates from [i]
    downwards *)
Fixpoint LastIndex_from (i : nat) (s sep : list byte) : Z :=
  if HasPrefix (skipn i s) sep then Z.of_nat i
  else match i with
       | O => -1
       | S i' => LastIndex_from i' s sep
       end.

Definition LastIndex (s sep : list byte) : Z :=
  if len s <? len sep then -1
  else LastIndex_from (List.length s - List.length sep) s sep.

Definition isNewline (c : byte) : bool := (c =? 10) || (c =? 13).

Fixpoint findLastLine_loop (fuel : nat) (buf bs : list byte) (max : Z) : Z :=
  match fuel with
  | O => -1
  | S fuel' =>
      let i := LastIndex (firstn (Z.to_nat max) buf) bs in
      if (i <=? 0) || (len buf <=? i + len bs) then -1
      else if isNewline (nthZ 0 buf (i - 1))
              && isNewline (nthZ 0 buf (i + len bs)) then i
      else findLastLine_loop fuel' buf bs i
  end.

(** every turn lowers [max], so [len(buf) + 1] turns are enough *)
Definition findLastLine (buf : list byte) (s : string) : Z :=
  findLastLine_loop (S (List.length buf)) buf (bytes_of_string s) (len buf).

(** The first trimming loop: its condition is
    [len(buf) > 0 && last == '\n' || last == '\r'], so the last byte is read
    also when [buf] is empty.  The list is the buffer reversed. *)
Fixpoint trimNewlines (rbuf : list byte) : outcome (list byte) :=
  match rbuf with
  | [] => Panic "index out of range [-1]"
  | c :: rbuf' => if isNewline c then trimNewlines rbuf' else Ret rbuf
  end.

(** [bytes.TrimRight(buf, "\r\n\t ")], on the reversed buffer *)
Fixpoint TrimRight_rev (rbuf : list byte) : list byte :=
  match rbuf with
  | [] => []
  | c :: rbuf' =>
      if (c =? 13) || (c =? 10) || (c =? 9) || (c =? 32)
      then TrimRight_rev rbuf' else rbuf
  end.

Definition endChunk : Z := 100.

Definition newReader (f : list byte) (end_ : Z) : Reader :=
  {| r_f := f; r_end := end_; r_xref := []; r_Trailer := Value_zero;
     r_key := None; r_useAES := false |}.

(** Everything up to the encryption handshake: the header and trailer
    checks, [startxref], and the cross-reference table. *)
Definition openReader (fuel : nat) (f : list byte) (size : Z)
    : outcome (option (Reader * pdfdict) * option error) :=
  let buf := ReadAt f 10 0 in
  if negb (HasPrefix buf (bytes_of_string "%PDF-1."))
     || (nthZ 0 buf 7 <? ch "0") || (ch "7" <? nthZ 0 buf 7)
     || (negb (nthZ 0 buf 8 =? 13) && negb (nthZ 0 buf 8 =? 10)) then
    Ret (None, Some (Errorf "not a PDF file: invalid header"))
  else
    let end_ := size in
    let buf := ReadAt f (Z.to_nat endChunk) (int64 (end_ - endChunk)) in
    rbuf <- trimNewlines (rev buf) ;;
    let buf := rev (TrimRight_rev rbuf) in
    if negb (HasSuffix buf (bytes_of_string "%%EOF")) then
      Ret (None, Some (Errorf "not a PDF file: missing %%%%EOF"))
    else
      let i := findLastLine buf "startxref" in
      if i <? 0 then
        Ret (None, Some (Errorf "malformed PDF file: missing final startxref"))
      else
        let r := newReader f end_ in
        let pos := int64 (int64 (end_ - endChunk) + i) in
        let b := newPdfBuffer (NewSectionReader f pos (int64 (end_ - pos))) pos in
        '(tok, b) <- readToken fuel b ;;
        if negb (is_keyword tok "startxref") then
          Ret (None, Some (Errorf "malformed PDF file: missing startxref"))
        else
          '(tok, b) <- readToken fuel b ;;
          match tok with
          | Oint64 startxref =>
              let b :=
                newPdfBuffer
                  (NewSectionReader f startxref (int64 (end_ - startxref)))
                  startxref in
              '(xref, trailerptr, trailer, err) <- readXref fuel r b ;;
              match err with
              | Some e => Ret (None, Some e)
              | None =>
                  Ret (Some ({| r_f := f; r_end := end_; r_xref := xref;
                                r_Trailer := {| v_ptr := trailerptr;
                                                v_data := Odict trailer |};
                                r_key := None; r_useAES := false |},
                             trailer), None)
              end
          | _ =>
              Ret (None, Some (Errorf "malformed PDF file: startxref not followed by integer"))
          end.

(** The password callback [pw func() string] is a sequence of answers; its
    state is the number of calls made so far.  The loop of
    [NewReaderEncrypted] returns the reader (or nothing) and that count;
    [turns] bounds the turns of the loop, [fuel] is for each attempt. *)
Fixpoint passwordLoop (turns : nat) (fuel : nat) (r : Reader)
    (pw : nat -> list byte) (calls : nat) : outcome (option Reader * nat) :=
  match turns with
  | O => OutOfFuel
  | S turns' =>
      let next := pw calls in
      match next with
      | [] => Ret (None, S calls)
      | _ =>
          '(err, r') <- initEncrypt fuel r next ;;
          match err with
          | None => Ret (Some r', S calls)
          | Some _ => passwordLoop turns' fuel r pw (S calls)
          end
      end
  end.

(** [NewReaderEncrypted]: the reader, the error, and the number of calls
    made to [pw] ([None] is the nil callback). *)
Definition NewReaderEncrypted (fuel : nat) (f : list byte) (size : Z)
    (pw : option (nat -> list byte))
    : outcome (option Reader * option error * nat) :=
  '(opened, err) <- openReader fuel f size ;;
  match opened with
  | None => Ret (None, err, O)
  | Some (r, trailer) =>
      match map_get trailer "Encrypt" with
      | Onil => Ret (Some r, None, O)
      | _ =>
          '(err, r') <- initEncrypt fuel r [] ;;
          match err with
          | None => Ret (Some r', None, O)
          | Some e =>
              match pw with
              | None => Ret (None, Some e, O)
              | Some pw =>
                  if negb (is_ErrInvalidPassword e) then Ret (None, Some e, O)
                  else
                    '(res, calls) <- passwordLoop fuel fuel r pw O ;;
                    match res with
                    | Some r' => Ret (Some r', None, calls)
                    | None => Ret (None, Some e, calls)
                    end
              end
          end
      end
  end.

Definition NewReader (fuel : nat) (f : list byte) (size : Z) :=
  NewReaderEncrypted fuel f size None.

(** ** Pages (page.go) *)

Record Page : Type := { p_V : Value }.

(** [findInherited]: the body of the loop returns in its first turn, so the
    post statement [v, _ = v.Key("Parent")] is never run. *)
Definition findInherited (fuel : nat) (r : Reader) (p : Page) (key : string)
    : outcome (Value * option error) :=
  let v := p_V p in
  if ValueKind.eqb (Kind v) ValueKind.Null then Ret (Value_zero, None)
  else
    '(res, err) <- Key fuel r v key ;;
    match err with
    | Some e => Ret (Value_zero, Some e)
    | None => Ret (res, None)
    end.

Definition MediaBox (fuel : nat) (r : Reader) (p : Page) :=
  findInherited fuel r p "MediaBox".

Definition CropBox (fuel : nat) (r : Reader) (p : Page) :=
  findInherited fuel r p "CropBox".

Definition Resources (fuel : nat) (r : Reader) (p : Page) :=
  findInherited fuel r p "Resources".

(** ** Fonts (font.go)

    font.go calls the accessors of a [Value] as functions of one result
    ([v.Key(k).Index(i).Float64()]): the result is the value the accessor of
    the reader returns, its error dropped. *)

Definition KeyV (fuel : nat) (r : Reader) (v : Value) (key : string)
    : outcome Value :=
  '(x, _) <- Key fuel r v key ;; Ret x.

Definition IndexV (fuel : nat) (r : Reader) (v : Value) (i : Z)
    : outcome Value :=
  '(x, _) <- Index fuel r v i ;; Ret x.

Definition Int64V (v : Value) : Z :=
  match v_data v with Oint64 x => x | _ => 0 end.

Definition NameV (v : Value) : string :=
  match v_data v with Oname x => x | _ => EmptyString end.

Record WidthRange1 : Type := {
  wr1_start : Z; wr1_end : Z; wr1_widths : list float64
}.

Record WidthRange2 : Type := {
  wr2_start : Z; wr2_end : Z; wr2_width : float64
}.

(** The two implementations of the interface [WidthGrabber] *)
Inductive WidthGrabber : Type :=
| DefaultWidthGrabber (first last : Z) (widths : list float64)
| CIDWidthGrabber (wmap1 : list WidthRange1) (wmap2 : list WidthRange2)
    (defaultwidth : float64).

(** [widths[i]] with Go's bounds check *)
Definition indexWidths (widths : list float64) (i : Z) : outcome float64 :=
  if (i <? 0) || (len widths <=? i) then Panic "index out of range"
  else Ret (nthZ float64_zero widths i).

Fixpoint widthRange1 (wmap1 : list WidthRange1) (code : Z)
    : option (outcome float64) :=
  match wmap1 with
  | [] => None
  | wr1 :: wmap1' =>
      if (wr1_start wr1 <=? code) && (code <? wr1_end wr1) then
        Some (indexWidths (wr1_widths wr1) (uint32 (code - wr1_start wr1)))
      else widthRange1 wmap1' code
  end.

Fixpoint widthRange2 (wmap2 : list WidthRange2) (code : Z) : option float64 :=
  match wmap2 with
  | [] => None
  | wr2 :: wmap2' =>
      if (wr2_start wr2 <=? code) && (code <? wr2_end wr2) then
        Some (wr2_width wr2)
      else widthRange2 wmap2' code
  end.

(** [Width(code uint32) float64] of both implementations *)
Definition Width (wg : WidthGrabber) (code : Z) : outcome float64 :=
  match wg with
  | DefaultWidthGrabber first last widths =>
      if (code <? first) || (last <=? code) then Ret float64_zero
      else indexWidths widths (uint32 (code - first))
  | CIDWidthGrabber wmap1 wmap2 defaultwidth =>
      match widthRange1 wmap1 code with
      | Some w => w
      | None =>
          match widthRange2 wmap2 code with
          | Some w => Ret w
          | None => Ret defaultwidth
          end
      end
  end.

(** [for i := 0; i < w.Len(); i += 1 { widths[i] = w.Index(i).Float64() }] *)
Fixpoint defaultWidths (fuel : nat) (r : Reader) (w : Value) (count : nat)
    (i : Z) : outcome (list float64) :=
  match count with
  | O => Ret []
  | S count' =>
      x <- IndexV fuel r w i ;;
      rest <- defaultWidths fuel r w count' (i + 1) ;;
      Ret (Float64 x :: rest)
  end.

Definition CreateDefaultWidthGrabber (fuel : nat) (r : Reader) (fV : Value)
    : outcome (WidthGrabber * bool) :=
  fc <- KeyV fuel r fV "FirstChar" ;;
  let first := uint32 (Int64V fc) in
  lc <- KeyV fuel r fV "LastChar" ;;
  let last := uint32 (Int64V lc) in
  w <- KeyV fuel r fV "Widths" ;;
  widths <- defaultWidths fuel r w (Z.to_nat (Len w)) 0 ;;
  Ret (DefaultWidthGrabber first last widths, true).

(** The inner loop of [CreateCIDWidthGrabber]:
    [for j := 0; j < unk.Len(); i += 1 { widths = append(widths, ...) }];
    it steps [i], not [j]. *)
Fixpoint cidWidths (fuel : nat) (r : Reader) (unk : Value) (j i : Z)
    (widths : list float64) : outcome (list float64 * Z) :=
  if j <? Len unk then
    match fuel with
    | O => OutOfFuel
    | S fuel' =>
        x <- IndexV fuel r unk j ;;
        cidWidths fuel' r unk j (int64 (i + 1)) (widths ++ [Float64 x])
    end
  else Ret (widths, i).

(** The outer loop: [for i := 0; i < w.Len(); i += sz]. *)
Fixpoint cidEntries (fuel : nat) (r : Reader) (w : Value) (i : Z)
    (wmap1 : list WidthRange1) (wmap2 : list WidthRange2)
    : outcome (list WidthRange1 * list WidthRange2) :=
  if i <? Len w then
    match fuel with
    | O => OutOfFuel
    | S fuel' =>
        g <- IndexV fuel r w i ;;
        let glyph := uint32 (Int64V g) in
        unk <- IndexV fuel r w (int64 (i + 1)) ;;
        if ValueKind.eqb (Kind unk) ValueKind.Array then
          '(widths, i) <-
             cidWidths fuel' r unk 0 i (repeat float64_zero (Z.to_nat (Len unk))) ;;
          let wr1 := {| wr1_start := glyph;
                        wr1_end := uint32 (glyph + uint32 (Len unk));
                        wr1_widths := widths |} in
          cidEntries fuel' r w (int64 (i + 2)) (wmap1 ++ [wr1]) wmap2
        else
          let endglyph := uint32 (Int64V unk) in
          wv <- IndexV fuel r w (int64 (i + 2)) ;;
          let wr := {| wr2_start := glyph; wr2_end := endglyph;
                       wr2_width := Float64 wv |} in
          cidEntries fuel' r w (int64 (i + 3)) wmap1 (wmap2 ++ [wr])
    end
  else Ret (wmap1, wmap2).

(** [CreateCIDWidthGrabber]: [None] is the result [(nil, false)] *)
Definition CreateCIDWidthGrabber (fuel : nat) (r : Reader) (fV : Value)
    : outcome (option WidthGrabber) :=
  df <- KeyV fuel r fV "DescendantFonts" ;;
  if negb (ValueKind.code (Kind df) =? 0) then Ret None
  else
    d0 <- IndexV fuel r df 0 ;;
    w <- KeyV fuel r d0 "W" ;;
    if negb (ValueKind.code (Kind w) =? 0) then Ret None
    else
      df' <- KeyV fuel r fV "DescendantFonts" ;;
      d0' <- IndexV fuel r df' 0 ;;
      dwv <- KeyV fuel r d0' "DW" ;;
      let dw := Float64 dwv in
      '(wmap1, wmap2) <- cidEntries fuel r w 0 [] [] ;;
      Ret (Some (CIDWidthGrabber wmap1 wmap2 dw)).

(** The width grabber [FontFromValue] hands to [Encoder] *)
Definition fontWidthGrabber (fuel : nat) (r : Reader) (fV : Value)
    : outcome WidthGrabber :=
  cid <- CreateCIDWidthGrabber fuel r fV ;;
  match cid with
  | Some wg => Ret wg
  | None => '(wg, _) <- CreateDefaultWidthGrabber fuel r fV ;; Ret wg
  end.

Record PositionedChar : Type := { Text : list Z; pc_Width : float64 }.

(** The encoding tables and the glyph names live in files of the package
    that are not part of the sources at hand; [readCmap] runs the
    PostScript interpreter, which is not either.  They are parameters. *)
Section Encodings.

Variable winAnsiEncoding macRomanEncoding pdfDocEncoding : Z -> Z.
Variable nameToRune : string -> Z.       (* 0 for a name not in the map *)
Variable cmap : Type.
Variable readCmap : Reader -> Value -> WidthGrabber -> Value -> outcome (option cmap).

Inductive TextEncoding : Type :=
| byteEncoder (fV : Value) (wg : WidthGrabber) (table : Z -> Z)
| nopEncoder (fV : Value) (wg : WidthGrabber)
| dictEncoder (fV : Value) (wg : WidthGrabber) (v : Value)
| cmapEncoder (m : cmap).

Definition Encoder (fuel : nat) (r : Reader) (fV : Value) (wg : WidthGrabber)
    : outcome TextEncoding :=
  enc <- KeyV fuel r fV "Encoding" ;;
  let toUnicode (_ : unit) : outcome TextEncoding :=
    tu <- KeyV fuel r fV "ToUnicode" ;;
    if ValueKind.eqb (Kind tu) ValueKind.Stream then
      m <- readCmap r fV wg tu ;;
      match m with
      | None => Ret (nopEncoder fV wg)
      | Some m => Ret (cmapEncoder m)
      end
    else Ret (byteEncoder fV wg pdfDocEncoding) in
  match Kind enc with
  | ValueKind.Name =>
      let name := NameV enc in
      if String.eqb name "WinAnsiEncoding" then
        Ret (byteEncoder fV wg winAnsiEncoding)
      else if String.eqb name "MacRomanEncoding" then
        Ret (byteEncoder fV wg macRomanEncoding)
      else if String.eqb name "Identity-H" || String.eqb name "Identity-V" then
        toUnicode tt
      else Ret (nopEncoder fV wg)
  | ValueKind.Dict =>
      d <- KeyV fuel r enc "Differences" ;; Ret (dictEncoder fV wg d)
  | ValueKind.Null => toUnicode tt
  | _ => Ret (nopEncoder fV wg)
  end.

Record Font : Type := { f_V : Value; f_enc : TextEncoding }.

Definition FontFromValue (fuel : nat) (r : Reader) (v : Value) : outcome Font :=
  wg <- fontWidthGrabber fuel r v ;;
  enc <- Encoder fuel r v wg ;;
  Ret {| f_V := v; f_enc := enc |}.

(** [byteEncoder.Decode] *)
Fixpoint byteEncoder_Decode (wg : WidthGrabber) (table : Z -> Z)
    (raw : list byte) : outcome (list PositionedChar) :=
  match raw with
  | [] => Ret []
  | c :: raw' =>
      w <- Width wg (uint32 c) ;;
      rest <- byteEncoder_Decode wg table raw' ;;
      Ret ({| Text := [table c]; pc_Width := w |} :: rest)
  end.

(** [nopEncoder.Decode] *)
Fixpoint nopEncoder_Decode (wg : WidthGrabber) (raw : list byte)
    : outcome (list PositionedChar) :=
  match raw with
  | [] => Ret []
  | c :: raw' =>
      w <- Width wg (uint32 c) ;;
      rest <- nopEncoder_Decode wg raw' ;;
      Ret ({| Text := [c]; pc_Width := w |} :: rest)
  end.

(** The loop over [Differences] of [dictEncoder.Decode] for one byte [c]:
    the rune it ends with. *)
Fixpoint dictEncoder_rune (fuel : nat) (r : Reader) (v : Value) (c : byte)
    (count : nat) (j n : Z) (ch_ : Z) : outcome Z :=
  match count with
  | O => Ret ch_
  | S count' =>
      x <- IndexV fuel r v j ;;
      match Kind x with
      | ValueKind.Integer =>
          dictEncoder_rune fuel r v c count' (j + 1) (Int64V x) ch_
      | ValueKind.Name =>
          let rn := nameToRune (NameV x) in
          if (c =? n) && negb (rn =? 0) then Ret rn
          else dictEncoder_rune fuel r v c count' (j + 1) (int64 (n + 1)) ch_
      | _ => dictEncoder_rune fuel r v c count' (j + 1) n ch_
      end
  end.

(** [dictEncoder.Decode] *)
Fixpoint dictEncoder_Decode (fuel : nat) (r : Reader) (wg : WidthGrabber)
    (v : Value) (raw : list byte) : outcome (list PositionedChar) :=
  match raw with
  | [] => Ret []
  | c :: raw' =>
      ch_ <- dictEncoder_rune fuel r v c (Z.to_nat (Len v)) 0 (-1) c ;;
      w <- Width wg (uint32 ch_) ;;
      rest <- dictEncoder_Decode fuel r wg v raw' ;;
      Ret ({| Text := [ch_]; pc_Width := w |} :: rest)
  end.

End Encodings.
(** * Theorems *)

Example md5_empty :
  MD5.sum [] = [212; 29; 140; 217; 143; 0; 178; 4; 233; 128; 9; 152; 236; 248; 66; 126].
Proof. vm_compute. reflexivity. Qed.

Example md5_abc :
  MD5.sum (bytes_of_string "abc")
  = [144; 1; 80; 152; 60; 210; 79; 176; 214; 150; 63; 125; 40; 225; 127; 114].
Proof. vm_compute. reflexivity. Qed.

Example md5_two_blocks :
  MD5.sum (repeat 97 70)
  = [15; 92; 108; 78; 116; 11; 252; 192; 140; 60; 38; 204; 178; 103; 61; 70].
Proof. vm_compute. reflexivity. Qed.

(** RC4 test vector: key "Key", plaintext "Plaintext" *)
Example rc4_vector :
  RC4.xorKeyStream (bytes_of_string "Key") (bytes_of_string "Plaintext")
  = [187; 243; 22; 232; 217; 64; 175; 10; 211].
Proof. vm_compute. reflexivity. Qed.

(** ** Reasoning about outcomes *)

Lemma bind_Ret_inv {A B} (m : outcome A) (k : A -> outcome B) (b : B) :
  bind m k = Ret b -> exists a, m = Ret a /\ k a = Ret b.
Proof.
  destruct m as [a | msg |]; simpl; intros H; try discriminate.
  exists a; split; [reflexivity | exact H].
Qed.

Lemma bind_Ret {A B} (a : A) (k : A -> outcome B) : bind (Ret a) k = k a.
Proof. reflexivity. Qed.

(** splits every hypothesis [bind m k = Ret b] it finds *)
Ltac bind_inv :=
  repeat match goal with
         | H : bind _ _ = Ret _ |- _ =>
             let a := fresh "a" in
             let Ha := fresh "Ha" in
             apply bind_Ret_inv in H; destruct H as [a [Ha H]]
         | H : Ret _ = Ret _ |- _ => inversion H; subst; clear H
         end.

(** one step on a hypothesis [... = Ret _]: through a bind, a match or a
    test *)
Ltac step_ret :=
  match goal with
  | H : Ret _ = Ret _ |- _ => inversion H; subst; clear H
  | H : Panic _ = Ret _ |- _ => discriminate H
  | H : OutOfFuel = Ret _ |- _ => discriminate H
  | H : bind _ _ = Ret _ |- _ =>
      let a := fresh "a" in
      let Ha := fresh "Ha" in
      apply bind_Ret_inv in H; destruct H as [a [Ha H]]
  | H : (if ?x then _ else _) = Ret _ |- _ =>
      let E := fresh "E" in destruct x eqn:E
  | H : match ?x with _ => _ end = Ret _ |- _ =>
      let E := fresh "E" in destruct x eqn:E
  end.

Lemma len_nonneg {A} (l : list A) : 0 <= len l.
Proof. unfold len; lia. Qed.

Lemma len_app {A} (l1 l2 : list A) : len (l1 ++ l2) = len l1 + len l2.
Proof. unfold len; rewrite length_app; lia. Qed.

Lemma len_cons {A} (x : A) (l : list A) : len (x :: l) = 1 + len l.
Proof. unfold len; cbn [List.length]; lia. Qed.

Lemma uint32_le (x : Z) : 0 <= x -> uint32 x <= x.
Proof. intros H; unfold uint32; apply Z.mod_le; lia. Qed.

Lemma uint32_small (x : Z) : 0 <= x < 2 ^ 32 -> uint32 x = x.
Proof. intros H; unfold uint32; apply Z.mod_small; exact H. Qed.

Lemma int64_small (x : Z) : - 2 ^ 63 <= x < 2 ^ 63 -> int64 x = x.
Proof.
  intros H. unfold int64. rewrite Z.mod_small; lia.
Qed.

(** ** C3: the per-object key *)

Lemma md5_sum_length (msg : list byte) : len (MD5.sum msg) = 16.
Proof.
  unfold MD5.sum.
  destruct (MD5.blocks _ MD5.init (MD5.pad msg)) as [[[a b] c] d].
  reflexivity.
Qed.

(** C3 (what the code does): the per-object key is the whole MD5 digest of
    the file key, the three low bytes of the id, the two low bytes of the
    generation and, for AES, the four bytes "sAlT"; it has 16 bytes whatever
    the length of the file key, so it is not cut to [min(len(key)+5, 16)]. *)
Theorem cryptKey_is_whole_digest (key : list byte) (useAES : bool) (ptr : pdfobjptr) :
  cryptKey key useAES ptr
  = MD5.sum (key
             ++ [ (id ptr) mod 256; (id ptr / 2 ^ 8) mod 256;
                  (id ptr / 2 ^ 16) mod 256;
                  (gen ptr) mod 256; (gen ptr / 2 ^ 8) mod 256 ]
             ++ (if useAES then [115; 65; 108; 84] else []))
  /\ len (cryptKey key useAES ptr) = 16.
Proof.
  split.
  - unfold cryptKey, to_byte. rewrite !Z.shiftr_div_pow2 by lia.
    destruct useAES; reflexivity.
  - apply md5_sum_length.
Qed.

(** C3 at a 40-bit file key: 16 bytes come back where the claim has 10. *)
Example cryptKey_40bit_key :
  let key := [1; 2; 3; 4; 5] in
  let ptr := {| id := 1; gen := 0 |} in
  len (cryptKey key false ptr) = 16 /\ Z.min (len key + 5) 16 = 10.
Proof. vm_compute. split; reflexivity. Qed.


(** ** C2 and C9: resolving references, indexing arrays *)

Lemma pdfobjptr_eqb_eq (p q : pdfobjptr) : pdfobjptr_eqb p q = true <-> p = q.
Proof.
  destruct p as [i1 g1], q as [i2 g2]; unfold pdfobjptr_eqb; simpl.
  rewrite andb_true_iff, !Z.eqb_eq.
  split; [intros [-> ->]; reflexivity | intros H; inversion H; auto].
Qed.

Lemma pdfobjptr_eqb_neq (p q : pdfobjptr) : pdfobjptr_eqb p q = false <-> p <> q.
Proof.
  rewrite <- pdfobjptr_eqb_eq. destruct (pdfobjptr_eqb p q); split; congruence.
Qed.

(** The two shapes of a free slot: the zero value an xref table leaves for
    a free or unlisted id, and the entry a type-0 row of an xref stream
    writes. *)
Definition freeEntry : xref :=
  {| x_ptr := {| id := 0; gen := 65535 |}; x_inStream := false;
     x_stream := pdfobjptr_zero; x_offset := 0 |}.

Definition isFree (x : xref) : Prop := x = xref_zero \/ x = freeEntry.

(** C2: a reference whose id is at or beyond the length of the xref table
    fails with ErrObjectOutOfBounds; a reference whose slot is free, or holds
    another pointer than the reference, resolves to the null Value with no
    error.  (The table is shorter than 2^32 entries, ids being uint32.) *)
Theorem resolve_out_of_bounds_or_free
    (fuel : nat) (r : Reader) (parent ptr : pdfobjptr)
    (Hlen : len (r_xref r) < 2 ^ 32) (Hid : 0 <= id ptr) :
  (len (r_xref r) <= id ptr ->
   resolve (S fuel) r parent (Oobjptr ptr)
   = Ret (Value_zero, Some ErrObjectOutOfBounds))
  /\ (id ptr < len (r_xref r) ->
      isFree (nthZ xref_zero (r_xref r) (id ptr))
      \/ x_ptr (nthZ xref_zero (r_xref r) (id ptr)) <> ptr ->
      resolve (S fuel) r parent (Oobjptr ptr) = Ret (Value_zero, None)
      /\ IsNull Value_zero = true).
Proof.
  pose proof (len_nonneg (r_xref r)) as Hnn.
  rewrite <- (uint32_small (len (r_xref r))) by lia.
  split.
  - intros Hge. simpl.
    destruct (uint32 (len (r_xref r)) <=? id ptr) eqn:E; [reflexivity|].
    apply Z.leb_gt in E. lia.
  - intros Hlt Hslot. split; [|reflexivity]. simpl.
    destruct (uint32 (len (r_xref r)) <=? id ptr) eqn:E.
    { apply Z.leb_le in E. lia. }
    destruct Hslot as [[Hz | Hf] | Hne].
    + rewrite Hz. simpl. rewrite orb_true_r. reflexivity.
    + rewrite Hf. simpl. rewrite orb_true_r. reflexivity.
    + apply pdfobjptr_eqb_neq in Hne. rewrite Hne. reflexivity.
Qed.

(** *** The errors [resolve] can return *)

Lemma resolveWrap_error (p : pdfobjptr) (x : pdfobject) (v : Value) (e : error) :
  resolveWrap p x = (v, Some e) -> e = ErrUnexpectedValueType.
Proof. destruct x; simpl; intros H; inversion H; reflexivity. Qed.

Ltac break_hyp_match H :=
  match type of H with
  | context [match ?x with _ => _ end] =>
      let E := fresh "E" in destruct x eqn:E; try discriminate
  | context [if ?x then _ else _] =>
      let E := fresh "E" in destruct x eqn:E; try discriminate
  end.

Lemma objstmSearch_inr (r : Reader)
    (res : pdfobjptr -> pdfobject -> outcome (Value * option error))
    (fuel : nat) :
  forall (strm : Value) (ptr : pdfobjptr) (ret : Value * option error),
    objstmSearch r res fuel strm ptr = Ret (inr ret) ->
    ret = (Value_zero, Some ErrNotAStream).
Proof.
  induction fuel as [| fuel IH]; intros strm ptr ret H; simpl in H.
  - discriminate.
  - repeat step_ret; try reflexivity; try (eapply IH; eassumption).
Qed.

Lemma resolve_errors (fuel : nat) (r : Reader) :
  forall (parent : pdfobjptr) (x : pdfobject) (v : Value) (e : error),
    resolve fuel r parent x = Ret (v, Some e) ->
    e = ErrObjectOutOfBounds \/ e = ErrUnexpectedValueType \/ e = ErrNotAStream.
Proof.
  induction fuel as [| fuel IH]; intros parent x v e H.
  - discriminate.
  - destruct x; simpl in H; try (inversion H; auto; fail).
    repeat step_ret; auto.
    + eapply IH; eassumption.
    + match goal with
      | Hw : resolveWrap _ _ = _ |- _ => apply resolveWrap_error in Hw; auto
      end.
    + match goal with
      | Hs : objstmSearch _ _ _ _ _ = Ret (inr _) |- _ =>
          apply objstmSearch_inr in Hs; inversion Hs; auto
      end.
    + match goal with
      | Hw : resolveWrap _ _ = _ |- _ => apply resolveWrap_error in Hw; auto
      end.
Qed.

Lemma resolve_not_bounds_error (fuel : nat) (r : Reader)
    (parent : pdfobjptr) (x : pdfobject) :
  resolve fuel r parent x <> Ret (Value_zero, Some ErrNotAValidStream).
Proof.
  intros H. apply resolve_errors in H.
  destruct H as [H | [H | H]]; discriminate.
Qed.

(** C9 as stated: [len(a) == i] exactly when [index(a, i-1)] returns no error
    and [index(a, i)] returns the null Value. *)
Definition Len_iff_Index_claim : Prop :=
  forall (fuel : nat) (r : Reader) (a : Value) (i : Z),
    Kind a = ValueKind.Array -> 1 <= i ->
    (Len a = i <->
       (exists v, Index fuel r a (i - 1) = Ret (v, None))
       /\ (exists v e, Index fuel r a i = Ret (v, e) /\ IsNull v = true)).

(** C9 (amended): for an Array value [a] and [i >= 1], [len(a) == i] exactly
    when [index(a, i-1)] is not the out-of-bounds result and [index(a, i)]
    is: the null Value together with the error ErrNotAValidStream. *)
Theorem Len_iff_Index_bounds
    (fuel : nat) (r : Reader) (a : Value) (i : Z)
    (Ha : Kind a = ValueKind.Array) (Hi : 1 <= i) :
  Len a = i <->
    Index fuel r a (i - 1) <> Ret (Value_zero, Some ErrNotAValidStream)
    /\ Index fuel r a i = Ret (Value_zero, Some ErrNotAValidStream).
Proof.
  destruct a as [p d]. unfold Kind in Ha; simpl in Ha.
  destruct d; try discriminate. rename x into l.
  unfold Len, Index, Index_with; simpl.
  pose proof (len_nonneg l) as Hl.
  split.
  - intros <-. split.
    + destruct (len l - 1 <? 0) eqn:E1; [apply Z.ltb_lt in E1; lia|].
      destruct (len l <=? len l - 1) eqn:E2; [apply Z.leb_le in E2; lia|].
      simpl. apply resolve_not_bounds_error.
    + destruct (len l <? 0) eqn:E1; [reflexivity|].
      rewrite Z.leb_refl. reflexivity.
  - intros [H1 H2].
    destruct (i <? 0) eqn:E1; [apply Z.ltb_lt in E1; lia|].
    destruct (len l <=? i) eqn:E2; simpl in H2.
    2:{ exfalso. eapply resolve_not_bounds_error; exact H2. }
    apply Z.leb_le in E2.
    destruct (i - 1 <? 0) eqn:E3; [apply Z.ltb_lt in E3; lia|].
    destruct (len l <=? i - 1) eqn:E4; simpl in H1.
    { exfalso; apply H1; reflexivity. }
    apply Z.leb_gt in E4. lia.
Qed.

(** ** C4: inherited page attributes *)

(** C4 (what the code does): for a page that is not null, [findInherited]
    is the lookup of the key in the page dictionary itself; the parent is
    never consulted. *)
Theorem findInherited_page_only (fuel : nat) (r : Reader) (p : Page) (key : string) :
  Kind (p_V p) <> ValueKind.Null ->
  findInherited fuel r p key
  = '(res, err) <- Key fuel r (p_V p) key ;;
    match err with
    | Some e => Ret (Value_zero, Some e)
    | None => Ret (res, None)
    end.
Proof.
  intros Hk. unfold findInherited.
  destruct (Kind (p_V p)); try reflexivity. congruence.
Qed.

(** A key the page dictionary does not hold is answered with the null
    Value, whatever the ancestors hold. *)
Lemma findInherited_absent_key (fuel : nat) (r : Reader) (ptr : pdfobjptr)
    (d : pdfdict) (key : string) :
  map_get d key = Onil ->
  findInherited (S fuel) r {| p_V := {| v_ptr := ptr; v_data := Odict d |} |} key
  = Ret ({| v_ptr := ptr; v_data := Onil |}, None).
Proof.
  intros Hd. unfold findInherited, Key, Key_with. simpl. rewrite Hd. reflexivity.
Qed.

(** ** C5: the width grabber of a CID font *)

Lemma Kind_code_zero (v : Value) :
  ValueKind.code (Kind v) = 0 -> Kind v = ValueKind.Null.
Proof. destruct (Kind v); simpl; intros H; try discriminate; reflexivity. Qed.

Lemma IndexV_of_null (fuel : nat) (r : Reader) (v : Value) (i : Z) :
  Kind v = ValueKind.Null -> IndexV fuel r v i = Ret Value_zero.
Proof.
  unfold IndexV, Index, Index_with, Kind. destruct (v_data v); intros H;
    try discriminate; reflexivity.
Qed.

Lemma KeyV_of_null (fuel : nat) (r : Reader) (v : Value) (key : string) :
  Kind v = ValueKind.Null -> KeyV fuel r v key = Ret Value_zero.
Proof.
  unfold KeyV, Key, Key_with, Kind. destruct (v_data v); intros H;
    try discriminate; reflexivity.
Qed.

(** C5 (what the code does): [CreateCIDWidthGrabber] gives up as soon as
    DescendantFonts, or its W, is anything but null, so a W array is never
    parsed; when it does return a grabber, the grabber has no entry and the
    default width 0. *)
Theorem CreateCIDWidthGrabber_never_parses_W
    (fuel : nat) (r : Reader) (fV : Value) (o : option WidthGrabber) :
  CreateCIDWidthGrabber fuel r fV = Ret o ->
  (exists df, KeyV fuel r fV "DescendantFonts" = Ret df
              /\ (Kind df <> ValueKind.Null -> o = None)
              /\ (Kind df = ValueKind.Null ->
                  o = Some (CIDWidthGrabber [] [] float64_zero))).
Proof.
  unfold CreateCIDWidthGrabber. intros H.
  apply bind_Ret_inv in H. destruct H as [df [Hdf H]].
  exists df. split; [exact Hdf|].
  destruct (negb (ValueKind.code (Kind df) =? 0)) eqn:E.
  - inversion H; subst. split; [reflexivity|].
    intros Hn. rewrite Hn in E. discriminate.
  - apply negb_false_iff, Z.eqb_eq, Kind_code_zero in E.
    split; [congruence|]. intros _.
    rewrite Hdf in H. simpl in H.
    rewrite (IndexV_of_null _ _ _ _ E) in H. simpl in H.
    destruct fuel; simpl in H; inversion H; reflexivity.
Qed.

(** ** C10: one character per byte *)

Section Decode.

Variable nameToRune : string -> Z.

(** the rune [dictEncoder.Decode] finds for a byte, when every element of
    Differences can be read *)
Lemma dictEncoder_rune_total (fuel : nat) (r : Reader) (v : Value) (c : byte) :
  (forall j, 0 <= j < Len v -> exists x, IndexV fuel r v j = Ret x) ->
  forall (count : nat) (j n ch_ : Z),
    0 <= j -> j + Z.of_nat count <= Len v ->
    exists rn, dictEncoder_rune nameToRune fuel r v c count j n ch_ = Ret rn.
Proof.
  intros Hidx. induction count as [| count IH]; intros j n ch_ Hj Hle.
  - eexists; reflexivity.
  - simpl. destruct (Hidx j) as [x Hx]; [lia|]. rewrite Hx. simpl.
    destruct (Kind x); try (apply IH; lia).
    destruct ((c =? n) && negb (nameToRune (NameV x) =? 0)).
    + eexists; reflexivity.
    + apply IH; lia.
Qed.

(** C10 (amended): when the width grabber answers every code (its [Width]
    does not panic) and, for [dictEncoder], every element of Differences can
    be read, each of the three [Decode]s returns a list with one
    PositionedChar per byte of [raw], in the order of the bytes: the
    character of a byte holds the rune the encoder maps the byte to and the
    width of that code. *)
Theorem Decode_one_char_per_byte
    (fuel : nat) (r : Reader) (wg : WidthGrabber) (table : Z -> Z) (v : Value)
    (raw : list byte)
    (Hwg : forall code, exists w, Width wg code = Ret w)
    (Hidx : forall j, 0 <= j < Len v -> exists x, IndexV fuel r v j = Ret x) :
  (exists out,
      byteEncoder_Decode wg table raw = Ret out
      /\ Forall2 (fun c pc => Text pc = [table c]
                              /\ Width wg (uint32 c) = Ret (pc_Width pc))
           raw out)
  /\ (exists out,
         nopEncoder_Decode wg raw = Ret out
         /\ Forall2 (fun c pc => Text pc = [c]
                                 /\ Width wg (uint32 c) = Ret (pc_Width pc))
              raw out)
  /\ (exists out,
         dictEncoder_Decode nameToRune fuel r wg v raw = Ret out
         /\ Forall2 (fun c pc =>
                       exists rn,
                         dictEncoder_rune nameToRune fuel r v c
                           (Z.to_nat (Len v)) 0 (-1) c = Ret rn
                         /\ Text pc = [rn]
                         /\ Width wg (uint32 rn) = Ret (pc_Width pc))
              raw out).
Proof.
  repeat split.
  - induction raw as [| c raw IH].
    + exists []. split; [reflexivity | constructor].
    + destruct IH as [out [Hout Hall]].
      destruct (Hwg (uint32 c)) as [w Hw].
      exists ({| Text := [table c]; pc_Width := w |} :: out).
      simpl. rewrite Hw, Hout. simpl. split; [reflexivity|].
      constructor; [split; [reflexivity | exact Hw] | exact Hall].
  - induction raw as [| c raw IH].
    + exists []. split; [reflexivity | constructor].
    + destruct IH as [out [Hout Hall]].
      destruct (Hwg (uint32 c)) as [w Hw].
      exists ({| Text := [c]; pc_Width := w |} :: out).
      simpl. rewrite Hw, Hout. simpl. split; [reflexivity|].
      constructor; [split; [reflexivity | exact Hw] | exact Hall].
  - induction raw as [| c raw IH].
    + exists []. split; [reflexivity | constructor].
    + destruct IH as [out [Hout Hall]].
      destruct (dictEncoder_rune_total fuel r v c Hidx (Z.to_nat (Len v)) 0 (-1) c)
        as [rn Hrn]; [lia | unfold Len; destruct (v_data v); simpl; try lia;
                             rewrite Z2Nat.id; [lia | apply len_nonneg] |].
      destruct (Hwg (uint32 rn)) as [w Hw].
      exists ({| Text := [rn]; pc_Width := w |} :: out).
      simpl. rewrite Hrn. simpl. rewrite Hw, Hout. simpl.
      split; [reflexivity|].
      constructor; [| exact Hall].
      exists rn. repeat split; [exact Hrn | exact Hw].
Qed.

(** The lengths agree, as a consequence. *)
Corollary Decode_length
    (wg : WidthGrabber) (table : Z -> Z) (raw : list byte) (out : list PositionedChar) :
  byteEncoder_Decode wg table raw = Ret out -> List.length out = List.length raw.
Proof.
  revert out. induction raw as [| c raw IH]; intros out H; simpl in H.
  - inversion H; reflexivity.
  - repeat step_ret. simpl. f_equal. apply IH. assumption.
Qed.

(** A [DefaultWidthGrabber] answers every code when Widths is as long as
    the range of codes. *)
Lemma DefaultWidthGrabber_total (first last : Z) (widths : list float64) :
  0 <= first -> last < 2 ^ 32 -> last - first <= len widths ->
  forall code, exists w, Width (DefaultWidthGrabber first last widths) code = Ret w.
Proof.
  intros Hf Hl Hw code. simpl.
  destruct ((code <? first) || (last <=? code)) eqn:E; [eexists; reflexivity|].
  apply orb_false_iff in E. destruct E as [E1 E2].
  apply Z.ltb_ge in E1. apply Z.leb_gt in E2.
  unfold indexWidths. rewrite uint32_small by lia.
  destruct (code - first <? 0) eqn:E3; [apply Z.ltb_lt in E3; lia|].
  destruct (len widths <=? code - first) eqn:E4; [apply Z.leb_le in E4; lia|].
  eexists; reflexivity.
Qed.

End Decode.

(** ** C8: hex strings *)

(** The bytes a buffer has still to deliver: the rest of [buf], then what
    the reader holds. *)
Definition pending (b : pdfbuffer) : list byte :=
  skipn (Z.to_nat (b_pos b)) (b_buf b) ++ fst (b_r b).

(** Well-formed buffers: the read index is inside [buf] and the offset is
    not negative. *)
Definition wf_buffer (b : pdfbuffer) : Prop :=
  0 <= b_pos b <= len (b_buf b) /\ 0 <= b_offset b.

Lemma skipn_all_len {A} (l : list A) : skipn (List.length l) l = [].
Proof. apply skipn_all. Qed.

Lemma skipn_nth_cons {A} (d : A) (l : list A) (n : nat) :
  (n < List.length l)%nat -> skipn n l = nth n l d :: skipn (S n) l.
Proof.
  revert n. induction l as [| x l IH]; intros n H; simpl in H; [lia|].
  destruct n as [| n]; [reflexivity|]. simpl. apply IH. lia.
Qed.

Lemma readByte_pending (b : pdfbuffer) (c : byte) (rest : list byte) :
  wf_buffer b -> pending b = c :: rest ->
  exists b', readByte b = Ret (c, b')
             /\ wf_buffer b' /\ pending b' = rest
             /\ 0 < b_pos b'
             /\ skipn (Z.to_nat (b_pos b' - 1)) (b_buf b') ++ fst (b_r b') = c :: rest
             /\ b_unread b' = b_unread b.
Proof.
  intros [[Hp1 Hp2] Hoff] Hpend. unfold readByte, pending in *.
  destruct (len (b_buf b) <=? b_pos b) eqn:E.
  - apply Z.leb_le in E. assert (Hpos : b_pos b = len (b_buf b)) by lia.
    rewrite Hpos in Hpend. unfold len in Hpend. rewrite Nat2Z.id in Hpend.
    rewrite skipn_all_len in Hpend. simpl in Hpend.
    unfold reload.
    assert (Hrem : 0 <= Z.rem (b_offset b) bufcap < bufcap).
    { apply Z.rem_bound_pos; unfold bufcap; lia. }
    destruct (bufcap <? bufcap - Z.rem (b_offset b) bufcap) eqn:E1.
    { apply Z.ltb_lt in E1. lia. }
    destruct (b_r b) as [data e] eqn:Er. simpl in Hpend. subst data.
    remember (Z.to_nat (bufcap - Z.rem (b_offset b) bufcap)) as n eqn:Hn.
    destruct n as [| n]; [lia|].
    cbn [firstn skipn]. cbn [bind].
    eexists. split.
    + cbn [set_input b_buf b_pos len List.length].
      replace (Z.of_nat (S (List.length (firstn n rest))) <=? 0) with false
        by (symmetry; apply Z.leb_gt; lia).
      reflexivity.
    + unfold wf_buffer, set_pos, set_input, len; cbn.
      change (PosDef.Pos.to_nat 1) with 1%nat. cbn [skipn app].
      rewrite firstn_skipn.
      repeat split; try lia; reflexivity.
  - apply Z.leb_gt in E. cbn [bind].
    rewrite (proj2 (Z.leb_gt _ _) E).
    assert (Hlt : (Z.to_nat (b_pos b) < List.length (b_buf b))%nat).
    { unfold len in E. lia. }
    rewrite (skipn_nth_cons 0 _ _ Hlt) in Hpend.
    cbn [app] in Hpend. inversion Hpend as [[Hc Hr]].
    eexists. split; [unfold nthZ; reflexivity|].
    unfold wf_buffer, set_pos, set_input; cbn.
    replace (Z.to_nat (b_pos b + 1)) with (S (Z.to_nat (b_pos b))) by lia.
    replace (b_pos b + 1 - 1) with (b_pos b) by lia.
    rewrite (skipn_nth_cons 0 _ _ Hlt).
    repeat split; try lia; reflexivity.
Qed.

(** reading a byte and putting it back leaves the pending input as it was *)
Lemma unreadByte_pending (b : pdfbuffer) (c : byte) (rest : list byte) :
  wf_buffer b -> 0 < b_pos b ->
  skipn (Z.to_nat (b_pos b - 1)) (b_buf b) ++ fst (b_r b) = c :: rest ->
  wf_buffer (unreadByte b) /\ pending (unreadByte b) = c :: rest
  /\ b_unread (unreadByte b) = b_unread b.
Proof.
  intros [[Hp1 Hp2] Hoff] Hpos H. unfold unreadByte.
  rewrite (proj2 (Z.ltb_lt _ _) Hpos).
  unfold wf_buffer, pending, set_pos, set_input; cbn.
  repeat split; try lia; assumption.
Qed.

Definition isHex (d : byte) : bool := 0 <=? unhex d.

Lemma unhex_range (d : byte) : isHex d = true -> 0 <= unhex d < 16.
Proof.
  unfold isHex, unhex, ch; simpl. intros H. apply Z.leb_le in H. revert H.
  destruct ((48 <=? d) && (d <=? 57)) eqn:E1.
  { apply andb_true_iff in E1. destruct E1 as [A B].
    apply Z.leb_le in A. apply Z.leb_le in B. lia. }
  destruct ((97 <=? d) && (d <=? 102)) eqn:E2.
  { apply andb_true_iff in E2. destruct E2 as [A B].
    apply Z.leb_le in A. apply Z.leb_le in B. lia. }
  destruct ((65 <=? d) && (d <=? 70)) eqn:E3.
  { apply andb_true_iff in E3. destruct E3 as [A B].
    apply Z.leb_le in A. apply Z.leb_le in B. lia. }
  lia.
Qed.

Lemma isSpace_not_hex (c : byte) : isSpace c = true -> unhex c = -1.
Proof.
  unfold isSpace. rewrite !orb_true_iff, !Z.eqb_eq.
  intros H. decompose [or] H; subst; reflexivity.
Qed.

Lemma isHex_not_space (d : byte) : isHex d = true -> isSpace d = false.
Proof.
  intros H. destruct (isSpace d) eqn:E; [|reflexivity].
  apply isSpace_not_hex in E. unfold isHex in H. rewrite E in H. discriminate.
Qed.

Lemma isHex_not_gt (d : byte) : isHex d = true -> (d =? ch ">") = false.
Proof.
  intros H. destruct (d =? ch ">") eqn:E; [|reflexivity].
  apply Z.eqb_eq in E. subst. discriminate.
Qed.

Lemma isSpace_not_gt (c : byte) : isSpace c = true -> (c =? ch ">") = false.
Proof.
  intros H. destruct (c =? ch ">") eqn:E; [|reflexivity].
  apply Z.eqb_eq in E. subst. discriminate.
Qed.

Lemma hexpair_value (d1 d2 : byte) :
  isHex d1 = true -> isHex d2 = true ->
  hexpair d1 d2 = 16 * unhex d1 + unhex d2.
Proof.
  intros H1 H2. apply unhex_range in H1. apply unhex_range in H2.
  unfold hexpair. generalize dependent (unhex d2). generalize dependent (unhex d1).
  intros a Ha b Hb.
  assert (Ea : a = 0 \/ a = 1 \/ a = 2 \/ a = 3 \/ a = 4 \/ a = 5 \/ a = 6
               \/ a = 7 \/ a = 8 \/ a = 9 \/ a = 10 \/ a = 11 \/ a = 12
               \/ a = 13 \/ a = 14 \/ a = 15) by lia.
  assert (Eb : b = 0 \/ b = 1 \/ b = 2 \/ b = 3 \/ b = 4 \/ b = 5 \/ b = 6
               \/ b = 7 \/ b = 8 \/ b = 9 \/ b = 10 \/ b = 11 \/ b = 12
               \/ b = 13 \/ b = 14 \/ b = 15) by lia.
  decompose [or] Ea; decompose [or] Eb; subst; reflexivity.
Qed.

Lemma hexpair_gt (d1 : byte) : hexpair d1 (ch ">") = -1.
Proof. unfold hexpair. change (unhex (ch ">")) with (-1). apply Z.lor_m1_r. Qed.

(** *** The input of a hex string

    A pair of hex digits, each with the white space in front of it. *)
Record hexPair : Type := {
  hp_w1 : list byte; hp_d1 : byte; hp_w2 : list byte; hp_d2 : byte
}.

Definition hexPair_ok (p : hexPair) : bool :=
  forallb isSpace (hp_w1 p) && isHex (hp_d1 p)
  && forallb isSpace (hp_w2 p) && isHex (hp_d2 p).

Definition renderPair (p : hexPair) : list byte :=
  hp_w1 p ++ hp_d1 p :: hp_w2 p ++ [hp_d2 p].

Definition renderPairs (ps : list hexPair) : list byte :=
  List.concat (map renderPair ps).

Definition pairValue (p : hexPair) : byte :=
  16 * unhex (hp_d1 p) + unhex (hp_d2 p).

Definition malformedHex : string := "malformed hex string %c %c %s".

Lemma readHexString_c2_spaces (w : list byte) (d : byte) (tail : list byte) :
  forallb isSpace w = true -> isSpace d = false ->
  forall (b : pdfbuffer) (fuel : nat),
    wf_buffer b -> pending b = w ++ d :: tail -> (List.length w < fuel)%nat ->
    exists b', readHexString_c2 fuel b = Ret (d, b')
               /\ wf_buffer b' /\ pending b' = tail.
Proof.
  intros Hw Hd. induction w as [| c w IH]; intros b fuel Hwf Hp Hf.
  - destruct fuel as [| fuel]; [simpl in Hf; lia|].
    destruct (readByte_pending b d tail Hwf Hp) as [b' [Hr [Hwf' [Hp' _]]]].
    simpl. rewrite Hr. simpl. rewrite Hd. exists b'. auto.
  - simpl in Hw. apply andb_true_iff in Hw. destruct Hw as [Hc Hw].
    destruct fuel as [| fuel]; [simpl in Hf; lia|].
    destruct (readByte_pending b c (w ++ d :: tail) Hwf Hp)
      as [b' [Hr [Hwf' [Hp' _]]]].
    simpl. rewrite Hr. simpl. rewrite Hc.
    apply IH; auto. simpl in Hf. lia.
Qed.

Section HexLoop.

Variable P : outcome (token * pdfbuffer) -> Prop.

Lemma readHexString_loop_spaces (w tail : list byte) (N : nat) (tmp : list byte) :
  forallb isSpace w = true ->
  (forall b' fuel', wf_buffer b' -> pending b' = tail -> (N < fuel')%nat ->
                    P (readHexString_loop fuel' tmp b')) ->
  forall (b : pdfbuffer) (fuel : nat),
    wf_buffer b -> pending b = w ++ tail -> (List.length w + N < fuel)%nat ->
    P (readHexString_loop fuel tmp b).
Proof.
  intros Hw K. induction w as [| c w IH]; intros b fuel Hwf Hp Hf.
  - apply K; auto.
  - simpl in Hw. apply andb_true_iff in Hw. destruct Hw as [Hc Hw].
    destruct fuel as [| fuel]; [simpl in Hf; lia|].
    destruct (readByte_pending b c (w ++ tail) Hwf Hp)
      as [b' [Hr [Hwf' [Hp' _]]]].
    simpl. rewrite Hr. simpl.
    rewrite (isSpace_not_gt c Hc), Hc.
    apply IH; auto. simpl in Hf. lia.
Qed.

Lemma readHexString_loop_pairs (ps : list hexPair) (tail : list byte) (N : nat) :
  forallb hexPair_ok ps = true ->
  forall (tmp : list byte),
    (forall b' fuel', wf_buffer b' -> pending b' = tail -> (N < fuel')%nat ->
                      P (readHexString_loop fuel' (tmp ++ map pairValue ps) b')) ->
    forall (b : pdfbuffer) (fuel : nat),
      wf_buffer b -> pending b = renderPairs ps ++ tail ->
      (List.length (renderPairs ps) + N < fuel)%nat ->
      P (readHexString_loop fuel tmp b).
Proof.
  induction ps as [| p ps IH]; intros Hok tmp K b fuel Hwf Hp Hf.
  - simpl in *. rewrite app_nil_r in K. apply K; auto.
  - simpl in Hok. apply andb_true_iff in Hok. destruct Hok as [Hp_ok Hok].
    unfold hexPair_ok in Hp_ok. rewrite !andb_true_iff in Hp_ok.
    destruct Hp_ok as [[[Hw1 Hd1] Hw2] Hd2].
    unfold renderPairs in Hp, Hf. simpl in Hp, Hf.
    fold (renderPairs ps) in Hp, Hf.
    unfold renderPair in Hp, Hf.
    rewrite !length_app in Hf. simpl in Hf. rewrite length_app in Hf. simpl in Hf.
    rewrite <- !app_assoc in Hp. simpl in Hp. rewrite <- !app_assoc in Hp.
    simpl in Hp.
    eapply (readHexString_loop_spaces (hp_w1 p) _
              (S (List.length (hp_w2 p)) + 1 + List.length (renderPairs ps) + N) tmp Hw1);
      [| exact Hwf | exact Hp | lia].
    intros b1 fuel1 Hwf1 Hp1 Hf1.
    destruct fuel1 as [| fuel1]; [lia|].
    destruct (readByte_pending b1 _ _ Hwf1 Hp1) as [b2 [Hr2 [Hwf2 [Hp2 _]]]].
    simpl. rewrite Hr2. simpl.
    rewrite (isHex_not_gt _ Hd1), (isHex_not_space _ Hd1).
    destruct (readHexString_c2_spaces (hp_w2 p) (hp_d2 p) _ Hw2
                (isHex_not_space _ Hd2) b2 fuel1 Hwf2 Hp2)
      as [b3 [Hr3 [Hwf3 Hp3]]]; [lia|].
    rewrite Hr3. simpl.
    rewrite (hexpair_value _ _ Hd1 Hd2).
    pose proof (unhex_range _ Hd1) as R1. pose proof (unhex_range _ Hd2) as R2.
    destruct (16 * unhex (hp_d1 p) + unhex (hp_d2 p) <? 0) eqn:E;
      [apply Z.ltb_lt in E; lia|].
    unfold to_byte. rewrite Z.mod_small by lia.
    apply (IH Hok (tmp ++ [16 * unhex (hp_d1 p) + unhex (hp_d2 p)])); auto;
      [| lia].
    intros b' fuel' Hwf' Hp' Hf'.
    rewrite <- app_assoc. simpl. apply K; auto.
Qed.

End HexLoop.

(** C8 (amended): [readHexString] pairs the hex digits into bytes, white
    space between the digits being skipped, up to the closing ">"; when a
    digit is left without a partner, the ">" is read as the partner, is not
    a hex digit, and the lexer fails with the malformed-hex-string error
    (nothing is padded). *)
Theorem readHexString_pairs_digits
    (ps : list hexPair) (ws rest : list byte) (b : pdfbuffer) (fuel : nat)
    (Hwf : wf_buffer b)
    (Hps : forallb hexPair_ok ps = true)
    (Hws : forallb isSpace ws = true) :
  (pending b = renderPairs ps ++ ws ++ ch ">" :: rest ->
   (List.length (renderPairs ps ++ ws) < fuel)%nat ->
   exists b', readHexString fuel b = Ret (Ostring (map pairValue ps), b')
              /\ wf_buffer b' /\ pending b' = rest)
  /\ (forall (d : byte) (ws2 : list byte),
        isHex d = true -> forallb isSpace ws2 = true ->
        pending b = renderPairs ps ++ ws ++ d :: ws2 ++ ch ">" :: rest ->
        (List.length (renderPairs ps ++ ws ++ d :: ws2) < fuel)%nat ->
        readHexString fuel b = Panic malformedHex).
Proof.
  unfold readHexString. split.
  - intros Hp Hf. rewrite length_app in Hf.
    set (P := fun o : outcome (token * pdfbuffer) =>
                exists b', o = Ret (Ostring (map pairValue ps), b')
                           /\ wf_buffer b' /\ pending b' = rest).
    change (P (readHexString_loop fuel [] b)).
    eapply (readHexString_loop_pairs P ps _ (List.length ws) Hps []);
      [| exact Hwf | exact Hp | lia].
    intros b1 fuel1 Hwf1 Hp1 Hf1. simpl.
    eapply (readHexString_loop_spaces P ws _ 0%nat _ Hws);
      [| exact Hwf1 | exact Hp1 | lia].
    intros b2 fuel2 Hwf2 Hp2 Hf2.
    destruct fuel2 as [| fuel2]; [lia|].
    destruct (readByte_pending b2 _ _ Hwf2 Hp2) as [b3 [Hr3 [Hwf3 [Hp3 _]]]].
    unfold P. simpl. rewrite Hr3. simpl. exists b3. auto.
  - intros d ws2 Hd Hws2 Hp Hf. rewrite !length_app in Hf. simpl in Hf.
    set (P := fun o : outcome (token * pdfbuffer) => o = Panic malformedHex).
    change (P (readHexString_loop fuel [] b)).
    eapply (readHexString_loop_pairs P ps _ (List.length ws + S (List.length ws2)) Hps []);
      [| exact Hwf | exact Hp | lia].
    intros b1 fuel1 Hwf1 Hp1 Hf1. simpl.
    eapply (readHexString_loop_spaces P ws _ (S (List.length ws2)) _ Hws);
      [| exact Hwf1 | exact Hp1 | lia].
    intros b2 fuel2 Hwf2 Hp2 Hf2.
    destruct fuel2 as [| fuel2]; [lia|].
    destruct (readByte_pending b2 _ _ Hwf2 Hp2) as [b3 [Hr3 [Hwf3 [Hp3 _]]]].
    unfold P. simpl. rewrite Hr3. simpl.
    rewrite (isHex_not_gt _ Hd), (isHex_not_space _ Hd).
    destruct (readHexString_c2_spaces ws2 (ch ">") rest Hws2 eq_refl
                b3 fuel2 Hwf3 Hp3) as [b4 [Hr4 _]]; [lia|].
    rewrite Hr4. simpl. rewrite hexpair_gt. reflexivity.
Qed.

(** [readToken] hands a "<" that is not followed by a second "<" to
    [readHexString], the byte after it put back. *)
Lemma readToken_lt (b : pdfbuffer) (c : byte) (tail : list byte) (fuel : nat) :
  wf_buffer b -> b_unread b = [] -> (0 < fuel)%nat ->
  pending b = ch "<" :: c :: tail -> (c =? ch "<") = false ->
  exists b', readToken fuel b = readHexString fuel b'
             /\ wf_buffer b' /\ pending b' = c :: tail.
Proof.
  intros Hwf Hu Hf Hp Hc. unfold readToken. rewrite Hu. simpl.
  destruct (readByte_pending b _ _ Hwf Hp) as [b1 [Hr1 [Hwf1 [Hp1 _]]]].
  rewrite Hr1. simpl.
  destruct fuel as [| fuel]; [lia|]. simpl.
  destruct (readByte_pending b1 _ _ Hwf1 Hp1)
    as [b2 [Hr2 [Hwf2 [Hp2 [Hpos2 [Hback2 _]]]]]].
  rewrite Hr2. simpl. rewrite Hc.
  destruct (unreadByte_pending b2 c tail Hwf2 Hpos2 Hback2) as [Hwf3 [Hp3 _]].
  exists (unreadByte b2). auto.
Qed.

Lemma hex_content_start (ps : list hexPair) (ws : list byte) (x : byte)
    (rest : list byte) :
  forallb hexPair_ok ps = true -> forallb isSpace ws = true ->
  (x =? ch "<") = false ->
  exists c tail, renderPairs ps ++ ws ++ x :: rest = c :: tail
                 /\ (c =? ch "<") = false.
Proof.
  intros Hps Hws Hx.
  assert (Hsp : forall c, isSpace c = true -> (c =? ch "<") = false).
  { intros c Hc. destruct (c =? ch "<") eqn:E; [|reflexivity].
    apply Z.eqb_eq in E. subst. discriminate. }
  assert (Hhx : forall c, isHex c = true -> (c =? ch "<") = false).
  { intros c Hc. destruct (c =? ch "<") eqn:E; [|reflexivity].
    apply Z.eqb_eq in E. subst. discriminate. }
  destruct ps as [| p ps].
  - destruct ws as [| c ws]; simpl.
    + eauto.
    + simpl in Hws. apply andb_true_iff in Hws. destruct Hws as [Hc _]. eauto.
  - simpl in Hps. apply andb_true_iff in Hps. destruct Hps as [Hp _].
    unfold hexPair_ok in Hp. rewrite !andb_true_iff in Hp.
    destruct Hp as [[[Hw1 Hd1] _] _].
    unfold renderPairs. simpl. unfold renderPair.
    destruct (hp_w1 p) as [| c w1]; simpl.
    + eauto.
    + simpl in Hw1. apply andb_true_iff in Hw1. destruct Hw1 as [Hc _]. eauto.
Qed.

(** C8 (amended), on the lexer: the token read from "<", pairs of hex
    digits with white space anywhere between the digits, and ">" is the
    string of the bytes the pairs denote; with one more digit before the
    ">", reading the token fails with the malformed-hex-string error. *)
Theorem readToken_hex_string
    (ps : list hexPair) (ws rest : list byte) (b : pdfbuffer) (fuel : nat)
    (Hwf : wf_buffer b) (Hunread : b_unread b = [])
    (Hps : forallb hexPair_ok ps = true)
    (Hws : forallb isSpace ws = true) :
  (pending b = ch "<" :: renderPairs ps ++ ws ++ ch ">" :: rest ->
   (List.length (renderPairs ps ++ ws) < fuel)%nat ->
   exists b', readToken fuel b = Ret (Ostring (map pairValue ps), b')
              /\ pending b' = rest)
  /\ (forall (d : byte) (ws2 : list byte),
        isHex d = true -> forallb isSpace ws2 = true ->
        pending b = ch "<" :: renderPairs ps ++ ws ++ d :: ws2 ++ ch ">" :: rest ->
        (List.length (renderPairs ps ++ ws ++ d :: ws2) < fuel)%nat ->
        readToken fuel b = Panic malformedHex).
Proof.
  split.
  - intros Hp Hf.
    destruct (hex_content_start ps ws (ch ">") rest Hps Hws eq_refl)
      as [c [tail [Hc Hne]]].
    rewrite Hc in Hp.
    destruct (readToken_lt b c tail fuel Hwf Hunread ltac:(lia) Hp Hne)
      as [b1 [Hr [Hwf1 Hp1]]].
    rewrite Hr. rewrite <- Hc in Hp1.
    destruct (readHexString_pairs_digits ps ws rest b1 fuel Hwf1 Hps Hws)
      as [Heven _].
    destruct (Heven Hp1 Hf) as [b' [H1 [_ H2]]]. eauto.
  - intros d ws2 Hd Hws2 Hp Hf.
    assert (Hdlt : (d =? ch "<") = false).
    { destruct (d =? ch "<") eqn:E; [|reflexivity].
      apply Z.eqb_eq in E. subst. discriminate. }
    destruct (hex_content_start ps ws d (ws2 ++ ch ">" :: rest) Hps Hws Hdlt)
      as [c [tail [Hc Hne]]].
    rewrite Hc in Hp.
    destruct (readToken_lt b c tail fuel Hwf Hunread ltac:(lia) Hp Hne)
      as [b1 [Hr [Hwf1 Hp1]]].
    rewrite Hr. rewrite <- Hc in Hp1.
    destruct (readHexString_pairs_digits ps ws rest b1 fuel Hwf1 Hps Hws)
      as [_ Hodd].
    apply (Hodd d ws2 Hd Hws2 Hp1 Hf).
Qed.

(** ** C7: the PNG "Up" predictor *)

(** The input: every row is the filter byte 2 and a payload. *)
Definition pngInput (rows : list (list byte)) : list byte :=
  List.concat (map (fun p => 2 :: p) rows).

(** The sum of column [k] over the payloads [ps]. *)
Definition columnSum (ps : list (list byte)) (k : nat) : Z :=
  fold_right Z.add 0 (map (fun p => nth k p 0) ps).

(** Output row [i]: byte [k] is the sum modulo 256 of byte [k] of the
    payloads 0 to [i]. *)
Definition outputRow (columns : nat) (rows : list (list byte)) (i : nat)
    : list byte :=
  map (fun k => columnSum (firstn (S i) rows) k mod 256) (seq 0 columns).

Definition pngOutput (columns : nat) (rows : list (list byte)) : list byte :=
  List.concat (map (outputRow columns rows) (seq 0 (List.length rows))).

(** the rows as the reader makes them, from a history [H] *)
Fixpoint cumsum (H : list byte) (rows : list (list byte)) : list (list byte) :=
  match rows with
  | [] => []
  | p :: rows' => addRow H p :: cumsum (addRow H p) rows'
  end.

(** Consecutive calls [Read(b)] on one reader, for buffers of the lengths
    [ns]: what each call returns, in the order of the calls, and the reader
    after the last. *)
Fixpoint pngUpReads (r : pngUpReader) (ns : list Z)
    : outcome (list (list byte * option error) * pngUpReader) :=
  match ns with
  | [] => Ret ([], r)
  | n :: ns' =>
      '(out, err, r) <- pngUpRead r n ;;
      '(res, r) <- pngUpReads r ns' ;;
      Ret ((out, err) :: res, r)
  end.

(** [l] cut into pieces of the lengths [ns] *)
Fixpoint chunks (ns : list Z) (l : list byte) : list (list byte) :=
  match ns with
  | [] => []
  | n :: ns' =>
      firstn (Z.to_nat n) l :: chunks ns' (skipn (Z.to_nat n) l)
  end.

Definition total (ns : list Z) : Z := fold_right Z.add 0 ns.

Definition malformedPngUp : error := Errorf "malformed PNG-Up encoding".

Lemma addRow_length (H p : list byte) :
  List.length (addRow H p) = List.length H.
Proof.
  revert p. induction H as [| h H IH]; intros p; [reflexivity|].
  destruct p as [| t p]; [reflexivity|]. simpl. f_equal. apply IH.
Qed.

Lemma nth_addRow (H p : list byte) (k : nat) :
  List.length H = List.length p -> (k < List.length H)%nat ->
  nth k (addRow H p) 0 = (nth k H 0 + nth k p 0) mod 256.
Proof.
  revert p k. induction H as [| h H IH]; intros p k Hl Hk; simpl in Hk; [lia|].
  destruct p as [| t p]; [discriminate|]. simpl in Hl.
  destruct k as [| k]; [reflexivity|]. simpl. apply IH; lia.
Qed.

Lemma columnSum_snoc (ps : list (list byte)) (p : list byte) (k : nat) :
  columnSum (ps ++ [p]) k = columnSum ps k + nth k p 0.
Proof.
  unfold columnSum. induction ps as [| q ps IH]; simpl; [lia|].
  rewrite IH. lia.
Qed.

Lemma nth_map_seq (f : nat -> Z) (n k : nat) (d : Z) :
  (k < n)%nat -> nth k (map f (seq 0 n)) d = f k.
Proof.
  intros Hk.
  rewrite (nth_indep _ d (f 0%nat)) by (rewrite length_map, length_seq; lia).
  rewrite map_nth, seq_nth by lia. reflexivity.
Qed.

Lemma addRow_columnSum (columns : nat) (done : list (list byte)) (p : list byte) :
  List.length p = columns ->
  addRow (map (fun k => columnSum done k mod 256) (seq 0 columns)) p
  = map (fun k => columnSum (done ++ [p]) k mod 256) (seq 0 columns).
Proof.
  intros Hp. apply (nth_ext _ _ 0 0).
  - rewrite addRow_length, !length_map. reflexivity.
  - intros k Hk. rewrite addRow_length, length_map, length_seq in Hk.
    rewrite nth_addRow by (rewrite length_map, length_seq; lia).
    rewrite !nth_map_seq by lia.
    rewrite columnSum_snoc. apply Zplus_mod_idemp_l.
Qed.

Lemma cumsum_columnSum (columns : nat) (rows : list (list byte)) :
  Forall (fun p => List.length p = columns) rows ->
  forall done : list (list byte),
    cumsum (map (fun k => columnSum done k mod 256) (seq 0 columns)) rows
    = map (fun i =>
             map (fun k => columnSum (done ++ firstn (S i) rows) k mod 256)
               (seq 0 columns))
        (seq 0 (List.length rows)).
Proof.
  induction 1 as [| p rows Hp Hrows IH]; intros done; [reflexivity|].
  cbn [cumsum List.length seq map]. rewrite (addRow_columnSum _ _ _ Hp).
  f_equal.
  rewrite IH. rewrite <- seq_shift, map_map.
  apply map_ext. intros i. apply map_ext. intros k.
  cbn [firstn]. rewrite <- app_assoc. reflexivity.
Qed.

Lemma columnSum_nil (k : nat) : columnSum [] k mod 256 = 0.
Proof. reflexivity. Qed.

Lemma cumsum_zero (columns : nat) (rows : list (list byte)) :
  Forall (fun p => List.length p = columns) rows ->
  List.concat (cumsum (repeat 0 columns) rows) = pngOutput columns rows.
Proof.
  intros H. unfold pngOutput, outputRow.
  pose proof (cumsum_columnSum columns rows H []) as E. cbn [app] in E.
  rewrite <- E. f_equal. f_equal.
  clear. generalize 0%nat. induction columns as [| c IH]; intros s; [reflexivity|].
  simpl. f_equal. apply IH.
Qed.

Lemma cumsum_length (columns : nat) (rows : list (list byte)) :
  Forall (fun p => List.length p = columns) rows ->
  forall H, List.length H = columns ->
    List.length (List.concat (cumsum H rows)) = (columns * List.length rows)%nat.
Proof.
  induction 1 as [| p rows Hp Hrows IH]; intros H HH; simpl; [lia|].
  rewrite length_app, addRow_length, IH by (rewrite addRow_length; exact HH).
  lia.
Qed.

(** The state of a reader between two rows or inside one: the bytes of the
    current row still to be handed out, the history without its first
    byte, and the input left. *)
Definition pngState (columns : nat) (r : pngUpReader)
    (pd H src : list byte) (e : rdend) : Prop :=
  png_pend r = pd
  /\ (exists h0, png_hist r = h0 :: H)
  /\ List.length H = columns
  /\ List.length (png_tmp r) = S columns
  /\ png_r r = (src, e).

Lemma firstn_app_le {A} (n : nat) (l1 l2 : list A) :
  (n <= List.length l1)%nat -> firstn n (l1 ++ l2) = firstn n l1.
Proof.
  intros H. rewrite firstn_app.
  replace (n - List.length l1)%nat with 0%nat by lia.
  simpl. apply app_nil_r.
Qed.

Lemma firstn_app_ge {A} (n : nat) (l1 l2 : list A) :
  (List.length l1 <= n)%nat ->
  firstn n (l1 ++ l2) = l1 ++ firstn (n - List.length l1) l2.
Proof.
  intros H. rewrite firstn_app. rewrite firstn_all2 by lia. reflexivity.
Qed.

Lemma pngUpRead_loop_done (fuel : nat) (r : pngUpReader) (n : Z) (out : list byte) :
  n <= 0 -> pngUpRead_loop fuel r n out = Ret (out, None, r).
Proof.
  intros Hn. apply Z.leb_le in Hn.
  destruct fuel; simpl; rewrite Hn; reflexivity.
Qed.

(** one turn of the loop on a reader that has a whole well-formed row in
    front of it and nothing pending *)
Lemma pngUpRead_loop_row (columns : nat) (fuel : nat) (r : pngUpReader) (n : Z)
    (out H p src : list byte) (e : rdend) :
  pngState columns r [] H ((2 :: p) ++ src) e ->
  List.length p = columns -> 0 < n ->
  exists r1,
    pngUpRead_loop (S fuel) r n out = pngUpRead_loop fuel r1 n out
    /\ pngState columns r1 (addRow H p) (addRow H p) src e.
Proof.
  intros [Hpd [[h0 Hh] [HH [Ht Hr]]]] Hp Hn.
  destruct r as [rd hist tmp pend]. simpl in *. subst pend hist rd.
  assert (En : (n <=? 0) = false) by (apply Z.leb_gt; lia).
  rewrite En. unfold ReadFull.
  assert (E1 : (len tmp <=? 0) = false).
  { apply Z.leb_gt. unfold len. lia. }
  rewrite E1.
  assert (E2 : (len tmp <=? len (2 :: p ++ src)) = true).
  { apply Z.leb_le. unfold len. simpl. rewrite length_app. lia. }
  rewrite E2. cbn [bind].
  assert (Et : Z.to_nat (len tmp) = S columns) by (unfold len; lia).
  rewrite Et. cbn [firstn skipn].
  rewrite firstn_app_le by lia. rewrite firstn_all2 by lia.
  change (List.length (2 :: p)) with (S (List.length p)). rewrite Hp.
  rewrite (skipn_all2 tmp) by lia. rewrite app_nil_r.
  rewrite skipn_app. rewrite (skipn_all2 p) by lia.
  replace (columns - List.length p)%nat with 0%nat by lia.
  cbn [skipn app].
  cbn [negb Z.eqb Pos.eqb].
  assert (E3 : (len (h0 :: H) <? len (2 :: p)) = false).
  { apply Z.ltb_ge. unfold len. simpl. lia. }
  rewrite E3.
  eexists. split; [reflexivity|].
  unfold pngState. simpl.
  repeat split; eauto; try lia.
  rewrite addRow_length. exact HH.
Qed.

(** one turn of the loop that hands out the whole pending slice *)
Lemma pngUpRead_loop_copy (columns : nat) (fuel : nat) (r : pngUpReader) (n : Z)
    (out pd H src : list byte) (e : rdend) :
  pngState columns r pd H src e -> pd <> [] -> len pd < n ->
  exists r1,
    pngUpRead_loop (S fuel) r n out
    = pngUpRead_loop fuel r1 (n - len pd) (out ++ pd)
    /\ pngState columns r1 [] H src e.
Proof.
  intros [Hpd [Hh [HH [Ht Hr]]]] Hne Hn.
  destruct r as [rd hist tmp pend]. simpl in *. subst pend.
  pose proof (len_nonneg pd) as Hl.
  assert (En : (n <=? 0) = false) by (apply Z.leb_gt; lia).
  rewrite En. destruct pd as [| c pd]; [congruence|].
  rewrite Z.min_r by lia.
  replace (Z.to_nat (len (c :: pd))) with (List.length (c :: pd))
    by (unfold len; lia).
  rewrite skipn_all, firstn_all.
  eexists. split; [reflexivity|].
  unfold pngState. simpl. auto.
Qed.

Section PngRows.

Variable P : outcome (list byte * option error * pngUpReader) -> Prop.
Variable columns : nat.

(** Reading more than the pending bytes and the well-formed rows supply:
    the loop hands all of them out and goes on with what follows the
    rows. *)
Lemma pngUpRead_loop_past_rows (rows : list (list byte)) :
  Forall (fun p => List.length p = columns) rows ->
  forall (fuel : nat) (r : pngUpReader) (n : Z) (out pd H tailsrc : list byte)
         (e : rdend) (N : nat),
    pngState columns r pd H (pngInput rows ++ tailsrc) e ->
    len pd + Z.of_nat (columns * List.length rows) < n ->
    (forall r' fuel',
        pngState columns r' [] (fold_left addRow rows H) tailsrc e ->
        (N < fuel')%nat ->
        P (pngUpRead_loop fuel' r'
             (n - len pd - Z.of_nat (columns * List.length rows))
             (out ++ pd ++ List.concat (cumsum H rows)))) ->
    (List.length pd + columns * List.length rows + List.length rows + N < fuel)%nat ->
    P (pngUpRead_loop fuel r n out).
Proof.
  induction 1 as [| p rows Hp Hrows IH];
    intros fuel r n out pd H tailsrc e N Hst Hn K Hf.
  - cbn [List.length cumsum List.concat fold_left] in *.
    rewrite Nat.mul_0_r in *. rewrite app_nil_r in K. simpl in Hst.
    destruct pd as [| c pd].
    + specialize (K r fuel Hst). rewrite app_nil_r in K.
      replace (n - len (@nil Z) - Z.of_nat 0) with n in K by (unfold len; simpl; lia).
      apply K. lia.
    + destruct fuel as [| fuel]; [lia|].
      destruct (pngUpRead_loop_copy columns fuel r n out (c :: pd) H _ e Hst)
        as [r1 [Heq Hst1]]; [discriminate | lia |].
      rewrite Heq.
      replace (n - len (c :: pd)) with (n - len (c :: pd) - Z.of_nat 0) by lia.
      apply K; [exact Hst1 | cbn [List.length] in Hf; lia].
  - (* the step from an empty pending slice *)
    assert (Hempty : forall fuel1 r1 n1 out1,
               pngState columns r1 [] H (pngInput (p :: rows) ++ tailsrc) e ->
               Z.of_nat (columns * List.length (p :: rows)) < n1 ->
               (forall r' fuel',
                   pngState columns r' [] (fold_left addRow (p :: rows) H) tailsrc e ->
                   (N < fuel')%nat ->
                   P (pngUpRead_loop fuel' r'
                        (n1 - Z.of_nat (columns * List.length (p :: rows)))
                        (out1 ++ List.concat (cumsum H (p :: rows))))) ->
               (columns * List.length (p :: rows) + List.length (p :: rows) + N < fuel1)%nat ->
               P (pngUpRead_loop fuel1 r1 n1 out1)).
    { intros fuel1 r1 n1 out1 Hst1 Hn1 K1 Hf1.
      destruct fuel1 as [| fuel1]; [lia|].
      unfold pngInput in Hst1. cbn [map List.concat] in Hst1.
      rewrite <- app_assoc in Hst1. fold (pngInput rows) in Hst1.
      destruct (pngUpRead_loop_row columns fuel1 r1 n1 out1 H p _ e Hst1 Hp)
        as [r2 [Heq Hst2]]; [lia|].
      rewrite Heq.
      assert (Hlen : List.length (addRow H p) = columns).
      { rewrite addRow_length. destruct Hst1 as [_ [_ [HH1 _]]]. exact HH1. }
      apply (IH fuel1 r2 n1 out1 (addRow H p) (addRow H p) tailsrc e N Hst2).
      - unfold len. rewrite Hlen. cbn [List.length] in Hn1. lia.
      - intros r' fuel' Hst' Hf'.
        specialize (K1 r' fuel' Hst' Hf').
        cbn [cumsum List.concat] in K1.
        replace (n1 - len (addRow H p) - Z.of_nat (columns * List.length rows))
          with (n1 - Z.of_nat (columns * List.length (p :: rows)))
          by (unfold len; rewrite Hlen; cbn [List.length]; lia).
        exact K1.
      - rewrite Hlen. cbn [List.length] in Hf1. lia. }
    destruct pd as [| c pd].
    + apply Hempty; [exact Hst | unfold len in Hn; cbn [List.length] in Hn |- *; lia | | cbn [List.length] in Hf |- *; lia].
      intros r' fuel' Hst' Hf'. specialize (K r' fuel' Hst' Hf').
      replace (n - len (@nil Z) - Z.of_nat (columns * List.length (p :: rows)))
        with (n - Z.of_nat (columns * List.length (p :: rows))) in K
        by (unfold len; cbn [List.length]; lia).
      exact K.
    + destruct fuel as [| fuel]; [lia|].
      pose proof (len_nonneg (c :: pd)) as Hl.
      destruct (pngUpRead_loop_copy columns fuel r n out (c :: pd) H _ e Hst)
        as [r1 [Heq Hst1]]; [discriminate | lia |].
      rewrite Heq.
      apply Hempty; [exact Hst1 | lia | | cbn [List.length] in Hf |- *; lia].
      intros r' fuel' Hst' Hf'. specialize (K r' fuel' Hst' Hf').
      rewrite <- app_assoc. exact K.
Qed.

End PngRows.

(** a read the pending bytes are enough for *)
Lemma pngUpRead_loop_pending (columns : nat) (fuel : nat) (r : pngUpReader)
    (n : Z) (out pd H src : list byte) (e : rdend) :
  pngState columns r pd H src e -> 0 <= n <= len pd ->
  exists r',
    pngUpRead_loop (S fuel) r n out
    = Ret (out ++ firstn (Z.to_nat n) pd, None, r')
    /\ pngState columns r' (skipn (Z.to_nat n) pd) H src e.
Proof.
  intros Hst Hn.
  destruct (Z.eq_dec n 0) as [-> | Hn0].
  { exists r. rewrite pngUpRead_loop_done by lia. cbn [Z.to_nat firstn skipn].
    rewrite app_nil_r. split; [reflexivity | exact Hst]. }
  destruct Hst as [Hpd [Hh [HH [Ht Hr]]]].
  destruct r as [rd hist tmp pend]. simpl in Hpd, Hh, Ht, Hr. subst pend.
  cbn [pngUpRead_loop png_pend png_r png_hist png_tmp].
  assert (En : (n <=? 0) = false) by (apply Z.leb_gt; lia).
  rewrite En.
  destruct pd as [| c pd]; [unfold len in Hn; cbn [List.length] in Hn; lia |].
  rewrite Z.min_l by lia.
  rewrite pngUpRead_loop_done by lia.
  eexists. split; [reflexivity |].
  unfold pngState. cbn [png_pend png_r png_hist png_tmp]. auto.
Qed.

(** the bytes a reader in a given state has still to deliver from rows that
    are well formed: the pending ones, then the rows summed up from the
    history *)
Definition pngAhead (pd H : list byte) (rows : list (list byte)) : list byte :=
  pd ++ List.concat (cumsum H rows).

Lemma pngAhead_len (columns : nat) (pd H : list byte)
    (rows : list (list byte)) :
  Forall (fun p => List.length p = columns) rows ->
  List.length H = columns ->
  len (pngAhead pd H rows) = len pd + Z.of_nat (columns * List.length rows).
Proof.
  intros Hrows HH. unfold pngAhead. rewrite len_app. unfold len.
  rewrite (cumsum_length columns rows Hrows H HH). reflexivity.
Qed.

(** The state a read leaves: the reader is again between two rows or
    inside one, and has the rest of the bytes ahead. *)
Definition pngLeaves (columns : nat) (extra : list byte) (e : rdend)
    (r' : pngUpReader) (rest : list byte) : Prop :=
  exists pd' H' rows',
    pngState columns r' pd' H' (pngInput rows' ++ extra) e
    /\ Forall (fun p => List.length p = columns) rows'
    /\ pngAhead pd' H' rows' = rest.

(** Reading [n] bytes that the pending bytes and the well-formed rows can
    supply: the bytes are the next [n] ahead, and the reader is left with
    the rest. *)
Lemma pngUpRead_loop_rows (columns : nat) (extra : list byte) (e : rdend)
    (rows : list (list byte)) :
  Forall (fun p => List.length p = columns) rows ->
  forall (fuel : nat) (r : pngUpReader) (n : Z) (out pd H : list byte),
    pngState columns r pd H (pngInput rows ++ extra) e ->
    0 <= n <= len pd + Z.of_nat (columns * List.length rows) ->
    (Z.to_nat n + List.length rows < fuel)%nat ->
    exists r',
      pngUpRead_loop fuel r n out
      = Ret (out ++ firstn (Z.to_nat n) (pngAhead pd H rows), None, r')
      /\ pngLeaves columns extra e r' (skipn (Z.to_nat n) (pngAhead pd H rows)).
Proof.
  induction 1 as [| p rows Hp Hrows IH];
    intros fuel r n out pd H Hst Hn Hf.
  - destruct fuel as [| fuel]; [lia |].
    cbn [List.length] in Hn. rewrite Nat.mul_0_r in Hn.
    destruct (pngUpRead_loop_pending columns fuel r n out pd H _ e Hst)
      as [r' [Hr' Hst']]; [lia |].
    exists r'. unfold pngAhead. cbn [cumsum List.concat].
    rewrite !app_nil_r. split; [exact Hr' |].
    exists (skipn (Z.to_nat n) pd), H, []. split; [exact Hst' |].
    split; [constructor |]. unfold pngAhead. cbn [cumsum List.concat].
    apply app_nil_r.
  - destruct fuel as [| fuel]; [lia |].
    destruct (Z_le_gt_dec n (len pd)) as [Hle | Hgt].
    + (* the pending bytes are enough *)
      destruct (pngUpRead_loop_pending columns fuel r n out pd H _ e Hst)
        as [r' [Hr' Hst']]; [lia |].
      exists r'. unfold pngAhead.
      rewrite firstn_app_le by (unfold len in Hle; lia).
      split; [exact Hr' |].
      exists (skipn (Z.to_nat n) pd), H, (p :: rows).
      split; [exact Hst' |]. split; [constructor; assumption |].
      unfold pngAhead. rewrite skipn_app.
      replace (Z.to_nat n - List.length pd)%nat with 0%nat
        by (unfold len in Hle; lia).
      reflexivity.
    + (* the pending bytes, then the next row *)
      assert (HH : List.length H = columns) by (destruct Hst as (_ & _ & HH & _); exact HH).
      assert (Hrow : forall fuel1 r1 n1 out1,
                 pngState columns r1 [] H (pngInput (p :: rows) ++ extra) e ->
                 0 < n1 <= Z.of_nat (columns * List.length (p :: rows)) ->
                 (Z.to_nat n1 + List.length rows < fuel1)%nat ->
                 exists r',
                   pngUpRead_loop (S fuel1) r1 n1 out1
                   = Ret (out1 ++ firstn (Z.to_nat n1)
                                    (pngAhead [] H (p :: rows)), None, r')
                   /\ pngLeaves columns extra e r'
                        (skipn (Z.to_nat n1) (pngAhead [] H (p :: rows)))).
      { intros fuel1 r1 n1 out1 Hst1 Hn1 Hf1.
        unfold pngInput in Hst1. cbn [map List.concat] in Hst1.
        rewrite <- app_assoc in Hst1. fold (pngInput rows) in Hst1.
        destruct (pngUpRead_loop_row columns fuel1 r1 n1 out1 H p _ e Hst1 Hp)
          as [r2 [Heq Hst2]]; [lia |].
        rewrite Heq.
        destruct (IH fuel1 r2 n1 out1 (addRow H p) (addRow H p) Hst2)
          as [r' Hr']; [| lia |].
        { unfold len. rewrite addRow_length.
          cbn [List.length] in Hn1. lia. }
        exists r'. exact Hr'. }
      destruct pd as [| c pd].
      * apply Hrow;
          [ exact Hst
          | unfold len in Hn, Hgt; cbn [List.length] in Hn, Hgt |- *; lia
          | cbn [List.length] in Hf; lia ].
      * pose proof (len_nonneg (c :: pd)) as Hl.
        destruct (pngUpRead_loop_copy columns fuel r n out (c :: pd) H _ e Hst)
          as [r1 [Heq Hst1]]; [discriminate | lia |].
        rewrite Heq.
        destruct fuel as [| fuel];
          [unfold len in Hgt; cbn [List.length] in Hgt, Hf; lia |].
        destruct (Hrow fuel r1 (n - len (c :: pd)) (out ++ c :: pd) Hst1)
          as [r' [Hr' Hl']].
        -- lia.
        -- unfold len in Hgt |- *. cbn [List.length] in Hgt, Hf |- *. lia.
        -- exists r'.
           assert (Hnat : Z.to_nat (n - len (c :: pd))
                          = (Z.to_nat n - List.length (c :: pd))%nat)
             by (unfold len; lia).
           rewrite Hnat in Hr', Hl'.
           unfold pngAhead in Hr', Hl' |- *. cbn [app] in Hr', Hl'.
           split.
           ++ rewrite Hr'.
              rewrite (firstn_app_ge (Z.to_nat n) (c :: pd))
                by (unfold len in Hgt; lia).
              rewrite <- app_assoc. reflexivity.
           ++ rewrite skipn_app.
              rewrite (skipn_all2 (c :: pd)) by (unfold len in Hgt; lia).
              exact Hl'.
Qed.

(** a read that meets a row whose first byte is not 2, nothing pending *)
Lemma pngUpRead_loop_bad_row (columns : nat) (fuel : nat) (r : pngUpReader)
    (n : Z) (out H : list byte) (t : byte) (q rest : list byte) (e : rdend) :
  pngState columns r [] H (t :: q ++ rest) e ->
  t <> 2 -> List.length q = columns -> 0 < n ->
  exists r',
    pngUpRead_loop (S fuel) r n out = Ret (out, Some malformedPngUp, r').
Proof.
  intros [Hpd [[h0 Hh] [HH [Htmp Hr]]]] Ht Hq Hn.
  destruct r as [rd hist tmp pend]. simpl in Hpd, Hh, Htmp, Hr.
  subst pend hist rd.
  cbn [pngUpRead_loop png_pend png_r png_hist png_tmp].
  assert (En : (n <=? 0) = false) by (apply Z.leb_gt; lia).
  rewrite En. unfold ReadFull.
  assert (E1 : (len tmp <=? 0) = false).
  { apply Z.leb_gt. unfold len. lia. }
  rewrite E1.
  assert (E2 : (len tmp <=? len (t :: q ++ rest)) = true).
  { apply Z.leb_le. unfold len. simpl. rewrite length_app. lia. }
  rewrite E2. cbn [bind].
  replace (Z.to_nat (len tmp)) with (S columns) by (unfold len; lia).
  cbn [firstn skipn app].
  assert (E3 : (t =? 2) = false) by (apply Z.eqb_neq; exact Ht).
  rewrite E3. cbn [negb].
  eexists. reflexivity.
Qed.

Lemma pngInput_length (rows : list (list byte)) :
  (List.length rows <= List.length (pngInput rows))%nat.
Proof.
  induction rows as [| p rows IH]; simpl; [lia |].
  unfold pngInput in *. simpl. rewrite length_app. lia.
Qed.

Lemma pngInput_columns (columns : nat) (rows : list (list byte)) :
  Forall (fun p => List.length p = columns) rows ->
  List.length (pngInput rows) = (S columns * List.length rows)%nat.
Proof.
  induction 1 as [| p rows Hp Hrows IH];
    [cbn [List.length]; rewrite Nat.mul_0_r; reflexivity |].
  unfold pngInput in *. cbn [map List.concat List.length].
  rewrite length_app, IH. cbn [List.length]. lia.
Qed.

(** one [Read] of [n] bytes the reader has ahead *)
Lemma pngUpRead_ahead (columns : nat) (extra : list byte) (e : rdend)
    (r : pngUpReader) (n : Z) (ahead : list byte) :
  pngLeaves columns extra e r ahead -> 0 <= n <= len ahead ->
  exists r',
    pngUpRead r n = Ret (firstn (Z.to_nat n) ahead, None, r')
    /\ pngLeaves columns extra e r' (skipn (Z.to_nat n) ahead).
Proof.
  intros (pd & H & rows & Hst & Hrows & <-) Hn.
  assert (HH : List.length H = columns)
    by (destruct Hst as (_ & _ & HH & _); exact HH).
  rewrite (pngAhead_len columns pd H rows Hrows HH) in Hn.
  unfold pngUpRead.
  destruct (pngUpRead_loop_rows columns extra e rows Hrows
              (Z.to_nat n + List.length (fst (png_r r)) + 2) r n [] pd H
              Hst Hn) as [r' [Hr' Hl']].
  - destruct Hst as (_ & _ & _ & _ & Hr). rewrite Hr. cbn [fst].
    rewrite length_app. pose proof (pngInput_length rows). lia.
  - exists r'. split; [exact Hr' | exact Hl'].
Qed.

Lemma total_nonneg (ns : list Z) :
  Forall (fun n => 0 <= n) ns -> 0 <= total ns.
Proof.
  induction 1 as [| m ms Hm Hms IH]; cbn [total fold_right]; [lia |].
  fold (total ms). lia.
Qed.

(** consecutive [Read]s of bytes the reader has ahead *)
Lemma pngUpReads_ahead (columns : nat) (extra : list byte) (e : rdend)
    (ns : list Z) :
  Forall (fun n => 0 <= n) ns ->
  forall (r : pngUpReader) (ahead : list byte),
    pngLeaves columns extra e r ahead -> total ns <= len ahead ->
    exists r',
      pngUpReads r ns = Ret (map (fun c => (c, None)) (chunks ns ahead), r')
      /\ pngLeaves columns extra e r' (skipn (Z.to_nat (total ns)) ahead).
Proof.
  induction 1 as [| n ns Hn Hns IH]; intros r ahead Hl Ht.
  - exists r. split; [reflexivity | exact Hl].
  - cbn [total fold_right] in Ht. fold (total ns) in Ht.
    pose proof (total_nonneg ns Hns) as Htot.
    destruct (pngUpRead_ahead columns extra e r n ahead Hl) as [r1 [Hr1 Hl1]];
      [lia |].
    destruct (IH r1 _ Hl1) as [r' [Hr' Hl']].
    { unfold len. rewrite length_skipn. unfold len in Ht. lia. }
    exists r'. split.
    + cbn [pngUpReads chunks map]. rewrite Hr1. cbn [bind].
      rewrite Hr'. reflexivity.
    + cbn [total fold_right]. fold (total ns).
      rewrite skipn_skipn in Hl'.
      replace (Z.to_nat (n + total ns))
        with (Z.to_nat (total ns) + Z.to_nat n)%nat by lia.
      exact Hl'.
Qed.

(** a [Read] of more bytes than the reader has ahead, the row after them
    starting with another byte than 2 *)
Lemma pngUpRead_past (columns : nat) (t : byte) (q rest : list byte)
    (e : rdend) (r : pngUpReader) (n : Z) (ahead : list byte) :
  pngLeaves columns (t :: q ++ rest) e r ahead ->
  t <> 2 -> List.length q = columns -> len ahead < n ->
  exists r', pngUpRead r n = Ret (ahead, Some malformedPngUp, r').
Proof.
  intros (pd & H & rows & Hst & Hrows & <-) Ht Hq Hn.
  assert (HH : List.length H = columns)
    by (destruct Hst as (_ & _ & HH & _); exact HH).
  rewrite (pngAhead_len columns pd H rows Hrows HH) in Hn.
  unfold pngUpRead.
  set (P := fun o : outcome (list byte * option error * pngUpReader) =>
              exists r', o = Ret (pngAhead pd H rows, Some malformedPngUp, r')).
  apply (pngUpRead_loop_past_rows P columns rows Hrows _ r n [] pd H
           (t :: q ++ rest) e 0%nat Hst Hn).
  - intros r' fuel' Hst' Hf'. unfold P.
    destruct fuel' as [| fuel']; [lia |].
    cbn [app]. fold (pngAhead pd H rows).
    apply (pngUpRead_loop_bad_row columns fuel' r' _ _ _ t q rest e Hst' Ht Hq).
    lia.
  - destruct Hst as (Hpd & _ & _ & _ & Hr). rewrite Hr. cbn [fst].
    rewrite !length_app, (pngInput_columns columns rows Hrows).
    cbn [List.length]. rewrite length_app.
    pose proof (len_nonneg pd) as Hl. unfold len in Hn, Hl. lia.
Qed.

(** consecutive [Read]s of bytes the reader has ahead, then one of more
    than is left *)
Lemma pngUpReads_past (columns : nat) (t : byte) (q rest : list byte)
    (e : rdend) (n : Z) (ns : list Z) :
  t <> 2 -> List.length q = columns ->
  Forall (fun n => 0 <= n) ns ->
  forall (r : pngUpReader) (ahead : list byte),
    pngLeaves columns (t :: q ++ rest) e r ahead ->
    total ns <= len ahead -> len ahead < total ns + n ->
    exists r',
      pngUpReads r (ns ++ [n])
      = Ret (map (fun c => (c, None)) (chunks ns ahead)
             ++ [(skipn (Z.to_nat (total ns)) ahead, Some malformedPngUp)],
             r').
Proof.
  intros Ht Hq. induction 1 as [| m ns Hm Hns IH]; intros r ahead Hl Hle Hgt.
  - cbn [total fold_right] in Hgt.
    destruct (pngUpRead_past columns t q rest e r n ahead Hl Ht Hq)
      as [r' Hr']; [lia |].
    exists r'. cbn [app pngUpReads]. rewrite Hr'. reflexivity.
  - cbn [total fold_right] in Hle, Hgt. fold (total ns) in Hle, Hgt.
    pose proof (total_nonneg ns Hns) as Htot.
    destruct (pngUpRead_ahead columns _ e r m ahead Hl) as [r1 [Hr1 Hl1]];
      [lia |].
    destruct (IH r1 _ Hl1) as [r' Hr'].
    { unfold len. rewrite length_skipn. unfold len in Hle. lia. }
    { unfold len. rewrite length_skipn. unfold len in Hgt, Hle. lia. }
    exists r'.
    cbn [app pngUpReads chunks map]. rewrite Hr1. cbn [bind].
    rewrite Hr'. cbn [bind total fold_right]. fold (total ns).
    rewrite skipn_skipn.
    replace (Z.to_nat (m + total ns))
      with (Z.to_nat (total ns) + Z.to_nat m)%nat by lia.
    reflexivity.
Qed.

(** C7: a reader fresh from [applyFilter] over rows of 1 + Columns bytes,
    read by consecutive calls of [Read] for buffers of any lengths [ns].
    As long as the rows start with the filter byte 2, the calls return,
    piece after piece, the bytes of the output rows, row [i] being the
    byte-wise sum modulo 256 of the payloads 0 to [i]: what a call returns
    goes on where the call before it stopped.  The call that reaches a row
    starting with another byte returns what was left of the rows before it
    and the malformed-stream error. *)
Theorem pngUpRead_cumulative_rows
    (columns : nat) (rows : list (list byte)) (extra : list byte) (e : rdend)
    (ns : list Z)
    (Hcol : Z.of_nat columns < 2 ^ 63 - 1)
    (Hrows : Forall (fun p => List.length p = columns) rows)
    (Hns : Forall (fun n => 0 <= n) ns)
    (Htotal : total ns <= Z.of_nat (columns * List.length rows)) :
  let r0 := {| png_r := (pngInput rows ++ extra, e);
               png_hist := repeat 0 (S columns);
               png_tmp := repeat 0 (S columns);
               png_pend := [] |} in
  let output := pngOutput columns rows in
  newPngUpReader (pngInput rows ++ extra, e) (Z.of_nat columns) = Ret r0
  /\ (exists r',
        pngUpReads r0 ns
        = Ret (map (fun c => (c, None)) (chunks ns output), r'))
  /\ (forall (t : byte) (q rest : list byte) (n : Z),
        t <> 2 -> List.length q = columns -> extra = t :: q ++ rest ->
        Z.of_nat (columns * List.length rows) < total ns + n ->
        exists r',
          pngUpReads r0 (ns ++ [n])
          = Ret (map (fun c => (c, None)) (chunks ns output)
                 ++ [(skipn (Z.to_nat (total ns)) output,
                      Some malformedPngUp)], r')).
Proof.
  intros r0 output.
  assert (Hst0 : pngLeaves columns extra e r0 output).
  { exists [], (repeat 0 columns), rows. split; [| split].
    - unfold pngState, r0. simpl. repeat split; eauto.
      + apply repeat_length.
      + f_equal. apply repeat_length.
    - exact Hrows.
    - unfold pngAhead, output. cbn [app].
      apply (cumsum_zero columns rows Hrows). }
  assert (Hlen : len output = Z.of_nat (columns * List.length rows)).
  { unfold output, len.
    rewrite <- (cumsum_zero columns rows Hrows).
    rewrite (cumsum_length columns rows Hrows); [reflexivity |].
    apply repeat_length. }
  split; [| split].
  - unfold newPngUpReader, r0.
    rewrite int64_small by (change (2 ^ 63) with 9223372036854775808 in *; lia).
    destruct (1 + Z.of_nat columns <? 0) eqn:E; [apply Z.ltb_lt in E; lia |].
    replace (Z.to_nat (1 + Z.of_nat columns)) with (S columns) by lia.
    reflexivity.
  - destruct (pngUpReads_ahead columns extra e ns Hns r0 output Hst0)
      as [r' [Hr' _]]; [lia |].
    exists r'. exact Hr'.
  - intros t q rest n Ht Hq -> Hn.
    apply (pngUpReads_past columns t q rest e n ns Ht Hq Hns r0 output Hst0);
      lia.
Qed.

(** ** C1: entries already recorded are kept *)











(** *** The table path *)





(** *** The stream path *)






(** An accessor called with a path of one key walks over none of it
    ([DoWalkChildren] leaves the last element out), so it reads the value it
    is called on: asked of a stream for one of its keys, [Name] finds no
    name and [Int64] no integer. *)
Lemma Name_of_stream (fuel : nat) (r : Reader) (p : pdfobjptr) (hdr : pdfdict)
    (sptr : pdfobjptr) (off : Z) (key : string) :
  Name fuel r {| v_ptr := p; v_data := Ostream hdr sptr off |} [Pstring key]
  = Ret (EmptyString, Some (Errorf "Object is not a valid name")).
Proof. reflexivity. Qed.

Lemma Int64_of_stream (fuel : nat) (r : Reader) (p : pdfobjptr) (hdr : pdfdict)
    (sptr : pdfobjptr) (off : Z) (key : string) :
  Int64 fuel r {| v_ptr := p; v_data := Ostream hdr sptr off |} [Pstring key]
  = Ret (0, Some (Errorf "Could not cast into int64")).
Proof. reflexivity. Qed.

(** The walk over the [Prev] of an xref stream ends in an error whenever
    there is a [Prev]: the type of the older stream is asked of the stream
    value itself, which is no name. *)
Lemma readXrefStream_prev_only_nil (fuel : nat) (r : Reader)
    (prevoff : pdfobject) (size : Z) (t t' : xrefSlice) :
  readXrefStream_prev fuel r prevoff size t = Ret (t', None) ->
  prevoff = Onil /\ t' = t.
Proof.
  destruct fuel as [| fuel]; destruct prevoff; simpl; intros H;
    try discriminate; try (inversion H; auto; fail).
  apply bind_Ret_inv in H. destruct H as [[obj1 b] [_ H]].
  destruct obj1; try discriminate.
  destruct obj1; discriminate.
Qed.


(** ** C6: the password callback *)

(** the first [k] answers of the callback are passwords that fail *)
Definition answersFail (fuel : nat) (r : Reader) (pw : nat -> list byte)
    (from k : nat) : Prop :=
  forall j, (from <= j < from + k)%nat ->
    pw j <> [] /\ exists e r', initEncrypt fuel r (pw j) = Ret (Some e, r').

Lemma passwordLoop_fails_then (fuel : nat) (r : Reader) (pw : nat -> list byte) :
  forall (k turns from : nat),
    answersFail fuel r pw from k ->
    passwordLoop (k + turns) fuel r pw from
    = passwordLoop turns fuel r pw (from + k).
Proof.
  induction k as [| k IH]; intros turns from Hfail.
  - rewrite Nat.add_0_r. reflexivity.
  - destruct (Hfail from) as [Hne [e [r' He]]]; [lia|].
    cbn [Nat.add passwordLoop].
    destruct (pw from) as [| c p] eqn:Ep; [congruence|].
    rewrite He. cbn [bind].
    rewrite IH.
    + f_equal. lia.
    + intros j Hj. apply Hfail. lia.
Qed.

(** C6: on a file with an Encrypt entry, the empty password is tried first.
    If it is accepted, or fails with another error than ErrInvalidPassword,
    or there is no callback, the callback is not called.  Otherwise the
    callback is called again and again while the passwords it returns
    fail; the first empty answer ends the attempts with ErrInvalidPassword,
    and the first accepted password ends them with the reader. *)
Theorem NewReaderEncrypted_password_protocol
    (fuel : nat) (f : list byte) (size : Z) (r : Reader) (trailer : pdfdict)
    (Hopen : openReader fuel f size = Ret (Some (r, trailer), None))
    (Hencrypt : map_get trailer "Encrypt" <> Onil) :
  (forall pw r',
      initEncrypt fuel r [] = Ret (None, r') ->
      NewReaderEncrypted fuel f size pw = Ret (Some r', None, O))
  /\ (forall pw e r',
         initEncrypt fuel r [] = Ret (Some e, r') ->
         pw = None \/ e <> ErrInvalidPassword ->
         NewReaderEncrypted fuel f size pw = Ret (None, Some e, O))
  /\ (forall pw r0 k,
         initEncrypt fuel r [] = Ret (Some ErrInvalidPassword, r0) ->
         (k < fuel)%nat ->
         answersFail fuel r pw 0 k ->
         (pw k = [] ->
          NewReaderEncrypted fuel f size (Some pw)
          = Ret (None, Some ErrInvalidPassword, S k))
         /\ (forall r',
               pw k <> [] ->
               initEncrypt fuel r (pw k) = Ret (None, r') ->
               NewReaderEncrypted fuel f size (Some pw)
               = Ret (Some r', None, S k))).
Proof.
  assert (Hhead : forall pw,
             NewReaderEncrypted fuel f size pw
             = '(err, r') <- initEncrypt fuel r [] ;;
               match err with
               | None => Ret (Some r', None, O)
               | Some e =>
                   match pw with
                   | None => Ret (None, Some e, O)
                   | Some pw =>
                       if negb (is_ErrInvalidPassword e) then Ret (None, Some e, O)
                       else
                         '(res, calls) <- passwordLoop fuel fuel r pw O ;;
                         match res with
                         | Some r' => Ret (Some r', None, calls)
                         | None => Ret (None, Some e, calls)
                         end
                   end
               end).
  { intros pw. unfold NewReaderEncrypted. rewrite Hopen. cbn [bind].
    destruct (map_get trailer "Encrypt"); try reflexivity. congruence. }
  split; [| split].
  - intros pw r' H0. rewrite Hhead, H0. reflexivity.
  - intros pw e r' H0 Hcase. rewrite Hhead, H0. cbn [bind].
    destruct pw as [pw |]; [| reflexivity].
    destruct Hcase as [Hc | Hc]; [discriminate|].
    destruct e; try reflexivity. congruence.
  - intros pw r0 k H0 Hk Hfail.
    assert (Hloop : passwordLoop fuel fuel r pw 0
                    = passwordLoop (S (fuel - S k)) fuel r pw k).
    { change k with (0 + k)%nat at 2.
      rewrite <- (passwordLoop_fails_then fuel r pw k (S (fuel - S k)) 0 Hfail).
      f_equal. lia. }
    split.
    + intros Hempty. rewrite Hhead, H0. cbn [bind is_ErrInvalidPassword negb].
      rewrite Hloop. cbn [passwordLoop]. rewrite Hempty. reflexivity.
    + intros r' Hne Hok. rewrite Hhead, H0. cbn [bind is_ErrInvalidPassword negb].
      rewrite Hloop. cbn [passwordLoop].
      destruct (pw k) as [| c p] eqn:Ep; [congruence|].
      rewrite Hok. reflexivity.
Qed.

(** * More of the reader: strings, tokens, accessors *)

(** ** Strings under RC4 (reader, "decryptString") *)

Lemma prga_involutive (data : list byte) :
  forall (s : list byte) (i j : Z),
    RC4.prga s i j (RC4.prga s i j data) = data.
Proof.
  induction data as [| x data IH]; intros s i j; simpl; [reflexivity |].
  rewrite IH. f_equal.
  rewrite Z.lxor_assoc, Z.lxor_nilpotent, Z.lxor_0_r. reflexivity.
Qed.

Lemma prga_length (data : list byte) :
  forall (s : list byte) (i j : Z),
    List.length (RC4.prga s i j data) = List.length data.
Proof.
  induction data as [| x data IH]; intros s i j; simpl; [reflexivity |].
  rewrite IH. reflexivity.
Qed.

(** X1: without AES, [decryptString] is its own inverse under the same file
    key and object pointer: it returns a string as long as its argument, and
    applied to that string it returns the argument.  With AES it panics. *)
Theorem decryptString_round_trip (key : list byte) (ptr : pdfobjptr)
    (x : list byte) :
  (exists y,
      decryptString key false ptr x = Ret y
      /\ List.length y = List.length x
      /\ decryptString key false ptr y = Ret x)
  /\ decryptString key true ptr x = Panic "AES not implemented".
Proof.
  split; [| reflexivity].
  exists (RC4.xorKeyStream (cryptKey key false ptr) x).
  unfold decryptString, RC4.xorKeyStream.
  split; [reflexivity |]. split.
  - apply prga_length.
  - rewrite prga_involutive. reflexivity.
Qed.

(** ** Tokens pushed back (lexer, "unreadToken") *)

Lemma set_unread_same (b : pdfbuffer) : set_unread b (b_unread b) = b.
Proof. destruct b; reflexivity. Qed.

Lemma readToken_pushed_back (fuel : nat) (b : pdfbuffer) (t : token) :
  readToken fuel (unreadToken b t) = Ret (t, b).
Proof.
  unfold readToken, unreadToken. cbn [b_unread set_unread].
  rewrite rev_app_distr. cbn [rev app].
  rewrite rev_involutive.
  destruct b; reflexivity.
Qed.

(** X2: a token pushed back is the next token [readToken] returns, whatever
    the input holds, and the buffer is then as it was before the push; two
    tokens pushed back come out last pushed first. *)
Theorem unreadToken_then_readToken (fuel : nat) (b : pdfbuffer) (t u : token) :
  readToken fuel (unreadToken b t) = Ret (t, b)
  /\ ('(x, b1) <- readToken fuel (unreadToken (unreadToken b t) u) ;;
      '(y, b2) <- readToken fuel b1 ;;
      Ret (x, y, b2))
     = Ret (u, t, b).
Proof.
  split; [apply readToken_pushed_back |].
  rewrite readToken_pushed_back. cbn [bind].
  rewrite readToken_pushed_back. reflexivity.
Qed.

(** ** Stream data (reader, "Value.Reader") *)

Lemma resolve_nil (fuel : nat) (r : Reader) (parent : pdfobjptr) :
  resolve (S fuel) r parent Onil
  = Ret ({| v_ptr := parent; v_data := Onil |}, None).
Proof. reflexivity. Qed.

(** X4: the reader of a stream that has no [Filter], in a file that is not
    encrypted, delivers no byte and then [io.EOF], whatever the [Length] of
    the stream and the bytes after its header: [Reader] asks the stream
    value itself for the integer [Length], gets none, and reads a section of
    0 bytes.  (The reader is returned once [DecodeParms] is resolved; with
    no [DecodeParms] it always is.) *)
Theorem Value_Reader_reads_nothing (fuel : nat) (r : Reader) (p : pdfobjptr)
    (hdr : pdfdict) (sptr : pdfobjptr) (off : Z)
    (Hkey : r_key r = None) (Hfilter : map_get hdr "Filter" = Onil) :
  let v := {| v_ptr := p; v_data := Ostream hdr sptr off |} in
  (forall rd, Value_Reader (S fuel) r v = Ret rd -> rd = ([], RdErr EOF))
  /\ (map_get hdr "DecodeParms" = Onil ->
      Value_Reader (S fuel) r v = Ret ([], RdErr EOF)).
Proof.
  intro v.
  assert (E : Value_Reader (S fuel) r v
              = '(param, _) <- resolve (S fuel) r p (map_get hdr "DecodeParms") ;;
                Ret ([], RdErr EOF)).
  { unfold Value_Reader, Value_Reader_with, v.
    cbn [v_data v_ptr Int64_with Walk_with DoWalkChildren_with removelast
         DoWalkChildren_loop bind Key_with].
    rewrite Hkey, Hfilter. rewrite resolve_nil. cbn [bind].
    destruct (resolve (S fuel) r p (map_get hdr "DecodeParms")) as [[pv pe] | |];
      reflexivity. }
  split.
  - intros rd H. rewrite E in H.
    apply bind_Ret_inv in H. destruct H as [[pv pe] [_ H]].
    inversion H. reflexivity.
  - intros Hp. rewrite E, Hp, resolve_nil. reflexivity.
Qed.

(** ** Paths (reader, "DoWalkChildren", "Int64") *)

Section MorePaths.

Variable res : pdfobjptr -> pdfobject -> outcome (Value * option error).

(** X21: [DoWalkChildren] walks all the elements of the path but the last,
    which it never looks at: two paths that differ in their last element
    give the same result, a path of one element gives the value itself, and
    the empty path panics.  So [Int64] with one key returns the integer of
    the value it is called on (or fails when that is no integer), whatever
    the key. *)
Theorem DoWalkChildren_drops_last (v : Value) (path : list pathelem)
    (p q : pathelem) (k : string) :
  DoWalkChildren_with res v (path ++ [p])
  = DoWalkChildren_with res v (path ++ [q])
  /\ DoWalkChildren_with res v (path ++ [p]) = DoWalkChildren_loop res v path
  /\ DoWalkChildren_with res v [p] = Ret (v, None)
  /\ DoWalkChildren_with res v [] = Panic "slice bounds out of range [:-1]"
  /\ Int64_with res v [Pstring k]
     = match v_data v with
       | Oint64 x => Ret (x, None)
       | _ => Ret (0, Some (Errorf "Could not cast into int64"))
       end.
Proof.
  assert (E : forall e, DoWalkChildren_with res v (path ++ [e])
                        = DoWalkChildren_loop res v path).
  { intros e. unfold DoWalkChildren_with.
    rewrite removelast_last.
    destruct (path ++ [e]) eqn:Ep; [| reflexivity].
    apply app_eq_nil in Ep. destruct Ep as [_ Ep]. discriminate Ep. }
  split; [rewrite !E; reflexivity |].
  split; [apply E |].
  split; [reflexivity |]. split; [reflexivity |].
  unfold Int64_with, Walk_with, DoWalkChildren_with.
  cbn [removelast DoWalkChildren_loop bind].
  destruct (v_data v); reflexivity.
Qed.

End MorePaths.

(** ** Integers of an xref stream (reader, "decodeInt") *)

Lemma lor_shiftl_byte (x c : Z) :
  0 <= c < 256 -> Z.lor (Z.shiftl x 8) c = 256 * x + c.
Proof.
  intros Hc.
  assert (Hland : Z.land (Z.shiftl x 8) c = 0).
  { apply Z.bits_inj'. intros n Hn.
    rewrite Z.land_spec, Z.bits_0.
    destruct (Z.ltb_spec n 8) as [Hlt | Hge].
    - rewrite Z.shiftl_spec_low by lia. reflexivity.
    - destruct (Z.eq_dec c 0) as [-> | Hc0].
      + rewrite Z.bits_0. apply andb_false_r.
      + rewrite (Z.bits_above_log2 c n); [apply andb_false_r | lia |].
        apply Z.log2_lt_pow2; [lia |].
        apply Z.lt_le_trans with (2 ^ 8); [simpl; lia |].
        apply Z.pow_le_mono_r; lia. }
  rewrite <- Z.lxor_lor by exact Hland.
  rewrite <- Z.add_nocarry_lxor by exact Hland.
  rewrite Z.shiftl_mul_pow2 by lia. change (2 ^ 8) with 256. lia.
Qed.

(** the value of the bytes read as a big-endian number *)
Definition bigEndian (b : list byte) : Z :=
  fold_left (fun x c => 256 * x + c) b 0.

Lemma decodeInt_fold (b : list byte) :
  forall (x : Z) (k : nat),
    Forall (fun c => 0 <= c < 256) b ->
    (k + List.length b <= 7)%nat ->
    0 <= x < 256 ^ Z.of_nat k ->
    fold_left (fun x c => int64 (Z.lor (Z.shiftl x 8) c)) b x
    = fold_left (fun x c => 256 * x + c) b x
    /\ 0 <= fold_left (fun x c => 256 * x + c) b x
         < 256 ^ Z.of_nat (k + List.length b).
Proof.
  induction b as [| c b IH]; intros x k Hb Hk Hx.
  - cbn [fold_left List.length]. rewrite Nat.add_0_r. split; [reflexivity | exact Hx].
  - inversion Hb as [| c' b' Hc Hb']; subst.
    cbn [fold_left List.length] in *.
    assert (Hstep : 0 <= 256 * x + c < 256 ^ Z.of_nat (S k)).
    { rewrite Nat2Z.inj_succ, Z.pow_succ_r by lia. lia. }
    rewrite lor_shiftl_byte by exact Hc.
    rewrite int64_small.
    + replace (k + S (List.length b))%nat with (S k + List.length b)%nat by lia.
      apply IH; [exact Hb' | lia | exact Hstep].
    + assert (256 ^ Z.of_nat (S k) <= 256 ^ 7)
        by (apply Z.pow_le_mono_r; lia).
      change (256 ^ 7) with 72057594037927936 in *.
      change (2 ^ 63) with 9223372036854775808. lia.
Qed.

(** X5: [decodeInt] reads a field of at most 7 bytes as a big-endian number:
    the result is the value of the bytes in base 256, most significant byte
    first, so it is at least 0 and below 256 to the number of bytes; a field
    of no byte gives 0, and one more byte [c] at the end gives 256 times the
    value plus [c]. *)
Theorem decodeInt_big_endian (b : list byte)
    (Hbytes : Forall (fun c => 0 <= c < 256) b)
    (Hlen : (List.length b <= 7)%nat) :
  decodeInt b = bigEndian b
  /\ 0 <= decodeInt b < 256 ^ len b
  /\ decodeInt [] = 0
  /\ (forall c, bigEndian (b ++ [c]) = 256 * bigEndian b + c).
Proof.
  destruct (decodeInt_fold b 0 0 Hbytes) as [E R]; [lia | simpl; lia |].
  unfold decodeInt, bigEndian, len. rewrite E.
  split; [reflexivity |]. split; [exact R |]. split; [reflexivity |].
  intros c. rewrite fold_left_app. reflexivity.
Qed.

(** ** The table of an xref section and [Size] (reader, "readXrefTable") *)

(** X6: the table [readXrefTable] returns is never longer than the [Size]
    of the trailer of the section it starts from: the trailer has an integer
    [Size] that is not negative, the table has at most that many slots (it
    is cut when the sections list more), and the pointer returned with it is
    the zero pointer. *)
Theorem readXrefTable_within_Size (fuel : nat) (r : Reader) (b : pdfbuffer)
    (table : list xref) (ptr : pdfobjptr) (trailer : pdfdict) :
  readXrefTable fuel r b = Ret (table, ptr, trailer, None) ->
  exists size,
    map_get trailer "Size" = Oint64 size
    /\ 0 <= len table <= size
    /\ ptr = pdfobjptr_zero.
Proof.
  unfold readXrefTable, xrefError. intros H.
  repeat step_ret; try discriminate.
  - match goal with
    | E : (_ <? len _) = true |- _ => apply Z.ltb_lt in E
    end.
    match goal with
    | E : (_ <? 0) = false |- _ => apply Z.ltb_ge in E
    end.
    eexists. split; [eassumption |].
    split; [| reflexivity].
    unfold len in *. rewrite length_firstn. lia.
  - match goal with
    | E : (_ <? len _) = false |- _ => apply Z.ltb_ge in E
    end.
    eexists. split; [eassumption |].
    split; [| reflexivity].
    split; [apply len_nonneg | assumption].
Qed.

(** ** The header of a file (reader, "NewReaderEncrypted") *)

Lemma bytes_eqb_eq (a b : list byte) : bytes_eqb a b = true -> a = b.
Proof.
  revert b. induction a as [| x a IH]; intros [| y b] H; simpl in H;
    try discriminate; [reflexivity |].
  apply andb_true_iff in H. destruct H as [Hxy Hab].
  apply Z.eqb_eq in Hxy. subst y. f_equal. apply IH. exact Hab.
Qed.

(** the ten bytes [ReadAt] gives for the header are those of the file,
    followed by zeros when the file is shorter *)
Lemma ReadAt_header (f : list byte) :
  ReadAt f 10 0 = firstn 10 (f ++ repeat 0 10).
Proof.
  unfold ReadAt. cbn [Z.ltb Z.compare Z.to_nat skipn].
  do 10 (destruct f as [| ? f]; [reflexivity |]).
  reflexivity.
Qed.

Lemma ReadAt_header_nth (f : list byte) (i : nat) :
  (i < 10)%nat -> nth i (ReadAt f 10 0) 0 = nth i f 0.
Proof.
  intros Hi. rewrite ReadAt_header.
  do 10 (destruct f as [| ? f];
         [do 10 (destruct i as [| i]; [reflexivity |]); lia |]).
  do 10 (destruct i as [| i]; [reflexivity |]). lia.
Qed.

Lemma ReadAt_header_prefix (f : list byte) :
  HasPrefix (ReadAt f 10 0) (bytes_of_string "%PDF-1.") = true ->
  firstn 7 f = bytes_of_string "%PDF-1.".
Proof.
  intros H. unfold HasPrefix in H. apply bytes_eqb_eq in H.
  rewrite ReadAt_header in H.
  do 7 (destruct f as [| ? f]; [discriminate H |]).
  exact H.
Qed.

(** what [NewReaderEncrypted] refuses as a header *)
Definition badHeader (f : list byte) : Prop :=
  firstn 7 f <> bytes_of_string "%PDF-1."
  \/ nthZ 0 f 7 < ch "0" \/ ch "7" < nthZ 0 f 7
  \/ (nthZ 0 f 8 <> 13 /\ nthZ 0 f 8 <> 10).

(** X7: a file is refused with the error "not a PDF file: invalid header",
    and the password callback is not called, whenever its first seven bytes
    are not [%PDF-1.], or the byte after them is not a digit from 0 to 7, or
    the byte after that is neither a carriage return nor a line feed (bytes
    the file does not have count as 0) -- whatever the size given and the
    rest of the file. *)
Theorem NewReaderEncrypted_bad_header (fuel : nat) (f : list byte) (size : Z)
    (pw : option (nat -> list byte)) :
  badHeader f ->
  NewReaderEncrypted fuel f size pw
  = Ret (None, Some (Errorf "not a PDF file: invalid header"), O).
Proof.
  intros Hbad. unfold NewReaderEncrypted, openReader.
  assert (E : negb (HasPrefix (ReadAt f 10 0) (bytes_of_string "%PDF-1."))
              || (nthZ 0 (ReadAt f 10 0) 7 <? ch "0")
              || (ch "7" <? nthZ 0 (ReadAt f 10 0) 7)
              || (negb (nthZ 0 (ReadAt f 10 0) 8 =? 13)
                  && negb (nthZ 0 (ReadAt f 10 0) 8 =? 10)) = true).
  { unfold nthZ. change (Z.to_nat 7) with 7%nat. change (Z.to_nat 8) with 8%nat.
    rewrite !ReadAt_header_nth by lia.
    destruct (HasPrefix (ReadAt f 10 0) (bytes_of_string "%PDF-1.")) eqn:Hp;
      [| reflexivity].
    apply ReadAt_header_prefix in Hp. cbn [negb orb].
    unfold badHeader, nthZ in Hbad.
    change (Z.to_nat 7) with 7%nat in Hbad.
    change (Z.to_nat 8) with 8%nat in Hbad.
    destruct Hbad as [H | [H | [H | [H1 H2]]]].
    - contradiction.
    - apply Z.ltb_lt in H. rewrite H. reflexivity.
    - apply Z.ltb_lt in H. rewrite H. rewrite orb_true_r. reflexivity.
    - apply Z.eqb_neq in H1. apply Z.eqb_neq in H2. rewrite H1, H2.
      cbn [negb andb]. rewrite !orb_true_r. reflexivity. }
  cbv zeta. rewrite E. reflexivity.
Qed.

(** ** The line [startxref] (reader, "findLastLine") *)

Lemma LastIndex_from_sound (s sep : list byte) (i : nat) (k : Z) :
  LastIndex_from i s sep = k -> 0 <= k ->
  HasPrefix (skipn (Z.to_nat k) s) sep = true /\ k <= Z.of_nat i.
Proof.
  revert k. induction i as [| i IH]; intros k H Hk; cbn [LastIndex_from] in H.
  - destruct (HasPrefix (skipn 0 s) sep) eqn:E; [| lia].
    subst k. split; [exact E | lia].
  - destruct (HasPrefix (skipn (S i) s) sep) eqn:E.
    + subst k. rewrite Nat2Z.id. split; [exact E | lia].
    + destruct (IH k H Hk) as [A B]. split; [exact A | lia].
Qed.

Lemma LastIndex_sound (s sep : list byte) (k : Z) :
  LastIndex s sep = k -> 0 <= k ->
  k + len sep <= len s
  /\ firstn (List.length sep) (skipn (Z.to_nat k) s) = sep.
Proof.
  unfold LastIndex. intros H Hk.
  destruct (len s <? len sep) eqn:E; [lia |].
  apply Z.ltb_ge in E.
  destruct (LastIndex_from_sound s sep _ k H Hk) as [A B].
  split; [unfold len in *; lia |].
  unfold HasPrefix in A. apply bytes_eqb_eq in A. exact A.
Qed.

Lemma firstn_skipn_firstn {A} (l : list A) (m i n : nat) :
  (i + n <= m)%nat ->
  firstn n (skipn i (firstn m l)) = firstn n (skipn i l).
Proof.
  intros H. rewrite skipn_firstn_comm, firstn_firstn.
  replace (Nat.min n (m - i)) with n by lia. reflexivity.
Qed.

Lemma findLastLine_loop_sound (buf bs : list byte) (fuel : nat) :
  forall (max i : Z),
    0 <= max ->
    findLastLine_loop fuel buf bs max = i -> i <> -1 ->
    0 < i /\ i + len bs < len buf
    /\ firstn (List.length bs) (skipn (Z.to_nat i) buf) = bs
    /\ isNewline (nthZ 0 buf (i - 1)) = true
    /\ isNewline (nthZ 0 buf (i + len bs)) = true.
Proof.
  induction fuel as [| fuel IH]; intros max i Hmax H Hi;
    cbn [findLastLine_loop] in H; [congruence |].
  cbv zeta in H.
  remember (LastIndex (firstn (Z.to_nat max) buf) bs) as k eqn:Hk.
  destruct ((k <=? 0) || (len buf <=? k + len bs)) eqn:E; [congruence |].
  apply orb_false_iff in E. destruct E as [E1 E2].
  apply Z.leb_gt in E1. apply Z.leb_gt in E2.
  destruct (isNewline (nthZ 0 buf (k - 1))
            && isNewline (nthZ 0 buf (k + len bs))) eqn:En.
  - subst i. apply andb_true_iff in En. destruct En as [N1 N2].
    symmetry in Hk.
    destruct (LastIndex_sound _ _ k Hk) as [B M]; [lia |].
    repeat split; try assumption.
    rewrite <- M at 2. symmetry. apply firstn_skipn_firstn.
    unfold len in B. rewrite length_firstn in B. lia.
  - apply (IH k i); [lia | exact H | exact Hi].
Qed.

(** X17: [findLastLine] returns -1 or the index of a line that is [s]: an
    index [i > 0] at which the bytes of [s] stand in [buf], with a line feed
    or a carriage return right before them and right after them (so [s] at
    the very start or the very end of [buf] is never found). *)
Theorem findLastLine_sound (buf : list byte) (s : string) (i : Z) :
  findLastLine buf s = i -> i <> -1 ->
  let bs := bytes_of_string s in
  0 < i /\ i + len bs < len buf
  /\ firstn (List.length bs) (skipn (Z.to_nat i) buf) = bs
  /\ isNewline (nthZ 0 buf (i - 1)) = true
  /\ isNewline (nthZ 0 buf (i + len bs)) = true.
Proof.
  intros H Hi bs. unfold findLastLine in H.
  apply (findLastLine_loop_sound buf bs _ (len buf) i (len_nonneg buf) H Hi).
Qed.

(** ** What [initEncrypt] changes *)

Lemma md5Rounds_length (n : nat) (klen : Z) :
  forall key, len key = 16 -> len (md5Rounds n klen key) = 16.
Proof.
  induction n as [| n IH]; intros key H; simpl; [exact H |].
  apply IH. apply md5_sum_length.
Qed.

Lemma len_firstn_le {A} (n : nat) (l : list A) :
  (n <= List.length l)%nat -> len (firstn n l) = Z.of_nat n.
Proof. intros H. unfold len. rewrite length_firstn. lia. Qed.

Lemma Ret_pair_inj {A B} (a c : A) (b d : B) :
  Ret (a, b) = Ret (c, d) -> a = c /\ b = d.
Proof. intros H. inversion H. split; reflexivity. Qed.

(** X8: [initEncrypt] changes nothing of the reader but the key.  When it
    returns an error (a wrong password included) the reader is as before;
    when it accepts the password, the file, its xref table and its trailer
    are as before and the reader holds a key of 5 to 16 bytes. *)
Theorem initEncrypt_sets_only_the_key (fuel : nat) (r : Reader)
    (password : list byte) (e : option error) (r' : Reader) :
  initEncrypt fuel r password = Ret (e, r') ->
  (e <> None -> r' = r)
  /\ (e = None ->
      exists key aes,
        r' = set_key r key aes /\ 5 <= len key <= 16).
Proof.
  unfold initEncrypt. intros H. cbv zeta in H.
  repeat match goal with
         | H : Ret (_, _) = Ret (_, _) |- _ =>
             apply Ret_pair_inj in H; destruct H as [He Hr];
             rewrite <- He, <- Hr; clear He Hr
         | _ => step_ret
         end;
    try (split; [intros _; reflexivity | intros Hn; discriminate Hn]).
  split; [intros Hn; contradiction Hn; reflexivity | intros _].
  match goal with
  | |- exists key aes, set_key _ ?k ?a = _ /\ _ => exists k, a
  end.
  split; [reflexivity |].
  match goal with
  | E : negb (Z.rem ?n 8 =? 0) || (128 <? ?n) || (?n <? 40) = false |- _ =>
      assert (Hn : 40 <= n <= 128)
        by (apply orb_false_iff in E; destruct E as [E Elo];
            apply orb_false_iff in E; destruct E as [_ Ehi];
            apply Z.ltb_ge in Ehi; apply Z.ltb_ge in Elo; lia);
      set (nn := n) in *
  end.
  assert (Hdiv : 5 <= nn / 8 <= 16).
  { split; [apply Z.div_le_lower_bound; lia |].
    apply Z.div_le_upper_bound; lia. }
  destruct (3 <=? _).
  - match goal with
    | |- context [md5Rounds 50 _ (MD5.sum ?m)] =>
        pose proof (md5Rounds_length 50 (nn / 8) (MD5.sum m)
                      (md5_sum_length m)) as H16
    end.
    rewrite len_firstn_le; [lia |]. unfold len at 1 in H16. lia.
  - match goal with
    | |- context [firstn 5 (MD5.sum ?m)] =>
        pose proof (md5_sum_length m) as H16
    end.
    rewrite len_firstn_le; [lia |]. unfold len at 1 in H16. lia.
Qed.

(** ** How much a read of the PNG "Up" reader returns *)

Lemma pngUpRead_loop_count (fuel : nat) :
  forall (r : pngUpReader) (n : Z) (out out' : list byte)
         (e : option error) (r' : pngUpReader),
    pngUpRead_loop fuel r n out = Ret (out', e, r') ->
    len out <= len out' <= len out + Z.max n 0
    /\ (e = None -> len out' = len out + Z.max n 0).
Proof.
  induction fuel as [| fuel IH]; intros r n out out' e r' H.
  - cbn [pngUpRead_loop] in H.
    destruct (n <=? 0) eqn:En; [| discriminate H].
    apply Z.leb_le in En. inversion H; subst. lia.
  - cbn [pngUpRead_loop] in H.
    destruct (n <=? 0) eqn:En.
    { apply Z.leb_le in En. inversion H; subst. lia. }
    apply Z.leb_gt in En.
    destruct (png_pend r) as [| x pend] eqn:Ep.
    + repeat step_ret; try lia.
      * split; [lia | intros Hn; discriminate Hn].
      * split; [lia | intros Hn; discriminate Hn].
      * match goal with
        | Hrec : pngUpRead_loop fuel _ _ _ = _ |- _ =>
            apply IH in Hrec; exact Hrec
        end.
    + cbv zeta in H. apply IH in H.
      rewrite len_app in H.
      assert (Hm : len (firstn (Z.to_nat (Z.min n (len (x :: pend))))
                          (x :: pend))
                   = Z.min n (len (x :: pend))).
      { pose proof (len_nonneg (x :: pend)).
        unfold len in *. rewrite length_firstn. lia. }
      rewrite Hm in H. pose proof (len_nonneg (x :: pend)) as Hp.
      destruct H as [H1 H2].
      assert (Hsum : Z.min n (len (x :: pend))
                     + Z.max (n - Z.min n (len (x :: pend))) 0 = Z.max n 0
                     /\ 0 <= Z.min n (len (x :: pend))).
      { destruct (Z.min_spec n (len (x :: pend))) as [[Hlt ->] | [Hle ->]];
          rewrite !Z.max_l by lia; lia. }
      destruct Hsum as [Hsum Hmin].
      split; [lia | intros He; rewrite (H2 He); lia].
Qed.

(** X22: a [Read] of the PNG "Up" reader into a buffer of [n] bytes never
    returns more than [n] bytes, and when it returns no error it returns
    exactly [n]: it goes on reading rows until the buffer is full. *)
Theorem pngUpRead_count (r : pngUpReader) (n : Z) (out : list byte)
    (e : option error) (r' : pngUpReader) :
  pngUpRead r n = Ret (out, e, r') ->
  0 <= len out <= Z.max n 0 /\ (e = None -> len out = Z.max n 0).
Proof.
  unfold pngUpRead. intros H.
  apply pngUpRead_loop_count in H. change (len (@nil byte)) with 0 in H.
  destruct H as [H1 H2]. split; [lia | intros He; rewrite (H2 He); lia].
Qed.

(** * More of the lexer: bytes, strings, names, numbers *)

(** ** Reading and unreading a byte *)

(** the fields of the buffer no reading changes *)
Definition sameSettings (b b' : pdfbuffer) : Prop :=
  b_unread b' = b_unread b /\ b_allowEOF b' = b_allowEOF b
  /\ b_allowObjptr b' = b_allowObjptr b /\ b_allowStream b' = b_allowStream b
  /\ b_eof b' = b_eof b /\ b_key b' = b_key b /\ b_useAES b' = b_useAES b
  /\ b_objptr b' = b_objptr b.

(** [b'] is [b] after [k] bytes were read: the input left is [rest] *)
Definition advances (b : pdfbuffer) (k : Z) (rest : list byte)
    (b' : pdfbuffer) : Prop :=
  wf_buffer b' /\ pending b' = rest /\ readOffset b' = readOffset b + k
  /\ sameSettings b b'.

Lemma sameSettings_refl (b : pdfbuffer) : sameSettings b b.
Proof. unfold sameSettings. repeat split. Qed.

Lemma sameSettings_trans (b1 b2 b3 : pdfbuffer) :
  sameSettings b1 b2 -> sameSettings b2 b3 -> sameSettings b1 b3.
Proof.
  unfold sameSettings.
  intros (A1 & A2 & A3 & A4 & A5 & A6 & A7 & A8)
         (B1 & B2 & B3 & B4 & B5 & B6 & B7 & B8).
  repeat split; congruence.
Qed.

Lemma advances_trans (b b1 b2 : pdfbuffer) (k1 k2 : Z) (r1 r2 : list byte) :
  advances b k1 r1 b1 -> advances b1 k2 r2 b2 -> advances b (k1 + k2) r2 b2.
Proof.
  intros (_ & _ & O1 & S1) (W2 & P2 & O2 & S2).
  split; [exact W2 |]. split; [exact P2 |]. split; [lia |].
  apply (sameSettings_trans _ _ _ S1 S2).
Qed.

Lemma advances_refl (b : pdfbuffer) :
  wf_buffer b -> advances b 0 (pending b) b.
Proof.
  intros W. split; [exact W |]. split; [reflexivity |]. split; [lia |].
  apply sameSettings_refl.
Qed.

(** what [readByte] returns when there is input left *)
Lemma readByte_step (b : pdfbuffer) (c : byte) (rest : list byte) :
  wf_buffer b -> pending b = c :: rest ->
  exists b', readByte b = Ret (c, b')
             /\ advances b 1 rest b'
             /\ advances b 0 (c :: rest) (unreadByte b').
Proof.
  intros W Hpend.
  destruct (readByte_pending b c rest W Hpend)
    as (b' & Hread & W' & P' & Hpos & Hsk & Hun).
  exists b'. split; [exact Hread |].
  assert (Hframe : readOffset b' = readOffset b + 1 /\ sameSettings b b').
  { destruct W as [[Hp1 Hp2] Hoff].
    unfold readByte in Hread.
    destruct (len (b_buf b) <=? b_pos b) eqn:E.
    - apply Z.leb_le in E. unfold reload in Hread.
      destruct (bufcap <? bufcap - Z.rem (b_offset b) bufcap);
        [discriminate Hread |].
      destruct (b_r b) as [data e].
      destruct (firstn (Z.to_nat (bufcap - Z.rem (b_offset b) bufcap)) data)
        as [| x chunk] eqn:Ec.
      + unfold pending in P', Hsk.
        destruct e as [[] |]; try discriminate Hread;
          destruct (b_allowEOF b); try discriminate Hread;
          cbn [bind set_input b_buf b_pos len List.length] in Hread;
          cbn in Hread; inversion Hread; subst b'; cbn in Hpos; lia.
      + cbn [bind set_input b_buf b_pos] in Hread.
        destruct (len (x :: chunk) <=? 0) eqn:E0;
          [rewrite len_cons in E0; pose proof (len_nonneg chunk);
           apply Z.leb_le in E0; lia |].
        inversion Hread; subst b'.
        unfold readOffset, sameSettings, set_pos, set_input; cbn.
        split; [lia | repeat split].
    - cbn [bind] in Hread. rewrite E in Hread.
      inversion Hread; subst b'.
      unfold readOffset, sameSettings, set_pos, set_input; cbn.
      split; [lia | repeat split]. }
  destruct Hframe as [Hoff Hsame].
  split; [split; [exact W' |]; split; [exact P' |]; split; assumption |].
  destruct (unreadByte_pending b' c rest W' Hpos Hsk) as (W2 & P2 & U2).
  split; [exact W2 |]. split; [exact P2 |]. split.
  - unfold unreadByte. rewrite (proj2 (Z.ltb_lt _ _) Hpos).
    unfold readOffset, set_pos, set_input in *; cbn. lia.
  - unfold unreadByte. rewrite (proj2 (Z.ltb_lt _ _) Hpos).
    unfold sameSettings, set_pos, set_input in *; cbn. exact Hsame.
Qed.

(** X9: a byte read and put back.  When input is left, [readByte] returns
    its first byte and the offset read so far grows by one; [unreadByte]
    right after puts the buffer back on that byte, at the offset from
    before, and the next [readByte] returns the same byte again. *)
Theorem readByte_unreadByte_round_trip (b : pdfbuffer) (c : byte)
    (rest : list byte) (Hwf : wf_buffer b) (Hpend : pending b = c :: rest) :
  exists b1 b2,
    readByte b = Ret (c, b1)
    /\ pending b1 = rest /\ readOffset b1 = readOffset b + 1
    /\ pending (unreadByte b1) = c :: rest
    /\ readOffset (unreadByte b1) = readOffset b
    /\ readByte (unreadByte b1) = Ret (c, b2)
    /\ pending b2 = rest /\ readOffset b2 = readOffset b + 1.
Proof.
  destruct (readByte_step b c rest Hwf Hpend)
    as (b1 & R1 & (W1 & P1 & O1 & _) & (W1' & P1' & O1' & _)).
  destruct (readByte_step (unreadByte b1) c rest W1' P1')
    as (b2 & R2 & (W2 & P2 & O2 & _) & _).
  exists b1, b2. repeat split; try assumption; lia.
Qed.

Lemma readByte_end (b : pdfbuffer) :
  0 <= b_offset b -> len (b_buf b) <= b_pos b -> b_r b = ([], RdErr EOF) ->
  (b_allowEOF b = true ->
   exists b', readByte b = Ret (10, b')
              /\ b_eof b' = true /\ pending b' = []
              /\ b_offset b' = b_offset b)
  /\ (b_allowEOF b = false ->
      readByte b = Panic "malformed PDF: reading at offset %d: %v").
Proof.
  intros Hoff Hbuf Hr.
  assert (Hrem : 0 <= Z.rem (b_offset b) bufcap < bufcap)
    by (apply Z.rem_bound_pos; unfold bufcap; lia).
  assert (E1 : (bufcap <? bufcap - Z.rem (b_offset b) bufcap) = false)
    by (apply Z.ltb_ge; lia).
  unfold readByte, reload.
  rewrite (proj2 (Z.leb_le _ _) Hbuf), E1, Hr.
  rewrite firstn_nil.
  split; intros Ha; rewrite Ha; [| reflexivity].
  eexists. split; [reflexivity |].
  split; [reflexivity |]. split; reflexivity.
Qed.

(** X10: reading at the end of the input.  With no byte buffered and none
    left in a reader that answers [io.EOF], [readByte] under [allowEOF]
    returns a line feed, marks the buffer [eof] and leaves the offset as it
    is; without [allowEOF] it panics. *)
Theorem readByte_at_end_of_input (b : pdfbuffer)
    (Hoff : 0 <= b_offset b)
    (Hbuf : len (b_buf b) <= b_pos b) (Hr : b_r b = ([], RdErr EOF)) :
  (b_allowEOF b = true ->
   exists b', readByte b = Ret (10, b')
              /\ b_eof b' = true /\ pending b' = []
              /\ b_offset b' = b_offset b)
  /\ (b_allowEOF b = false ->
      readByte b = Panic "malformed PDF: reading at offset %d: %v").
Proof. exact (readByte_end b Hoff Hbuf Hr). Qed.

(** ** The start of a token *)

(** [readToken] once the white space before a token is skipped: [c] is the
    first byte of the token and [b] the buffer behind it *)
Definition tokenFrom (fuel : nat) (c : byte) (b : pdfbuffer)
    : outcome (token * pdfbuffer) :=
  if c =? ch "<" then
    '(c', b) <- readByte b ;;
    if c' =? ch "<" then Ret (Okeyword "<<", b)
    else readHexString fuel (unreadByte b)
  else if c =? ch "(" then readLiteralString fuel b
  else if (c =? ch "[") || (c =? ch "]") || (c =? ch "{")
          || (c =? ch "}") then
    Ret (Okeyword (string_of_bytes [c]), b)
  else if c =? ch "/" then readName fuel b
  else if c =? ch ">" then
    '(c', b) <- readByte b ;;
    if c' =? ch ">" then Ret (Okeyword ">>", b)
    else Panic "unexpected delimiter %#q"
  else if isDelim c then Panic "unexpected delimiter %#q"
  else readKeyword fuel (unreadByte b).

Lemma skipSpace_spaces (c : byte) (rest : list byte) (ws : list byte) :
  isSpace c = false -> (c =? ch "%") = false ->
  forallb isSpace ws = true ->
  forall (c0 : byte) (b : pdfbuffer) (fuel : nat),
    isSpace c0 = true -> wf_buffer b -> b_eof b = false ->
    pending b = ws ++ c :: rest -> (List.length ws + 1 < fuel)%nat ->
    exists b', skipSpace fuel c0 b = Ret (Some c, b')
               /\ advances b (len ws + 1) rest b'
               /\ advances b (len ws) (c :: rest) (unreadByte b').
Proof.
  intros Hc Hpc. induction ws as [| w ws IH]; intros Hws c0 b fuel Hc0 W He Hp Hf.
  - cbn [app] in Hp.
    destruct (readByte_step b c rest W Hp) as (b1 & R1 & A1 & A1').
    exists b1. split; [| split; assumption].
    destruct fuel as [| [| fuel]]; cbn [List.length] in Hf; try lia.
    cbn [skipSpace]. rewrite Hc0, He, R1. cbn [bind]. rewrite Hc, Hpc.
    reflexivity.
  - cbn [app] in Hp. cbn [forallb] in Hws.
    apply andb_true_iff in Hws. destruct Hws as [Hw Hws].
    destruct (readByte_step b w (ws ++ c :: rest) W Hp)
      as (b1 & R1 & A1 & _).
    destruct fuel as [| fuel]; cbn [List.length] in Hf; [lia |].
    assert (He1 : b_eof b1 = false).
    { destruct A1 as (_ & _ & _ & S1). unfold sameSettings in S1.
      destruct S1 as (_ & _ & _ & _ & S5 & _). congruence. }
    destruct (IH Hws w b1 fuel Hw (proj1 A1) He1 (proj1 (proj2 A1)))
      as (b' & Hs & A2 & A2'); [lia |].
    exists b'. split.
    + cbn [skipSpace]. rewrite Hc0, He, R1. cbn [bind]. exact Hs.
    + rewrite len_cons.
      replace (1 + len ws + 1) with (1 + (len ws + 1)) by lia.
      split; eapply advances_trans; eassumption.
Qed.

(** a token after white space: [readToken] goes on as [tokenFrom] at the
    first byte that is no white space *)
Lemma readToken_after_spaces (ws : list byte) (c : byte) (rest : list byte)
    (b : pdfbuffer) (fuel : nat) :
  forallb isSpace ws = true -> isSpace c = false -> (c =? ch "%") = false ->
  wf_buffer b -> b_unread b = [] -> b_eof b = false ->
  pending b = ws ++ c :: rest -> (List.length ws + 1 < fuel)%nat ->
  exists b', readToken fuel b = tokenFrom fuel c b'
             /\ advances b (len ws + 1) rest b'
             /\ advances b (len ws) (c :: rest) (unreadByte b').
Proof.
  intros Hws Hc Hpc W Hu He Hp Hf.
  unfold readToken. rewrite Hu. cbn [rev].
  destruct ws as [| w ws].
  - cbn [app] in Hp.
    destruct (readByte_step b c rest W Hp) as (b1 & R1 & A1 & A1').
    exists b1. split; [| split; assumption].
    rewrite R1. cbn [bind].
    destruct fuel as [| fuel]; [lia |].
    cbn [skipSpace]. rewrite Hc, Hpc. reflexivity.
  - cbn [app] in Hp. cbn [forallb] in Hws.
    apply andb_true_iff in Hws. destruct Hws as [Hw Hws].
    destruct (readByte_step b w (ws ++ c :: rest) W Hp)
      as (b1 & R1 & A1 & _).
    assert (He1 : b_eof b1 = false).
    { destruct A1 as (_ & _ & _ & S1). unfold sameSettings in S1.
      destruct S1 as (_ & _ & _ & _ & S5 & _). congruence. }
    cbn [List.length] in Hf.
    destruct (skipSpace_spaces c rest ws Hc Hpc Hws w b1 fuel Hw (proj1 A1)
                He1 (proj1 (proj2 A1)))
      as (b' & Hs & A2 & A2'); [lia |].
    exists b'. split.
    + rewrite R1. cbn [bind]. rewrite Hs. reflexivity.
    + rewrite len_cons.
      replace (1 + len ws + 1) with (1 + (len ws + 1)) by lia.
      split; eapply advances_trans; eassumption.
Qed.

(** ** Literal strings with balanced parentheses *)

(** The depth of parentheses after the bytes [s], from [depth]; [None] when
    [s] holds a backslash or a parenthesis that closes the string. *)
Fixpoint nesting (depth : Z) (s : list byte) : option Z :=
  match s with
  | [] => Some depth
  | c :: s' =>
      if c =? ch "(" then nesting (depth + 1) s'
      else if c =? ch ")" then
        if depth - 1 =? 0 then None else nesting (depth - 1) s'
      else if c =? ch "\" then None
      else nesting depth s'
  end.

Lemma readLiteralString_loop_plain (rest : list byte) (s : list byte) :
  forall (depth : Z) (tmp : list byte) (b : pdfbuffer) (fuel : nat),
    wf_buffer b -> pending b = s ++ ch ")" :: rest ->
    nesting depth s = Some 1 -> (List.length s < fuel)%nat ->
    exists b',
      readLiteralString_loop fuel tmp depth b = Ret (Ostring (tmp ++ s), b')
      /\ advances b (len s + 1) rest b'.
Proof.
  induction s as [| c s IH]; intros depth tmp b fuel W Hp Hn Hf.
  - cbn [app] in Hp. cbn [nesting] in Hn. inversion Hn; subst depth.
    destruct (readByte_step b _ rest W Hp) as (b1 & R1 & A1 & _).
    exists b1. split; [| exact A1].
    destruct fuel as [| fuel]; [cbn [List.length] in Hf; lia |].
    cbn [readLiteralString_loop]. rewrite R1. cbn [bind].
    rewrite app_nil_r. reflexivity.
  - cbn [app] in Hp.
    destruct (readByte_step b c (s ++ ch ")" :: rest) W Hp)
      as (b1 & R1 & A1 & _).
    destruct fuel as [| fuel]; cbn [List.length] in Hf; [lia |].
    cbn [nesting] in Hn.
    assert (Hgo : forall d,
               nesting d s = Some 1 ->
               exists b',
                 readLiteralString_loop fuel (tmp ++ [c]) d b1
                 = Ret (Ostring (tmp ++ c :: s), b')
                 /\ advances b (len (c :: s) + 1) rest b').
    { intros d Hd.
      destruct (IH d (tmp ++ [c]) b1 fuel (proj1 A1) (proj1 (proj2 A1)) Hd)
        as (b' & Hl & A2); [lia |].
      exists b'. split.
      - rewrite Hl. rewrite <- app_assoc. reflexivity.
      - rewrite len_cons.
        replace (1 + len s + 1) with (1 + (len s + 1)) by lia.
        eapply advances_trans; eassumption. }
    cbn [readLiteralString_loop]. rewrite R1. cbn [bind].
    destruct (c =? ch "(") eqn:E1; [apply Hgo; exact Hn |].
    destruct (c =? ch ")") eqn:E2.
    { destruct (depth - 1 =? 0) eqn:E3; [discriminate Hn |].
      apply Hgo; exact Hn. }
    destruct (c =? ch "\") eqn:E3; [discriminate Hn |].
    apply Hgo; exact Hn.
Qed.

(** X11: a literal string without escapes.  After white space, the token
    read from "(", bytes [s] that hold no backslash and only balanced
    parentheses, and ")" is the string [s] itself, inner parentheses
    included; the buffer is then right behind the closing parenthesis. *)
Theorem readToken_literal_string (ws s rest : list byte) (b : pdfbuffer)
    (fuel : nat)
    (Hwf : wf_buffer b) (Hunread : b_unread b = []) (Heof : b_eof b = false)
    (Hws : forallb isSpace ws = true)
    (Hs : nesting 1 s = Some 1)
    (Hpend : pending b = ws ++ ch "(" :: s ++ ch ")" :: rest)
    (Hfuel : (List.length ws + List.length s + 1 < fuel)%nat) :
  exists b',
    readToken fuel b = Ret (Ostring s, b')
    /\ pending b' = rest
    /\ readOffset b' = readOffset b + len ws + len s + 2.
Proof.
  destruct (readToken_after_spaces ws (ch "(") (s ++ ch ")" :: rest) b fuel
              Hws eq_refl eq_refl Hwf Hunread Heof Hpend)
    as (b1 & Ht & A1 & _); [lia |].
  destruct (readLiteralString_loop_plain rest s 1 [] b1 fuel
              (proj1 A1) (proj1 (proj2 A1)) Hs)
    as (b' & Hl & A2); [lia |].
  exists b'. rewrite Ht.
  pose proof (advances_trans _ _ _ _ _ _ _ A1 A2) as (_ & P & O & _).
  split; [exact Hl |]. split; [exact P | lia].
Qed.

(** ** Names *)

(** a byte that neither ends a name or a keyword nor is white space *)
Definition regular (c : byte) : bool := negb (isDelim c || isSpace c).

(** what a name is written with: a regular byte other than "#", or "#" and
    two hex digits *)
Inductive nameItem : Type :=
| Plain (c : byte)
| Escaped (h1 h2 : byte).

Definition nameItem_ok (i : nameItem) : bool :=
  match i with
  | Plain c => regular c && negb (c =? ch "#")
  | Escaped h1 h2 => isHex h1 && isHex h2
  end.

Definition renderItem (i : nameItem) : list byte :=
  match i with
  | Plain c => [c]
  | Escaped h1 h2 => [ch "#"; h1; h2]
  end.

Definition itemValue (i : nameItem) : byte :=
  match i with
  | Plain c => c
  | Escaped h1 h2 => 16 * unhex h1 + unhex h2
  end.

Definition renderItems (l : list nameItem) : list byte :=
  List.concat (map renderItem l).

Lemma regular_inv (c : byte) :
  regular c = true -> isDelim c = false /\ isSpace c = false.
Proof.
  unfold regular. intros H. apply negb_true_iff in H.
  apply orb_false_iff in H. exact H.
Qed.

Lemma readName_loop_items (d : byte) (rest : list byte)
    (items : list nameItem) :
  isDelim d || isSpace d = true ->
  forallb nameItem_ok items = true ->
  forall (tmp : list byte) (b : pdfbuffer) (fuel : nat),
    wf_buffer b -> pending b = renderItems items ++ d :: rest ->
    (List.length items < fuel)%nat ->
    exists b',
      readName_loop fuel tmp b
      = Ret (Oname (string_of_bytes (tmp ++ map itemValue items)), b')
      /\ advances b (len (renderItems items)) (d :: rest) b'.
Proof.
  intros Hd. induction items as [| i items IH]; intros Hok tmp b fuel W Hp Hf.
  - cbn [renderItems map List.concat app] in Hp.
    destruct (readByte_step b d rest W Hp) as (b1 & R1 & _ & A1').
    exists (unreadByte b1). split; [| exact A1'].
    destruct fuel as [| fuel]; [cbn [List.length] in Hf; lia |].
    cbn [readName_loop]. rewrite R1. cbn [bind]. rewrite Hd.
    cbn [map]. rewrite app_nil_r. reflexivity.
  - cbn [forallb] in Hok. apply andb_true_iff in Hok.
    destruct Hok as [Hi Hok].
    destruct fuel as [| fuel]; cbn [List.length] in Hf; [lia |].
    unfold renderItems in Hp. cbn [map List.concat] in Hp.
    fold (renderItems items) in Hp. rewrite <- app_assoc in Hp.
    destruct i as [c | h1 h2]; cbn [renderItem app] in Hp;
      cbn [nameItem_ok] in Hi; apply andb_true_iff in Hi;
      destruct Hi as [Hi1 Hi2].
    + apply regular_inv in Hi1. destruct Hi1 as [Hdel Hsp].
      apply negb_true_iff in Hi2.
      destruct (readByte_step b c _ W Hp) as (b1 & R1 & A1 & _).
      destruct (IH Hok (tmp ++ [c]) b1 fuel (proj1 A1) (proj1 (proj2 A1)))
        as (b' & Hl & A2); [lia |].
      exists b'. split.
      * cbn [readName_loop]. rewrite R1. cbn [bind].
        rewrite Hdel, Hsp, Hi2. cbn [orb]. rewrite Hl.
        cbn [map itemValue]. rewrite <- app_assoc. reflexivity.
      * unfold renderItems. cbn [map List.concat renderItem].
        fold (renderItems items). rewrite len_app.
        change (len [c]) with 1.
        eapply advances_trans; eassumption.
    + destruct (readByte_step b _ _ W Hp) as (b1 & R1 & A1 & _).
      destruct (readByte_step b1 h1 _ (proj1 A1) (proj1 (proj2 A1)))
        as (b2 & R2 & A2 & _).
      destruct (readByte_step b2 h2 _ (proj1 A2) (proj1 (proj2 A2)))
        as (b3 & R3 & A3 & _).
      pose proof (hexpair_value h1 h2 Hi1 Hi2) as Hv.
      pose proof (unhex_range h1 Hi1) as Hr1.
      pose proof (unhex_range h2 Hi2) as Hr2.
      destruct (IH Hok (tmp ++ [hexpair h1 h2]) b3 fuel
                  (proj1 A3) (proj1 (proj2 A3)))
        as (b' & Hl & A4); [lia |].
      exists b'. split.
      * cbn [readName_loop]. rewrite R1. cbn [bind].
        change (isDelim (ch "#") || isSpace (ch "#")) with false.
        change (ch "#" =? ch "#") with true. cbn iota.
        rewrite R2. cbn [bind]. rewrite R3. cbn [bind].
        destruct (hexpair h1 h2 <? 0) eqn:En;
          [apply Z.ltb_lt in En; lia |].
        replace (to_byte (hexpair h1 h2)) with (hexpair h1 h2)
          by (unfold to_byte; rewrite Z.mod_small; lia).
        rewrite Hl. cbn [map itemValue]. rewrite <- app_assoc.
        rewrite Hv. reflexivity.
      * unfold renderItems. cbn [map List.concat renderItem].
        fold (renderItems items). rewrite len_app.
        change (len [ch "#"; h1; h2]) with 3.
        replace (3 + len (renderItems items))
          with (1 + (1 + (1 + len (renderItems items)))) by lia.
        eapply advances_trans; [exact A1 |].
        eapply advances_trans; [exact A2 |].
        eapply advances_trans; [exact A3 | exact A4].
Qed.

(** X12: names.  After white space, the token read from "/", regular bytes
    and "#xx" escapes, and a delimiter or white space is the name made of
    the bytes and of the values of the escapes; the byte that ends the name
    is left in the input. *)
Theorem readToken_name (ws : list byte) (items : list nameItem) (d : byte)
    (rest : list byte) (b : pdfbuffer) (fuel : nat)
    (Hwf : wf_buffer b) (Hunread : b_unread b = []) (Heof : b_eof b = false)
    (Hws : forallb isSpace ws = true)
    (Hitems : forallb nameItem_ok items = true)
    (Hd : isDelim d || isSpace d = true)
    (Hpend : pending b = ws ++ ch "/" :: renderItems items ++ d :: rest)
    (Hfuel : (List.length ws + List.length items + 1 < fuel)%nat) :
  exists b',
    readToken fuel b = Ret (Oname (string_of_bytes (map itemValue items)), b')
    /\ pending b' = d :: rest
    /\ readOffset b' = readOffset b + len ws + 1 + len (renderItems items).
Proof.
  destruct (readToken_after_spaces ws (ch "/") _ b fuel
              Hws eq_refl eq_refl Hwf Hunread Heof Hpend)
    as (b1 & Ht & A1 & _); [lia |].
  destruct (readName_loop_items d rest items Hd Hitems [] b1 fuel
              (proj1 A1) (proj1 (proj2 A1)))
    as (b' & Hl & A2); [lia |].
  exists b'. rewrite Ht.
  pose proof (advances_trans _ _ _ _ _ _ _ A1 A2) as (_ & P & O & _).
  split; [exact Hl |]. split; [exact P | lia].
Qed.

(** ** Keywords and integers *)

Lemma tokenFrom_regular (fuel : nat) (c : byte) (b : pdfbuffer) :
  regular c = true -> tokenFrom fuel c b = readKeyword fuel (unreadByte b).
Proof.
  intros H. apply regular_inv in H. destruct H as [Hd _].
  unfold tokenFrom. rewrite Hd.
  unfold isDelim in Hd.
  repeat match goal with
         | H : _ || _ = false |- _ =>
             apply orb_false_iff in H; destruct H
         end.
  repeat match goal with
         | H : (c =? _) = false |- _ => rewrite H; clear H
         end.
  reflexivity.
Qed.

Lemma readKeyword_loop_regular (d : byte) (rest : list byte) (s : list byte) :
  isDelim d || isSpace d = true ->
  forallb regular s = true ->
  forall (tmp : list byte) (b : pdfbuffer) (fuel : nat),
    wf_buffer b -> pending b = s ++ d :: rest ->
    (List.length s < fuel)%nat ->
    exists b',
      readKeyword_loop fuel tmp b
      = (t <- readKeyword_classify (tmp ++ s) ;; Ret (t, b'))
      /\ advances b (len s) (d :: rest) b'.
Proof.
  intros Hd. induction s as [| c s IH]; intros Hs tmp b fuel W Hp Hf.
  - cbn [app] in Hp.
    destruct (readByte_step b d rest W Hp) as (b1 & R1 & _ & A1').
    exists (unreadByte b1). split; [| exact A1'].
    destruct fuel as [| fuel]; [cbn [List.length] in Hf; lia |].
    cbn [readKeyword_loop]. rewrite R1. cbn [bind]. rewrite Hd.
    rewrite app_nil_r. reflexivity.
  - cbn [forallb] in Hs. apply andb_true_iff in Hs. destruct Hs as [Hc Hs].
    apply regular_inv in Hc. destruct Hc as [Hdel Hsp].
    cbn [app] in Hp.
    destruct fuel as [| fuel]; cbn [List.length] in Hf; [lia |].
    destruct (readByte_step b c _ W Hp) as (b1 & R1 & A1 & _).
    destruct (IH Hs (tmp ++ [c]) b1 fuel (proj1 A1) (proj1 (proj2 A1)))
      as (b' & Hl & A2); [lia |].
    exists b'. split.
    + cbn [readKeyword_loop]. rewrite R1. cbn [bind].
      rewrite Hdel, Hsp. cbn [orb]. rewrite Hl.
      rewrite <- app_assoc. reflexivity.
    + rewrite len_cons. eapply advances_trans; eassumption.
Qed.

(** a word: regular bytes up to a delimiter or white space, behind white
    space; [readToken] classifies the bytes and leaves the byte that ends
    the word in the input *)
Lemma readToken_word (ws : list byte) (c : byte) (s : list byte) (d : byte)
    (rest : list byte) (b : pdfbuffer) (fuel : nat) :
  forallb isSpace ws = true -> forallb regular (c :: s) = true ->
  isDelim d || isSpace d = true ->
  wf_buffer b -> b_unread b = [] -> b_eof b = false ->
  pending b = ws ++ (c :: s) ++ d :: rest ->
  (List.length ws + List.length s + 2 < fuel)%nat ->
  exists b',
    readToken fuel b = (t <- readKeyword_classify (c :: s) ;; Ret (t, b'))
    /\ advances b (len ws + len (c :: s)) (d :: rest) b'.
Proof.
  intros Hws Hs Hd W Hu He Hp Hf.
  assert (Hc : regular c = true)
    by (cbn [forallb] in Hs; apply andb_true_iff in Hs; apply Hs).
  destruct (regular_inv c Hc) as [Hdel Hsp].
  assert (Hpc : (c =? ch "%") = false).
  { unfold isDelim in Hdel.
    repeat match goal with
           | H : _ || _ = false |- _ =>
               apply orb_false_iff in H; destruct H
           end.
    assumption. }
  cbn [app] in Hp.
  destruct (readToken_after_spaces ws c _ b fuel Hws Hsp Hpc W Hu He Hp)
    as (b1 & Ht & _ & A1'); [lia |].
  destruct (readKeyword_loop_regular d rest (c :: s) Hd Hs [] (unreadByte b1)
              fuel (proj1 A1') (proj1 (proj2 A1')))
    as (b' & Hl & A2); [cbn [List.length]; lia |].
  exists b'. split.
  - rewrite Ht, tokenFrom_regular by exact Hc. exact Hl.
  - eapply advances_trans; eassumption.
Qed.

Lemma isDigit_range (c : byte) : isDigit c = true -> 48 <= c <= 57.
Proof.
  unfold isDigit. intros H. apply andb_true_iff in H.
  destruct H as [A B]. apply Z.leb_le in A. apply Z.leb_le in B.
  change (ch "0") with 48 in A. change (ch "9") with 57 in B. lia.
Qed.

Lemma isDigit_cases (c : byte) :
  isDigit c = true ->
  c = 48 \/ c = 49 \/ c = 50 \/ c = 51 \/ c = 52 \/ c = 53 \/ c = 54
  \/ c = 55 \/ c = 56 \/ c = 57.
Proof. intros H. apply isDigit_range in H. lia. Qed.

Lemma isDigit_regular (c : byte) : isDigit c = true -> regular c = true.
Proof.
  intros H. apply isDigit_cases in H.
  decompose [or] H; subst; reflexivity.
Qed.

Lemma digits_regular (s : list byte) :
  forallb isDigit s = true -> forallb regular s = true.
Proof.
  induction s as [| c s IH]; intros H; [reflexivity |].
  cbn [forallb] in *. apply andb_true_iff in H. destruct H as [Hc Hs].
  rewrite (isDigit_regular c Hc), (IH Hs). reflexivity.
Qed.

(** the decimal digits of a number that starts with a digit or a "-" are
    neither [true] nor [false] *)
Lemma number_not_bool (c : byte) (s : list byte) :
  isDigit c = true \/ c = ch "-" ->
  String.eqb (string_of_bytes (c :: s)) "true" = false
  /\ String.eqb (string_of_bytes (c :: s)) "false" = false.
Proof.
  intros [H | H].
  - apply isDigit_cases in H. decompose [or] H; subst; split; reflexivity.
  - subst. split; reflexivity.
Qed.

Lemma classify_digits (c : byte) (s : list byte) :
  forallb isDigit (c :: s) = true -> digitsValue (c :: s) < 2 ^ 63 ->
  0 <= digitsValue (c :: s) ->
  readKeyword_classify (c :: s) = Ret (Oint64 (digitsValue (c :: s))).
Proof.
  intros Hd Hv H0.
  assert (Hc : isDigit c = true)
    by (cbn [forallb] in Hd; apply andb_true_iff in Hd; apply Hd).
  destruct (number_not_bool c s (or_introl Hc)) as [Ht Hf].
  unfold readKeyword_classify. rewrite Ht, Hf.
  assert (Hsign : dropSign (c :: s) = c :: s).
  { unfold dropSign. apply isDigit_cases in Hc.
    decompose [or] Hc; subst; reflexivity. }
  assert (Hneg : isNegative (c :: s) = false).
  { unfold isNegative. apply isDigit_cases in Hc.
    decompose [or] Hc; subst; reflexivity. }
  unfold isInteger, ParseInt. rewrite Hsign, Hneg, Hd.
  replace ((- 2 ^ 63 <=? digitsValue (c :: s))
           && (digitsValue (c :: s) <? 2 ^ 63)) with true; [reflexivity |].
  symmetry. apply andb_true_iff. split; [apply Z.leb_le | apply Z.ltb_lt]; lia.
Qed.

Lemma classify_negative (c : byte) (s : list byte) :
  forallb isDigit (c :: s) = true -> digitsValue (c :: s) <= 2 ^ 63 ->
  0 <= digitsValue (c :: s) ->
  readKeyword_classify (ch "-" :: c :: s)
  = Ret (Oint64 (- digitsValue (c :: s))).
Proof.
  intros Hd Hv H0.
  destruct (number_not_bool (ch "-") (c :: s) (or_intror eq_refl)) as [Ht Hf].
  unfold readKeyword_classify. rewrite Ht, Hf.
  change (dropSign (ch "-" :: c :: s)) with (c :: s).
  unfold isInteger, ParseInt.
  change (dropSign (ch "-" :: c :: s)) with (c :: s).
  change (isNegative (ch "-" :: c :: s)) with true.
  rewrite Hd.
  replace ((- 2 ^ 63 <=? - digitsValue (c :: s))
           && (- digitsValue (c :: s) <? 2 ^ 63)) with true; [reflexivity |].
  symmetry. apply andb_true_iff. split; [apply Z.leb_le | apply Z.ltb_lt]; lia.
Qed.

Lemma digitsValue_nonneg (s : list byte) :
  forallb isDigit s = true -> 0 <= digitsValue s.
Proof.
  unfold digitsValue.
  assert (G : forall acc, 0 <= acc -> forallb isDigit s = true ->
                          0 <= fold_left (fun a c => 10 * a + (c - ch "0")) s acc).
  { induction s as [| c s IH]; intros acc Ha Hs; [exact Ha |].
    cbn [forallb] in Hs. apply andb_true_iff in Hs. destruct Hs as [Hc Hs].
    cbn [fold_left]. apply IH; [| exact Hs].
    apply isDigit_range in Hc. change (ch "0") with 48. lia. }
  apply G. lia.
Qed.

(** X13: integers.  After white space, a word of decimal digits (behind an
    optional "-") that ends at a delimiter or white space is read as the
    integer the digits denote in base 10, negated behind "-", as long as
    that fits 64 bits; the byte that ends the word is left in the input.
    Digits that denote 2^63 or more make [readToken] panic. *)
Theorem readToken_integer (ws : list byte) (neg : bool) (c : byte)
    (s : list byte) (d : byte) (rest : list byte) (b : pdfbuffer) (fuel : nat)
    (Hwf : wf_buffer b) (Hunread : b_unread b = []) (Heof : b_eof b = false)
    (Hws : forallb isSpace ws = true)
    (Hdigits : forallb isDigit (c :: s) = true)
    (Hd : isDelim d || isSpace d = true)
    (Hfuel : (List.length ws + List.length s + 3 < fuel)%nat) :
  let sign := if neg then [ch "-"] else [] in
  let v := digitsValue (c :: s) in
  pending b = ws ++ (sign ++ c :: s) ++ d :: rest ->
  (v < 2 ^ 63 + (if neg then 1 else 0) ->
   exists b',
     readToken fuel b = Ret (Oint64 (if neg then - v else v), b')
     /\ pending b' = d :: rest
     /\ readOffset b' = readOffset b + len ws + len (sign ++ c :: s))
  /\ (neg = false -> 2 ^ 63 <= v ->
      readToken fuel b = Panic "invalid integer %s").
Proof.
  intros sign v Hpend.
  pose proof (digitsValue_nonneg (c :: s) Hdigits) as H0.
  pose proof (digits_regular (c :: s) Hdigits) as Hreg.
  destruct neg; subst sign; cbn [app] in Hpend.
  - split; [| intros Hn; discriminate Hn].
    intros Hv.
    destruct (readToken_word ws (ch "-") (c :: s) d rest b fuel Hws)
      as (b' & Ht & (_ & P & O & _)); try assumption;
      [cbn [List.length]; lia |].
    exists b'. rewrite Ht, classify_negative by (assumption || (fold v; lia)).
    cbn [bind]. fold v. split; [reflexivity |].
    split; [exact P | cbn [app]; lia].
  - split.
    + intros Hv.
      destruct (readToken_word ws c s d rest b fuel Hws)
        as (b' & Ht & (_ & P & O & _)); try assumption; [lia |].
      exists b'. rewrite Ht, classify_digits by (assumption || (fold v; lia)).
      cbn [bind]. fold v. split; [reflexivity |].
      split; [exact P | cbn [app]; lia].
    + intros _ Hv.
      destruct (readToken_word ws c s d rest b fuel Hws)
        as (b' & Ht & _); try assumption; [lia |].
      rewrite Ht.
      assert (Hc : isDigit c = true)
        by (cbn [forallb] in Hdigits; apply andb_true_iff in Hdigits;
            apply Hdigits).
      destruct (number_not_bool c s (or_introl Hc)) as [Htr Hfa].
      unfold readKeyword_classify. rewrite Htr, Hfa.
      assert (Hsign : dropSign (c :: s) = c :: s).
      { unfold dropSign. apply isDigit_cases in Hc.
        decompose [or] Hc; subst; reflexivity. }
      assert (Hneg : isNegative (c :: s) = false).
      { unfold isNegative. apply isDigit_cases in Hc.
        decompose [or] Hc; subst; reflexivity. }
      unfold isInteger, ParseInt. rewrite Hsign, Hneg, Hdigits.
      fold v.
      replace ((- 2 ^ 63 <=? v) && (v <? 2 ^ 63)) with false; [reflexivity |].
      symmetry. apply andb_false_iff. right. apply Z.ltb_ge. exact Hv.
Qed.

(** ** Indirect references (parser, "readObject") *)

Lemma classify_R : readKeyword_classify [ch "R"] = Ret (Okeyword "R").
Proof. reflexivity. Qed.

Lemma settings_of_advances (b b' : pdfbuffer) (k : Z) (rest : list byte) :
  advances b k rest b' -> b_unread b = [] -> b_eof b = false ->
  wf_buffer b' /\ b_unread b' = [] /\ b_eof b' = false
  /\ b_allowObjptr b' = b_allowObjptr b /\ b_key b' = b_key b.
Proof.
  intros (W & _ & _ & S) Hu He. unfold sameSettings in S.
  destruct S as (S1 & _ & S3 & _ & S5 & S6 & _).
  repeat split; try apply W; congruence.
Qed.

(** X14: an indirect reference.  Where references are allowed, the object
    read from two words of digits and the keyword [R], each behind white
    space, is the reference to the object of that number and generation,
    when the number is below 2^32 and the generation below 2^16; the byte
    that ends [R] is left in the input. *)
Theorem readObject_reference (ws0 : list byte) (c1 : byte) (s1 : list byte)
    (w1 : byte) (ws1 : list byte) (c2 : byte) (s2 : list byte)
    (w2 : byte) (ws2 : list byte) (d : byte) (rest : list byte)
    (b : pdfbuffer) (fuel : nat)
    (Hwf : wf_buffer b) (Hunread : b_unread b = []) (Heof : b_eof b = false)
    (Hallow : b_allowObjptr b = true)
    (Hws0 : forallb isSpace ws0 = true)
    (Hws1 : forallb isSpace (w1 :: ws1) = true)
    (Hws2 : forallb isSpace (w2 :: ws2) = true)
    (Hn1 : forallb isDigit (c1 :: s1) = true)
    (Hn2 : forallb isDigit (c2 :: s2) = true)
    (Hid : digitsValue (c1 :: s1) < 2 ^ 32)
    (Hgen : digitsValue (c2 :: s2) < 2 ^ 16)
    (Hd : isDelim d || isSpace d = true)
    (Hpend : pending b
             = ws0 ++ (c1 :: s1) ++ (w1 :: ws1) ++ (c2 :: s2)
                   ++ (w2 :: ws2) ++ ch "R" :: d :: rest)
    (Hfuel : (List.length (ws0 ++ s1 ++ ws1 ++ s2 ++ ws2) + 5 < fuel)%nat) :
  exists b',
    readObject fuel b
    = Ret (Oobjptr {| id := digitsValue (c1 :: s1);
                      gen := digitsValue (c2 :: s2) |}, b')
    /\ pending b' = d :: rest.
Proof.
  rewrite !length_app in Hfuel.
  destruct fuel as [| fuel]; [lia |].
  pose proof (digitsValue_nonneg _ Hn1) as H1.
  pose proof (digitsValue_nonneg _ Hn2) as H2.
  assert (Hsp : forall w ws, forallb isSpace (w :: ws) = true ->
                            isDelim w || isSpace w = true).
  { intros w ws H. cbn [forallb] in H. apply andb_true_iff in H.
    destruct H as [Hw _]. rewrite Hw. apply orb_true_r. }
  (* the object number *)
  destruct (readToken_word ws0 c1 s1 w1
              (ws1 ++ (c2 :: s2) ++ (w2 :: ws2) ++ ch "R" :: d :: rest)
              b fuel Hws0 (digits_regular _ Hn1) (Hsp _ _ Hws1)
              Hwf Hunread Heof Hpend)
    as (b1 & T1 & A1); [lia |].
  rewrite classify_digits in T1
    by (try assumption; change (2 ^ 63) with 9223372036854775808;
        change (2 ^ 32) with 4294967296 in Hid; lia).
  cbn [bind] in T1.
  destruct (settings_of_advances _ _ _ _ A1 Hunread Heof)
    as (W1 & U1 & E1 & Al1 & _).
  (* the generation *)
  destruct (readToken_word (w1 :: ws1) c2 s2 w2
              (ws2 ++ ch "R" :: d :: rest) b1 fuel Hws1
              (digits_regular _ Hn2) (Hsp _ _ Hws2) W1 U1 E1
              (proj1 (proj2 A1)))
    as (b2 & T2 & A2); [cbn [List.length]; lia |].
  rewrite classify_digits in T2
    by (try assumption; change (2 ^ 63) with 9223372036854775808;
        change (2 ^ 16) with 65536 in Hgen; lia).
  cbn [bind] in T2.
  destruct (settings_of_advances _ _ _ _ A2 U1 E1)
    as (W2 & U2 & E2 & _ & _).
  (* the keyword *)
  destruct (readToken_word (w2 :: ws2) (ch "R") [] d rest b2 fuel Hws2
              eq_refl Hd W2 U2 E2 (proj1 (proj2 A2)))
    as (b3 & T3 & A3); [cbn [List.length]; lia |].
  rewrite classify_R in T3. cbn [bind] in T3.
  exists b3. split; [| apply A3].
  cbn [readObject]. rewrite T1. cbn [bind].
  rewrite Al1, Hallow. cbn [negb].
  rewrite uint32_small by lia. rewrite Z.eqb_refl.
  rewrite T2. cbn [bind].
  replace (uint16 (digitsValue (c2 :: s2))) with (digitsValue (c2 :: s2))
    by (unfold uint16; rewrite Z.mod_small; lia).
  rewrite Z.eqb_refl. rewrite T3. cbn [bind].
  reflexivity.
Qed.

(** ** The end of the input *)

Lemma readByte_rdend (b b' : pdfbuffer) (c : byte) :
  readByte b = Ret (c, b') -> snd (b_r b') = snd (b_r b).
Proof.
  unfold readByte, reload. intros H.
  destruct (len (b_buf b) <=? b_pos b).
  - destruct (bufcap <? bufcap - Z.rem (b_offset b) bufcap);
      [discriminate H |].
    destruct (b_r b) as [data e] eqn:Er.
    destruct (firstn (Z.to_nat (bufcap - Z.rem (b_offset b) bufcap)) data).
    + destruct e as [[] |]; try discriminate H;
        destruct (b_allowEOF b); try discriminate H;
        cbn [bind set_input b_buf b_pos] in H;
        match type of H with
        | (if ?x then _ else _) = _ => destruct x
        end; inversion H; subst b'; reflexivity.
    + cbn [bind set_input b_buf b_pos] in H.
      match type of H with
      | (if ?x then _ else _) = _ => destruct x
      end; inversion H; subst b'; reflexivity.
  - cbn [bind] in H.
    match type of H with
    | (if ?x then _ else _) = _ => destruct x
    end; inversion H; subst b'; reflexivity.
Qed.

Lemma pending_nil (b : pdfbuffer) :
  wf_buffer b -> pending b = [] ->
  len (b_buf b) <= b_pos b /\ fst (b_r b) = [].
Proof.
  intros [[H1 H2] _] Hp. unfold pending in Hp.
  apply app_eq_nil in Hp. destruct Hp as [Hs Hr].
  split; [| exact Hr].
  apply (f_equal (@List.length Z)) in Hs. rewrite length_skipn in Hs.
  cbn [List.length] in Hs. unfold len. lia.
Qed.

Definition readPastEnd : string := "malformed PDF: reading at offset %d: %v".

Lemma skipSpace_to_end (ws : list byte) :
  forallb isSpace ws = true ->
  forall (c0 : byte) (b : pdfbuffer) (fuel : nat),
    isSpace c0 = true -> wf_buffer b -> b_eof b = false ->
    pending b = ws -> snd (b_r b) = RdErr EOF ->
    (List.length ws + 1 < fuel)%nat ->
    (b_allowEOF b = true ->
     exists b', skipSpace fuel c0 b = Ret (None, b') /\ b_eof b' = true)
    /\ (b_allowEOF b = false -> skipSpace fuel c0 b = Panic readPastEnd).
Proof.
  induction ws as [| w ws IH]; intros Hws c0 b fuel Hc0 W He Hp Hr Hf.
  - destruct (pending_nil b W Hp) as [Hb Hfst].
    assert (Hbr : b_r b = ([], RdErr EOF)).
    { destruct (b_r b) as [data e]. cbn in Hfst, Hr. subst. reflexivity. }
    destruct (readByte_end b (proj2 W) Hb Hbr) as [Hyes Hno].
    destruct fuel as [| [| fuel]]; cbn [List.length] in Hf; try lia.
    split; intros Ha.
    + destruct (Hyes Ha) as (b' & R & E' & _).
      exists b'. split; [| exact E'].
      cbn [skipSpace]. rewrite Hc0, He, R. cbn [bind].
      change (isSpace 10) with true. cbn iota. rewrite E'. reflexivity.
    + cbn [skipSpace]. rewrite Hc0, He, (Hno Ha). reflexivity.
  - cbn [forallb] in Hws. apply andb_true_iff in Hws.
    destruct Hws as [Hw Hws].
    destruct (readByte_step b w ws W Hp) as (b1 & R1 & A1 & _).
    destruct fuel as [| fuel]; cbn [List.length] in Hf; [lia |].
    pose proof (readByte_rdend _ _ _ R1) as Hr1.
    destruct A1 as (W1 & P1 & _ & S1). unfold sameSettings in S1.
    destruct S1 as (_ & Sa & _ & _ & Se & _).
    destruct (IH Hws w b1 fuel Hw W1) as [Hyes Hno];
      [congruence | exact P1 | congruence | lia |].
    split; intros Ha.
    + destruct Hyes as (b' & Hs & E'); [congruence |].
      exists b'. split; [| exact E'].
      cbn [skipSpace]. rewrite Hc0, He, R1. cbn [bind]. exact Hs.
    + cbn [skipSpace]. rewrite Hc0, He, R1. cbn [bind].
      apply Hno. congruence.
Qed.

(** X19: the end of the input.  When only white space is left in the input
    and the reader behind it answers [io.EOF], [readToken] under [allowEOF]
    returns the token [io.EOF] and marks the buffer [eof]; without
    [allowEOF] it panics on the read past the end. *)
Theorem readToken_at_end_of_input (ws : list byte) (b : pdfbuffer)
    (fuel : nat)
    (Hwf : wf_buffer b) (Hunread : b_unread b = []) (Heof : b_eof b = false)
    (Hws : forallb isSpace ws = true)
    (Hpend : pending b = ws) (Hr : snd (b_r b) = RdErr EOF)
    (Hfuel : (List.length ws + 1 < fuel)%nat) :
  (b_allowEOF b = true ->
   exists b', readToken fuel b = Ret (Oerror EOF, b') /\ b_eof b' = true)
  /\ (b_allowEOF b = false -> readToken fuel b = Panic readPastEnd).
Proof.
  unfold readToken. rewrite Hunread. cbn [rev].
  destruct ws as [| w ws].
  - destruct (pending_nil b Hwf Hpend) as [Hb Hfst].
    assert (Hbr : b_r b = ([], RdErr EOF)).
    { destruct (b_r b) as [data e]. cbn in Hfst, Hr. subst. reflexivity. }
    destruct (readByte_end b (proj2 Hwf) Hb Hbr) as [Hyes Hno].
    destruct fuel as [| fuel]; [cbn [List.length] in Hfuel; lia |].
    split; intros Ha.
    + destruct (Hyes Ha) as (b' & R & E' & _).
      exists b'. split; [| exact E'].
      rewrite R. cbn [bind skipSpace].
      change (isSpace 10) with true. cbn iota. rewrite E'. reflexivity.
    + rewrite (Hno Ha). reflexivity.
  - cbn [forallb] in Hws. apply andb_true_iff in Hws.
    destruct Hws as [Hw Hws'].
    destruct (readByte_step b w ws Hwf Hpend) as (b1 & R1 & A1 & _).
    pose proof (readByte_rdend _ _ _ R1) as Hr1.
    destruct A1 as (W1 & P1 & _ & S1). unfold sameSettings in S1.
    destruct S1 as (_ & Sa & _ & _ & Se & _).
    cbn [List.length] in Hfuel.
    destruct (skipSpace_to_end ws Hws' w b1 fuel Hw W1) as [Hyes Hno];
      [congruence | exact P1 | congruence | lia |].
    rewrite R1. cbn [bind].
    split; intros Ha.
    + destruct Hyes as (b' & Hs & E'); [congruence |].
      exists b'. rewrite Hs. split; [reflexivity | exact E'].
    + rewrite Hno by congruence. reflexivity.
Qed.

(** ** Escapes in literal strings *)

(** what a literal string is written with, parentheses apart: a plain byte,
    a one-letter escape, an octal escape of three digits, or a backslash at
    the end of a line *)
Inductive strItem : Type :=
| SPlain (c : byte)
| SEscape (c : byte)
| SOctal (d1 d2 d3 : byte)
| SContinue
| SContinueCRLF.

Definition isOctal (c : byte) : bool := (ch "0" <=? c) && (c <=? ch "7").

Definition octalValue (d1 d2 d3 : byte) : Z :=
  ((d1 - ch "0") * 8 + (d2 - ch "0")) * 8 + (d3 - ch "0").

Definition escapeValue (c : byte) : byte :=
  if c =? ch "n" then 10 else if c =? ch "r" then 13
  else if c =? ch "b" then 8 else if c =? ch "t" then 9
  else if c =? ch "f" then 12 else c.

Definition strItem_ok (i : strItem) : bool :=
  match i with
  | SPlain c =>
      negb (c =? ch "(") && negb (c =? ch ")") && negb (c =? ch "\")
  | SEscape c =>
      (c =? ch "n") || (c =? ch "r") || (c =? ch "b") || (c =? ch "t")
      || (c =? ch "f") || (c =? ch "(") || (c =? ch ")") || (c =? ch "\")
  | SOctal d1 d2 d3 =>
      isOctal d1 && isOctal d2 && isOctal d3
      && (octalValue d1 d2 d3 <=? 255)
  | SContinue | SContinueCRLF => true
  end.

Definition renderStrItem (i : strItem) : list byte :=
  match i with
  | SPlain c => [c]
  | SEscape c => [ch "\"; c]
  | SOctal d1 d2 d3 => [ch "\"; d1; d2; d3]
  | SContinue => [ch "\"; 10]
  | SContinueCRLF => [ch "\"; 13; 10]
  end.

Definition strItemValue (i : strItem) : list byte :=
  match i with
  | SPlain c => [c]
  | SEscape c => [escapeValue c]
  | SOctal d1 d2 d3 => [octalValue d1 d2 d3]
  | SContinue | SContinueCRLF => []
  end.

Definition renderStr (l : list strItem) : list byte :=
  List.concat (map renderStrItem l).

Definition strValue (l : list strItem) : list byte :=
  List.concat (map strItemValue l).

Lemma isOctal_range (c : byte) : isOctal c = true -> 48 <= c <= 55.
Proof.
  unfold isOctal. intros H. apply andb_true_iff in H. destruct H as [A B].
  apply Z.leb_le in A. apply Z.leb_le in B.
  change (ch "0") with 48 in A. change (ch "7") with 55 in B. lia.
Qed.

(** one step of the loop of [readLiteralString] on an item *)
Lemma readLiteralString_loop_item (i : strItem) (tail : list byte)
    (tmp : list byte) (b : pdfbuffer) (fuel : nat) :
  strItem_ok i = true ->
  wf_buffer b -> pending b = renderStrItem i ++ tail ->
  exists b',
    readLiteralString_loop (S fuel) tmp 1 b
    = readLiteralString_loop fuel (tmp ++ strItemValue i) 1 b'
    /\ advances b (len (renderStrItem i)) tail b'.
Proof.
  intros Hok W Hp.
  destruct i as [c | c | d1 d2 d3 | |];
    cbn [renderStrItem app] in Hp; cbn [strItem_ok] in Hok.
  - (* a plain byte *)
    apply andb_true_iff in Hok. destruct Hok as [Hok H3].
    apply andb_true_iff in Hok. destruct Hok as [H1 H2].
    apply negb_true_iff in H1. apply negb_true_iff in H2.
    apply negb_true_iff in H3.
    destruct (readByte_step b c tail W Hp) as (b1 & R1 & A1 & _).
    exists b1. split; [| exact A1].
    cbn [readLiteralString_loop]. rewrite R1. cbn [bind].
    rewrite H1, H2, H3. reflexivity.
  - (* a one-letter escape *)
    destruct (readByte_step b _ _ W Hp) as (b1 & R1 & A1 & _).
    destruct (readByte_step b1 c tail (proj1 A1) (proj1 (proj2 A1)))
      as (b2 & R2 & A2 & _).
    exists b2. split; [| apply (advances_trans _ _ _ _ _ _ _ A1 A2)].
    cbn [readLiteralString_loop]. rewrite R1. cbn [bind].
    change (ch "\" =? ch "(") with false.
    change (ch "\" =? ch ")") with false.
    change (ch "\" =? ch "\") with true. cbn iota.
    rewrite R2. cbn [bind strItemValue].
    repeat match goal with
           | H : _ || _ = true |- _ => apply orb_true_iff in H; destruct H
           end;
      match goal with
      | H : (c =? _) = true |- _ => apply Z.eqb_eq in H; subst c
      end; reflexivity.
  - (* an octal escape *)
    apply andb_true_iff in Hok. destruct Hok as [Hok Hv].
    apply andb_true_iff in Hok. destruct Hok as [Hok O3].
    apply andb_true_iff in Hok. destruct Hok as [O1 O2].
    apply Z.leb_le in Hv.
    pose proof (isOctal_range _ O1) as G1.
    pose proof (isOctal_range _ O2) as G2.
    pose proof (isOctal_range _ O3) as G3.
    destruct (readByte_step b _ _ W Hp) as (b1 & R1 & A1 & _).
    destruct (readByte_step b1 d1 _ (proj1 A1) (proj1 (proj2 A1)))
      as (b2 & R2 & A2 & _).
    destruct (readByte_step b2 d2 _ (proj1 A2) (proj1 (proj2 A2)))
      as (b3 & R3 & A3 & _).
    destruct (readByte_step b3 d3 _ (proj1 A3) (proj1 (proj2 A3)))
      as (b4 & R4 & A4 & _).
    exists b4. split.
    + cbn [readLiteralString_loop]. rewrite R1. cbn [bind].
      change (ch "\" =? ch "(") with false.
      change (ch "\" =? ch ")") with false.
      change (ch "\" =? ch "\") with true. cbn iota.
      rewrite R2. cbn [bind].
      change (ch "n") with 110. change (ch "r") with 114.
      change (ch "b") with 98. change (ch "t") with 116.
      change (ch "f") with 102. change (ch "(") with 40.
      change (ch ")") with 41. change (ch "\") with 92.
      change (ch "0") with 48. change (ch "7") with 55.
      repeat match goal with
             | |- context [d1 =? ?k] =>
                 replace (d1 =? k) with false
                   by (symmetry; apply Z.eqb_neq; lia)
             end.
      cbn [orb].
      replace ((48 <=? d1) && (d1 <=? 55)) with true
        by (symmetry; apply andb_true_iff; split; apply Z.leb_le; lia).
      cbn [readOctal]. rewrite R3. cbn [bind].
      change (ch "0") with 48. change (ch "7") with 55.
      replace ((d2 <? 48) || (55 <? d2)) with false
        by (symmetry; apply orb_false_iff; split; apply Z.ltb_ge; lia).
      rewrite R4. cbn [bind].
      replace ((d3 <? 48) || (55 <? d3)) with false
        by (symmetry; apply orb_false_iff; split; apply Z.ltb_ge; lia).
      cbn [readOctal bind].
      unfold octalValue in *. change (ch "0") with 48 in Hv.
      destruct (255 <? ((d1 - 48) * 8 + (d2 - 48)) * 8 + (d3 - 48)) eqn:E;
        [apply Z.ltb_lt in E; lia |].
      cbn [strItemValue]. unfold octalValue. change (ch "0") with 48.
      replace (to_byte (((d1 - 48) * 8 + (d2 - 48)) * 8 + (d3 - 48)))
        with (((d1 - 48) * 8 + (d2 - 48)) * 8 + (d3 - 48))
        by (unfold to_byte; rewrite Z.mod_small; lia).
      reflexivity.
    + change (len (renderStrItem (SOctal d1 d2 d3))) with (1 + (1 + (1 + 1))).
      eapply advances_trans; [exact A1 |].
      eapply advances_trans; [exact A2 |].
      eapply advances_trans; [exact A3 | exact A4].
  - (* backslash, line feed *)
    destruct (readByte_step b _ _ W Hp) as (b1 & R1 & A1 & _).
    destruct (readByte_step b1 10 tail (proj1 A1) (proj1 (proj2 A1)))
      as (b2 & R2 & A2 & _).
    exists b2. split; [| apply (advances_trans _ _ _ _ _ _ _ A1 A2)].
    cbn [readLiteralString_loop]. rewrite R1. cbn [bind].
    change (ch "\" =? ch "(") with false.
    change (ch "\" =? ch ")") with false.
    change (ch "\" =? ch "\") with true. cbn iota.
    rewrite R2. cbn [bind strItemValue]. rewrite app_nil_r. reflexivity.
  - (* backslash, carriage return, line feed *)
    destruct (readByte_step b _ _ W Hp) as (b1 & R1 & A1 & _).
    destruct (readByte_step b1 13 _ (proj1 A1) (proj1 (proj2 A1)))
      as (b2 & R2 & A2 & _).
    destruct (readByte_step b2 10 tail (proj1 A2) (proj1 (proj2 A2)))
      as (b3 & R3 & A3 & _).
    exists b3. split.
    + cbn [readLiteralString_loop]. rewrite R1. cbn [bind].
      change (ch "\" =? ch "(") with false.
      change (ch "\" =? ch ")") with false.
      change (ch "\" =? ch "\") with true. cbn iota.
      rewrite R2. cbn [bind]. 
      change (13 =? ch "n") with false. change (13 =? ch "r") with false.
      change (13 =? ch "b") with false. change (13 =? ch "t") with false.
      change (13 =? ch "f") with false.
      change ((13 =? ch "(") || (13 =? ch ")") || (13 =? ch "\")) with false.
      change (13 =? 13) with true. cbn iota.
      rewrite R3. cbn [bind strItemValue].
      change (10 =? 10) with true. cbn iota.
      rewrite app_nil_r. reflexivity.
    + change (len (renderStrItem SContinueCRLF)) with (1 + (1 + 1)).
      eapply advances_trans; [exact A1 |].
      eapply advances_trans; [exact A2 | exact A3].
Qed.

Lemma readLiteralString_loop_items (rest : list byte) (items : list strItem) :
  forallb strItem_ok items = true ->
  forall (tmp : list byte) (b : pdfbuffer) (fuel : nat),
    wf_buffer b -> pending b = renderStr items ++ ch ")" :: rest ->
    (List.length items < fuel)%nat ->
    exists b',
      readLiteralString_loop fuel tmp 1 b
      = Ret (Ostring (tmp ++ strValue items), b')
      /\ advances b (len (renderStr items) + 1) rest b'.
Proof.
  induction items as [| i items IH]; intros Hok tmp b fuel W Hp Hf.
  - cbn [renderStr map List.concat app] in Hp.
    destruct (readByte_step b _ rest W Hp) as (b1 & R1 & A1 & _).
    exists b1. split; [| exact A1].
    destruct fuel as [| fuel]; [cbn [List.length] in Hf; lia |].
    cbn [readLiteralString_loop]. rewrite R1. cbn [bind].
    unfold strValue. cbn [map List.concat]. rewrite app_nil_r. reflexivity.
  - cbn [forallb] in Hok. apply andb_true_iff in Hok.
    destruct Hok as [Hi Hok].
    destruct fuel as [| fuel]; cbn [List.length] in Hf; [lia |].
    unfold renderStr in Hp. cbn [map List.concat] in Hp.
    fold (renderStr items) in Hp. rewrite <- app_assoc in Hp.
    destruct (readLiteralString_loop_item i _ tmp b fuel Hi W Hp)
      as (b1 & Hstep & A1).
    destruct (IH Hok (tmp ++ strItemValue i) b1 fuel (proj1 A1)
                (proj1 (proj2 A1)))
      as (b' & Hl & A2); [lia |].
    exists b'. split.
    + rewrite Hstep, Hl. unfold strValue. cbn [map List.concat].
      rewrite <- app_assoc. reflexivity.
    + unfold renderStr. cbn [map List.concat]. fold (renderStr items).
      rewrite len_app.
      replace (len (renderStrItem i) + len (renderStr items) + 1)
        with (len (renderStrItem i) + (len (renderStr items) + 1)) by lia.
      eapply advances_trans; eassumption.
Qed.

(** X23: escapes in a literal string.  After white space, the token read
    from "(", a sequence of plain bytes, one-letter escapes ([\n \r \t \b
    \f], and [\( \) \\] for the byte itself), octal escapes of three digits
    up to [\377], and backslashes at the end of a line, and ")" is the
    string of the plain bytes and of the bytes the escapes stand for; a
    backslash at the end of a line adds nothing. *)
Theorem readToken_escaped_string (ws : list byte) (items : list strItem)
    (rest : list byte) (b : pdfbuffer) (fuel : nat)
    (Hwf : wf_buffer b) (Hunread : b_unread b = []) (Heof : b_eof b = false)
    (Hws : forallb isSpace ws = true)
    (Hitems : forallb strItem_ok items = true)
    (Hpend : pending b = ws ++ ch "(" :: renderStr items ++ ch ")" :: rest)
    (Hfuel : (List.length ws + List.length items + 1 < fuel)%nat) :
  exists b',
    readToken fuel b = Ret (Ostring (strValue items), b')
    /\ pending b' = rest
    /\ readOffset b' = readOffset b + len ws + len (renderStr items) + 2.
Proof.
  destruct (readToken_after_spaces ws (ch "(") _ b fuel
              Hws eq_refl eq_refl Hwf Hunread Heof Hpend)
    as (b1 & Ht & A1 & _); [lia |].
  destruct (readLiteralString_loop_items rest items Hitems [] b1 fuel
              (proj1 A1) (proj1 (proj2 A1)))
    as (b' & Hl & A2); [lia |].
  exists b'. rewrite Ht.
  pose proof (advances_trans _ _ _ _ _ _ _ A1 A2) as (_ & P & O & _).
  split; [exact Hl |]. split; [exact P | lia].
Qed.

(** ** Comments *)

Definition isNewlineByte (c : byte) : bool := (c =? 13) || (c =? 10).

Lemma skipComment_text (nl : byte) (rest : list byte) (text : list byte) :
  isNewlineByte nl = true ->
  forallb (fun c => negb (isNewlineByte c)) text = true ->
  forall (c0 : byte) (b : pdfbuffer) (fuel : nat),
    isNewlineByte c0 = false -> wf_buffer b ->
    pending b = text ++ nl :: rest -> (List.length text < fuel)%nat ->
    exists b', skipComment fuel c0 b = Ret (nl, b')
               /\ advances b (len text + 1) rest b'.
Proof.
  intros Hnl. induction text as [| t text IH];
    intros Ht c0 b fuel Hc0 W Hp Hf.
  - cbn [app] in Hp.
    destruct (readByte_step b nl rest W Hp) as (b1 & R1 & A1 & _).
    exists b1. split; [| exact A1].
    destruct fuel as [| [| fuel]]; cbn [List.length] in Hf; try lia.
    + cbn [skipComment]. unfold isNewlineByte in Hc0. rewrite Hc0.
      rewrite R1. cbn [bind].
      unfold isNewlineByte in Hnl. rewrite Hnl. reflexivity.
    + cbn [skipComment]. unfold isNewlineByte in Hc0. rewrite Hc0.
      rewrite R1. cbn [bind].
      unfold isNewlineByte in Hnl. rewrite Hnl. reflexivity.
  - cbn [forallb] in Ht. apply andb_true_iff in Ht. destruct Ht as [Ht1 Ht].
    apply negb_true_iff in Ht1. cbn [app] in Hp.
    destruct (readByte_step b t _ W Hp) as (b1 & R1 & A1 & _).
    destruct fuel as [| fuel]; cbn [List.length] in Hf; [lia |].
    destruct (IH Ht t b1 fuel Ht1 (proj1 A1) (proj1 (proj2 A1)))
      as (b' & Hs & A2); [lia |].
    exists b'. split.
    + cbn [skipComment]. unfold isNewlineByte in Hc0. rewrite Hc0.
      rewrite R1. cbn [bind]. exact Hs.
    + rewrite len_cons.
      replace (1 + len text + 1) with (1 + (len text + 1)) by lia.
      eapply advances_trans; eassumption.
Qed.

Lemma newline_is_space (c : byte) : isNewlineByte c = true -> isSpace c = true.
Proof.
  unfold isNewlineByte, isSpace. intros H. apply orb_true_iff in H.
  destruct H as [H | H]; apply Z.eqb_eq in H; subst; reflexivity.
Qed.

(** X24: a comment.  From "%" to the end of the line the input is skipped,
    and so is the white space after it: the token read from a comment, a
    line feed or carriage return, white space and a name is the name. *)
Theorem readToken_after_comment (text : list byte) (nl : byte)
    (ws : list byte) (items : list nameItem) (d : byte) (rest : list byte)
    (b : pdfbuffer) (fuel : nat)
    (Hwf : wf_buffer b) (Hunread : b_unread b = []) (Heof : b_eof b = false)
    (Htext : forallb (fun c => negb (isNewlineByte c)) text = true)
    (Hnl : isNewlineByte nl = true)
    (Hws : forallb isSpace ws = true)
    (Hitems : forallb nameItem_ok items = true)
    (Hd : isDelim d || isSpace d = true)
    (Hpend : pending b
             = ch "%" :: text ++ nl :: ws ++ ch "/" :: renderItems items
                   ++ d :: rest)
    (Hfuel : (List.length text + List.length ws + List.length items + 4
              < fuel)%nat) :
  exists b',
    readToken fuel b = Ret (Oname (string_of_bytes (map itemValue items)), b')
    /\ pending b' = d :: rest.
Proof.
  destruct (readByte_step b _ _ Hwf Hpend) as (b1 & R1 & A1 & _).
  destruct fuel as [| f1]; [lia |].
  destruct (skipComment_text nl _ text Hnl Htext (ch "%") b1 f1 eq_refl
              (proj1 A1) (proj1 (proj2 A1)))
    as (b2 & Hc & A2); [lia |].
  destruct (settings_of_advances _ _ _ _ A1 Hunread Heof)
    as (_ & U1 & E1 & _).
  destruct (settings_of_advances _ _ _ _ A2 U1 E1) as (W2 & U2 & E2 & _).
  destruct (skipSpace_spaces (ch "/") _ ws eq_refl eq_refl Hws nl b2 f1
              (newline_is_space nl Hnl) W2 E2 (proj1 (proj2 A2)))
    as (b3 & Hs & A3 & _); [lia |].
  destruct (readName_loop_items d rest items Hd Hitems [] b3 (S f1)
              (proj1 A3) (proj1 (proj2 A3)))
    as (b' & Hl & A4); [lia |].
  exists b'. split; [| apply A4].
  unfold readToken. rewrite Hunread. cbn [rev]. rewrite R1. cbn [bind].
  cbn [skipSpace].
  change (isSpace (ch "%")) with false.
  change (ch "%" =? ch "%") with true. cbn iota.
  rewrite Hc. cbn [bind]. rewrite Hs. cbn [bind].
  exact Hl.
Qed.

(** ** Seeking forward *)

Lemma reload_ok (b b' : pdfbuffer) (ok : bool) :
  reload b = Ret (ok, b') ->
  (ok = true -> b_eof b' = b_eof b) /\ (ok = false -> b_eof b' = true).
Proof.
  unfold reload. intros H.
  destruct (bufcap <? bufcap - Z.rem (b_offset b) bufcap); [discriminate H |].
  destruct (b_r b) as [data e].
  destruct (firstn (Z.to_nat (bufcap - Z.rem (b_offset b) bufcap)) data).
  - destruct e as [[] |]; try discriminate H;
      destruct (b_allowEOF b); try discriminate H.
    inversion H; subst. split; [intros X; discriminate X | reflexivity].
  - inversion H; subst. split; [reflexivity | intros X; discriminate X].
Qed.

(** X25: [seekForward] reloads until the offset asked for is in the buffer
    and places the read index on it: when it returns without having met
    the end of the input, the offset read so far is the offset asked
    for. *)
Theorem seekForward_lands_on_offset (fuel : nat) :
  forall (b b' : pdfbuffer) (offset : Z),
    seekForward fuel b offset = Ret b' ->
    b_eof b = false -> b_eof b' = false ->
    readOffset b' = offset.
Proof.
  induction fuel as [| fuel IH]; intros b b' offset H He He'.
  - cbn [seekForward] in H.
    destruct (b_offset b <? offset); [discriminate H |].
    inversion H; subst b'.
    unfold readOffset, set_pos, set_input; cbn. lia.
  - cbn [seekForward] in H.
    destruct (b_offset b <? offset).
    + apply bind_Ret_inv in H. destruct H as [[ok b1] [Hr H]].
      destruct (reload_ok _ _ _ Hr) as [Hok Hno].
      destruct ok.
      * apply (IH b1 b' offset H); [rewrite (Hok eq_refl); exact He | exact He'].
      * inversion H; subst b'. rewrite (Hno eq_refl) in He'. discriminate He'.
    + inversion H; subst b'.
      unfold readOffset, set_pos, set_input; cbn. lia.
Qed.

(** * More of the fonts *)

(** ** The widths of a simple font (font.go, "FontFromValue") *)

(** X15: a font dictionary without [DescendantFonts] gets the CID width
    grabber with no range and the default width 0, whatever its
    [FirstChar], [LastChar] and [Widths] are: the width of every code is
    0. *)
Theorem fontWidthGrabber_simple_font (fuel : nat) (r : Reader)
    (ptr : pdfobjptr) (d : pdfdict)
    (Hd : map_get d "DescendantFonts" = Onil) :
  fontWidthGrabber (S fuel) r {| v_ptr := ptr; v_data := Odict d |}
  = Ret (CIDWidthGrabber [] [] float64_zero)
  /\ forall code,
       Width (CIDWidthGrabber [] [] float64_zero) code = Ret float64_zero.
Proof.
  split; [| reflexivity].
  unfold fontWidthGrabber, CreateCIDWidthGrabber, KeyV, Key, Key_with.
  cbn [v_data v_ptr]. rewrite Hd, resolve_nil. cbn [bind].
  reflexivity.
Qed.

(** ** An encoding dictionary without [Differences] *)

Section MoreDecode.

Variable nameToRune : string -> Z.

(** X16: with a [Differences] that is no array, or an empty one,
    [dictEncoder.Decode] is [nopEncoder.Decode]: every byte stands for the
    rune of its own value. *)
Theorem dictEncoder_without_Differences (fuel : nat) (r : Reader)
    (wg : WidthGrabber) (v : Value) (raw : list byte) :
  Len v = 0 ->
  dictEncoder_Decode nameToRune fuel r wg v raw = nopEncoder_Decode wg raw.
Proof.
  intros Hv. induction raw as [| c raw IH]; [reflexivity |].
  cbn [dictEncoder_Decode nopEncoder_Decode].
  rewrite Hv. cbn [Z.to_nat dictEncoder_rune bind].
  rewrite IH. reflexivity.
Qed.

End MoreDecode.

(** * More of the reader: loading an object *)

Lemma classify_obj : readKeyword_classify (bytes_of_string "obj") = Ret (Okeyword "obj").
Proof. reflexivity. Qed.

Lemma classify_endobj :
  readKeyword_classify (bytes_of_string "endobj") = Ret (Okeyword "endobj").
Proof. reflexivity. Qed.

Lemma space_ends_word (w : byte) (ws : list byte) :
  forallb isSpace (w :: ws) = true -> isDelim w || isSpace w = true.
Proof.
  intros H. cbn [forallb] in H. apply andb_true_iff in H.
  destruct H as [Hw _]. rewrite Hw. apply orb_true_r.
Qed.

(** the text of the definition of an integer object: number, generation,
    [obj], the digits of the value and [endobj], with white space between
    them *)
Record intObject : Type := {
  io_ws0 : list byte;
  io_id : list byte;  io_ws1 : list byte;
  io_gen : list byte; io_ws2 : list byte;
  io_ws3 : list byte;
  io_val : list byte; io_ws4 : list byte
}.

Definition intObject_ok (o : intObject) : bool :=
  forallb isSpace (io_ws0 o)
  && forallb isDigit (io_id o) && negb (len (io_id o) =? 0)
  && forallb isSpace (io_ws1 o) && negb (len (io_ws1 o) =? 0)
  && forallb isDigit (io_gen o) && negb (len (io_gen o) =? 0)
  && forallb isSpace (io_ws2 o) && negb (len (io_ws2 o) =? 0)
  && forallb isSpace (io_ws3 o) && negb (len (io_ws3 o) =? 0)
  && forallb isDigit (io_val o) && negb (len (io_val o) =? 0)
  && forallb isSpace (io_ws4 o) && negb (len (io_ws4 o) =? 0)
  && (digitsValue (io_id o) <? 2 ^ 32)
  && (digitsValue (io_gen o) <? 2 ^ 16)
  && (digitsValue (io_val o) <? 2 ^ 63).

Definition renderIntObject (o : intObject) : list byte :=
  io_ws0 o ++ io_id o ++ io_ws1 o ++ io_gen o ++ io_ws2 o
  ++ bytes_of_string "obj" ++ io_ws3 o ++ io_val o ++ io_ws4 o
  ++ bytes_of_string "endobj".

Definition intObject_ptr (o : intObject) : pdfobjptr :=
  {| id := digitsValue (io_id o); gen := digitsValue (io_gen o) |}.

Lemma nonempty_cons {A} (l : list A) :
  negb (len l =? 0) = true -> exists x l', l = x :: l'.
Proof.
  destruct l as [| x l']; [discriminate |]. intros _. eauto.
Qed.

Lemma set_objptr_same (b : pdfbuffer) (p : pdfobjptr) :
  (wf_buffer b -> wf_buffer (set_objptr b p))
  /\ pending (set_objptr b p) = pending b
  /\ b_unread (set_objptr b p) = b_unread b
  /\ b_eof (set_objptr b p) = b_eof b
  /\ b_allowObjptr (set_objptr b p) = b_allowObjptr b
  /\ b_key (set_objptr b p) = b_key b.
Proof.
  split; [intros W; exact W |].
  split; [reflexivity |]. split; [reflexivity |]. split; [reflexivity |].
  split; reflexivity.
Qed.

Lemma readObject_int_definition
    (ws0 : list byte) (c1 : byte) (s1 : list byte) (w1 : byte) (ws1 : list byte)
    (c2 : byte) (s2 : list byte) (w2 : byte) (ws2 : list byte)
    (w3 : byte) (ws3 : list byte) (c3 : byte) (s3 : list byte)
    (w4 : byte) (ws4 : list byte) (d : byte) (rest : list byte)
    (b : pdfbuffer) (fuel : nat) :
  forallb isSpace ws0 = true ->
  forallb isSpace (w1 :: ws1) = true -> forallb isSpace (w2 :: ws2) = true ->
  forallb isSpace (w3 :: ws3) = true -> forallb isSpace (w4 :: ws4) = true ->
  forallb isDigit (c1 :: s1) = true -> forallb isDigit (c2 :: s2) = true ->
  forallb isDigit (c3 :: s3) = true ->
  digitsValue (c1 :: s1) < 2 ^ 32 -> digitsValue (c2 :: s2) < 2 ^ 16 ->
  digitsValue (c3 :: s3) < 2 ^ 63 ->
  isDelim d || isSpace d = true ->
  wf_buffer b -> b_unread b = [] -> b_eof b = false ->
  b_allowObjptr b = true ->
  pending b
  = ws0 ++ (c1 :: s1) ++ (w1 :: ws1) ++ (c2 :: s2) ++ (w2 :: ws2)
        ++ bytes_of_string "obj" ++ (w3 :: ws3) ++ (c3 :: s3)
        ++ (w4 :: ws4) ++ bytes_of_string "endobj" ++ d :: rest ->
  (List.length (ws0 ++ s1 ++ ws1 ++ s2 ++ ws2 ++ ws3 ++ s3 ++ ws4) + 20
   < fuel)%nat ->
  exists b',
    readObject fuel b
    = Ret (Oobjdef {| id := digitsValue (c1 :: s1);
                      gen := digitsValue (c2 :: s2) |}
             (Oint64 (digitsValue (c3 :: s3))), b').
Proof.
  intros Hws0 Hws1 Hws2 Hws3 Hws4 Hn1 Hn2 Hn3 Hid Hgen Hval Hd W U E Al Hp Hf.
  rewrite !length_app in Hf.
  destruct fuel as [| f1]; [lia |].
  pose proof (digitsValue_nonneg _ Hn1) as P1.
  pose proof (digitsValue_nonneg _ Hn2) as P2.
  pose proof (digitsValue_nonneg _ Hn3) as P3.
  change (2 ^ 32) with 4294967296 in Hid.
  change (2 ^ 16) with 65536 in Hgen.
  (* the number *)
  destruct (readToken_word ws0 c1 s1 w1 _ b f1 Hws0 (digits_regular _ Hn1)
              (space_ends_word _ _ Hws1) W U E Hp)
    as (b1 & T1 & A1); [lia |].
  rewrite classify_digits in T1
    by (try assumption; change (2 ^ 63) with 9223372036854775808; lia).
  cbn [bind] in T1.
  destruct (settings_of_advances _ _ _ _ A1 U E) as (W1 & U1 & E1 & Al1 & _).
  (* the generation *)
  destruct (readToken_word (w1 :: ws1) c2 s2 w2 _ b1 f1 Hws1
              (digits_regular _ Hn2) (space_ends_word _ _ Hws2) W1 U1 E1
              (proj1 (proj2 A1)))
    as (b2 & T2 & A2); [cbn [List.length]; lia |].
  rewrite classify_digits in T2
    by (try assumption; change (2 ^ 63) with 9223372036854775808; lia).
  cbn [bind] in T2.
  destruct (settings_of_advances _ _ _ _ A2 U1 E1) as (W2 & U2 & E2 & Al2 & _).
  (* the keyword obj *)
  destruct (readToken_word (w2 :: ws2) (ch "o") (bytes_of_string "bj") w3 _
              b2 f1 Hws2 eq_refl (space_ends_word _ _ Hws3) W2 U2 E2
              (proj1 (proj2 A2)))
    as (b3 & T3 & A3);
    [change (List.length (bytes_of_string "bj")) with 2%nat;
     cbn [List.length]; lia |].
  change (ch "o" :: bytes_of_string "bj") with (bytes_of_string "obj") in T3.
  rewrite classify_obj in T3. cbn [bind] in T3.
  destruct (settings_of_advances _ _ _ _ A3 U2 E2) as (W3 & U3 & E3 & Al3 & _).
  (* the value, read with the pointer of the definition *)
  set (p := {| id := digitsValue (c1 :: s1); gen := digitsValue (c2 :: s2) |}).
  destruct (set_objptr_same b3 p) as (Wp & Pp & Up & Ep & Alp & _).
  destruct (settings_of_advances _ _ _ _ A3 U2 E2) as (_ & _ & _ & _ & _).
  assert (Hinner : exists b5,
             readObject f1 (set_objptr b3 p)
             = Ret (Oint64 (digitsValue (c3 :: s3)), b5)
             /\ exists b6, readToken f1 b5 = Ret (Okeyword "endobj", b6)).
  { destruct f1 as [| f2]; [lia |].
    destruct (readToken_word (w3 :: ws3) c3 s3 w4
                (ws4 ++ bytes_of_string "endobj" ++ d :: rest)
                (set_objptr b3 p) f2 Hws3
                (digits_regular _ Hn3) (space_ends_word _ _ Hws4) (Wp W3))
      as (b4 & T4 & A4);
      [congruence | congruence | rewrite Pp; exact (proj1 (proj2 A3))
       | cbn [List.length]; lia |].
    rewrite classify_digits in T4 by assumption.
    cbn [bind] in T4.
    destruct (settings_of_advances _ _ _ _ A4) as (W4 & U4 & E4 & Al4 & _);
      [congruence | congruence |].
    assert (Hend : forall fl, (List.length ws4 + 8 < fl)%nat ->
               exists b5, readToken fl b4 = Ret (Okeyword "endobj", b5)).
    { intros fl Hfl.
      destruct (readToken_word (w4 :: ws4) (ch "e") (bytes_of_string "ndobj")
                  d rest b4 fl Hws4 eq_refl Hd W4 U4 E4 (proj1 (proj2 A4)))
        as (b5 & T5 & _);
        [change (List.length (bytes_of_string "ndobj")) with 5%nat;
         cbn [List.length]; lia |].
      change (ch "e" :: bytes_of_string "ndobj")
        with (bytes_of_string "endobj") in T5.
      rewrite classify_endobj in T5. cbn [bind] in T5.
      exists b5. exact T5. }
    cbn [readObject]. rewrite T4. cbn [bind].
    rewrite Al4, Alp, Al3, Al2, Al1, Al. cbn [negb].
    destruct (uint32 (digitsValue (c3 :: s3)) =? digitsValue (c3 :: s3)).
    - destruct (Hend f2) as (b5 & T5); [lia |].
      rewrite T5. cbn [bind].
      eexists. split; [reflexivity |].
      eexists. apply readToken_pushed_back.
    - eexists. split; [reflexivity |]. apply Hend. lia. }
  destruct Hinner as (b5 & Hin & b6 & Hout).
  eexists.
  cbn [readObject]. rewrite T1. cbn [bind].
  rewrite Al1, Al. cbn [negb].
  rewrite uint32_small by lia. rewrite Z.eqb_refl.
  rewrite T2. cbn [bind].
  replace (uint16 (digitsValue (c2 :: s2))) with (digitsValue (c2 :: s2))
    by (unfold uint16; rewrite Z.mod_small; lia).
  rewrite Z.eqb_refl. rewrite T3. cbn [bind is_keyword].
  change (String.eqb "obj" "R") with false.
  change (String.eqb "obj" "obj") with true. cbn iota.
  fold p. rewrite Hin. cbn [bind]. rewrite Hout. cbn [bind is_keyword].
  change (String.eqb "endobj" "endobj") with true. cbn iota.
  reflexivity.
Qed.

Lemma readObject_intObject (o : intObject) (d : byte) (rest : list byte)
    (b : pdfbuffer) (fuel : nat) :
  intObject_ok o = true -> isDelim d || isSpace d = true ->
  wf_buffer b -> b_unread b = [] -> b_eof b = false ->
  b_allowObjptr b = true ->
  pending b = renderIntObject o ++ d :: rest ->
  (List.length (renderIntObject o) + 20 < fuel)%nat ->
  exists b',
    readObject fuel b
    = Ret (Oobjdef (intObject_ptr o) (Oint64 (digitsValue (io_val o))), b').
Proof.
  intros Hok Hd W U E Al Hp Hf.
  destruct o as [ws0 n1 ws1 n2 ws2 ws3 n3 ws4].
  unfold intObject_ok, renderIntObject, intObject_ptr in *.
  cbn [io_ws0 io_id io_ws1 io_gen io_ws2 io_ws3 io_val io_ws4] in *.
  repeat (apply andb_true_iff in Hok;
          let H := fresh "K" in destruct Hok as [Hok H]).
  destruct (nonempty_cons n1) as (c1 & s1 & ->); [assumption |].
  destruct (nonempty_cons ws1) as (w1 & ws1' & ->); [assumption |].
  destruct (nonempty_cons n2) as (c2 & s2 & ->); [assumption |].
  destruct (nonempty_cons ws2) as (w2 & ws2' & ->); [assumption |].
  destruct (nonempty_cons ws3) as (w3 & ws3' & ->); [assumption |].
  destruct (nonempty_cons n3) as (c3 & s3 & ->); [assumption |].
  destruct (nonempty_cons ws4) as (w4 & ws4' & ->); [assumption |].
  repeat match goal with
         | H : (_ <? _) = true |- _ => apply Z.ltb_lt in H
         end.
  rewrite !length_app in Hf. cbn [List.length] in Hf.
  apply (readObject_int_definition ws0 c1 s1 w1 ws1' c2 s2 w2 ws2' w3 ws3'
           c3 s3 w4 ws4' d rest b fuel); try assumption.
  - rewrite Hp. rewrite <- !app_assoc. reflexivity.
  - rewrite !length_app. lia.
Qed.

(** X18: loading an integer object.  When slot [id] of the xref table holds
    the pointer [(id, gen)] and the offset of a place in the file where the
    definition [id gen obj v endobj] of an integer stands (decimal digits,
    white space between the words, a delimiter or white space behind
    [endobj]), resolving the reference [(id, gen)] returns the integer [v],
    tagged with the pointer, and no error -- whatever the parent and
    whether or not the file is encrypted. *)
Theorem resolve_loads_integer (fuel : nat) (r : Reader) (parent : pdfobjptr)
    (pre : list byte) (o : intObject) (d : byte) (rest : list byte)
    (x : xref)
    (Hok : intObject_ok o = true)
    (Hd : isDelim d || isSpace d = true)
    (Hfile : r_f r = pre ++ renderIntObject o ++ d :: rest)
    (Hend : r_end r = len (r_f r))
    (Hsize : len (r_f r) < 2 ^ 63)
    (Hpre : pre <> [])
    (Hlen : len (r_xref r) < 2 ^ 32)
    (Hslot : id (intObject_ptr o) < len (r_xref r))
    (Hx : nthZ xref_zero (r_xref r) (id (intObject_ptr o)) = x)
    (Hptr : x_ptr x = intObject_ptr o)
    (Hin : x_inStream x = false)
    (Hoff : x_offset x = len pre)
    (Hfuel : (List.length (renderIntObject o) + 21 < fuel)%nat) :
  resolve fuel r parent (Oobjptr (intObject_ptr o))
  = Ret ({| v_ptr := intObject_ptr o;
            v_data := Oint64 (digitsValue (io_val o)) |}, None).
Proof.
  destruct fuel as [| f]; [lia |].
  cbn [resolve].
  pose proof (len_nonneg (r_xref r)) as Hx0.
  rewrite uint32_small by lia.
  destruct (len (r_xref r) <=? id (intObject_ptr o)) eqn:E1;
    [apply Z.leb_le in E1; lia |].
  rewrite Hx, Hptr, Hin, Hoff.
  assert (Hsame : pdfobjptr_eqb (intObject_ptr o) (intObject_ptr o) = true)
    by (apply pdfobjptr_eqb_eq; reflexivity).
  rewrite Hsame. cbn [negb orb andb].
  assert (Hpos : 0 < len pre).
  { destruct pre; [contradiction Hpre; reflexivity |].
    rewrite len_cons. pose proof (len_nonneg pre). lia. }
  destruct (len pre =? 0) eqn:E2; [apply Z.eqb_eq in E2; lia |].
  set (b0 := set_crypt _ _ _).
  assert (Hb0 : wf_buffer b0 /\ b_unread b0 = [] /\ b_eof b0 = false
                /\ b_allowObjptr b0 = true
                /\ pending b0 = renderIntObject o ++ d :: rest).
  { subst b0. unfold wf_buffer, pending, set_crypt, newPdfBuffer.
    cbn [b_pos b_buf b_offset b_unread b_eof b_allowObjptr b_r].
    split; [cbn; lia |]. split; [reflexivity |]. split; [reflexivity |].
    split; [reflexivity |].
    cbn [Z.to_nat skipn app].
    rewrite Hend, Hfile. rewrite !len_app.
    replace (len pre + (len (renderIntObject o) + len (d :: rest)) - len pre)
      with (len (renderIntObject o ++ d :: rest)) by (rewrite len_app; lia).
    assert (Hn : 0 < len (renderIntObject o ++ d :: rest)).
    { rewrite len_app, len_cons.
      pose proof (len_nonneg (renderIntObject o)).
      pose proof (len_nonneg rest). lia. }
    rewrite int64_small.
    2:{ rewrite Hfile in Hsize. rewrite !len_app in Hsize.
        rewrite len_app. pose proof (len_nonneg pre).
        pose proof (len_nonneg (renderIntObject o)).
        pose proof (len_nonneg (d :: rest)).
        change (2 ^ 63) with 9223372036854775808 in *. lia. }
    unfold NewSectionReader.
    destruct (len (renderIntObject o ++ d :: rest) <=? 0) eqn:E3;
      [apply Z.leb_le in E3; lia |].
    destruct (len pre <? 0) eqn:E4; [apply Z.ltb_lt in E4; lia |].
    cbn [fst]. unfold len. rewrite !Nat2Z.id.
    rewrite skipn_app, skipn_all, Nat.sub_diag. cbn [app skipn].
    apply firstn_all. }
  destruct Hb0 as (W & U & E & Al & P).
  destruct (readObject_intObject o d rest b0 f Hok Hd W U E Al P)
    as (b' & Hr); [lia |].
  rewrite Hr. cbn [bind]. rewrite Hsame. reflexivity.
Qed.

(** ** What [resolve] returns *)

(** the objects a [Value] can hold: no reference, no definition, no keyword *)
Definition isValueData (x : pdfobject) : bool :=
  match x with
  | Oobjptr _ | Oobjdef _ _ | Okeyword _ | Oerror _ => false
  | _ => true
  end.

Definition resolved (v : Value) (e : option error) : Prop :=
  match e with
  | None => isValueData (v_data v) = true
  | Some err =>
      v = Value_zero
      /\ (err = ErrObjectOutOfBounds \/ err = ErrUnexpectedValueType
          \/ err = ErrNotAStream)
  end.

Lemma resolveWrap_resolved (p : pdfobjptr) (x : pdfobject) :
  resolved (fst (resolveWrap p x)) (snd (resolveWrap p x)).
Proof. destruct x; cbn; auto. Qed.

(** X20: whatever [resolve] is given, a call that returns gives either a
    value and no error -- null, a boolean, a number, a string, a name, a
    dictionary, an array or a stream, never a reference, a definition or a
    keyword -- or the zero Value with one of the errors
    ErrObjectOutOfBounds, ErrUnexpectedValueType and ErrNotAStream. *)
Theorem resolve_returns_values (fuel : nat) (r : Reader) :
  forall (parent : pdfobjptr) (x : pdfobject) (v : Value) (e : option error),
    resolve fuel r parent x = Ret (v, e) -> resolved v e.
Proof.
  induction fuel as [| fuel IH]; intros parent x v e H; [discriminate H |].
  assert (Hwrap : forall p y, Ret (resolveWrap p y) = Ret (v, e) ->
                              resolved v e).
  { intros p y Hy. inversion Hy as [Hy'].
    pose proof (resolveWrap_resolved p y) as Hres.
    rewrite Hy' in Hres. exact Hres. }
  destruct x; cbn [resolve] in H; try (apply (Hwrap _ _ H)).
  repeat step_ret; try (cbn; auto; fail).
  - match goal with
    | Hs : resolve fuel r _ _ = Ret (_, Some _) |- _ =>
        apply IH in Hs; destruct Hs as [_ Hs]; cbn; auto
    end.
  - match goal with
    | Hw : resolveWrap _ _ = _ |- _ =>
        eapply Hwrap; rewrite Hw; reflexivity
    end.
  - match goal with
    | Hs : objstmSearch _ _ _ _ _ = Ret (inr _) |- _ =>
        apply objstmSearch_inr in Hs; inversion Hs; cbn; auto
    end.
  - match goal with
    | Hw : resolveWrap _ _ = _ |- _ =>
        eapply Hwrap; rewrite Hw; reflexivity
    end.
Qed.

End Libraries.

(** * Runs on concrete files

    The libraries of the runs below: none of the files holds a compressed or
    an AES-encrypted stream, and no xref stream makes [append] grow a
    slice. *)

Definition noZlib : reader -> reader + error := fun _ => inr ErrUnexpectedEOF.
Definition idAES : list byte -> list byte -> list byte := fun _ b => b.
Definition growDouble : Z -> Z := fun c => 2 * c + 1.

(** A page tree of two levels: the [MediaBox] is on the [Pages] node. *)
Definition twoLevelFile : list byte := bytes_of_string
"%PDF-1.4
1 0 obj
<< /Type /Catalog /Pages 2 0 R >>
endobj
2 0 obj
<< /Type /Pages /Kids [3 0 R] /Count 1 /MediaBox [0 0 612 792] >>
endobj
3 0 obj
<< /Type /Page /Parent 2 0 R >>
endobj
xref
0 4
0000000000 65535 f
0000000009 00000 n
0000000058 00000 n
0000000139 00000 n
trailer
<< /Size 4 /Root 1 0 R >>
startxref
186
%%EOF
".


(** An updated file: the update replaces object 1. *)
Definition rewrittenFile : list byte := bytes_of_string
"%PDF-1.4
1 0 obj
<< /Type /Catalog >>
endobj
xref
0 2
0000000000 65535 f
0000000009 00000 n
trailer
<< /Size 2 /Root 1 0 R >>
startxref
45
%%EOF
1 0 obj
<< /Type /Catalog /Lang (en) >>
endobj
xref
1 1
0000000145 00000 n
trailer
<< /Size 2 /Root 1 0 R /Prev 45 >>
startxref
192
%%EOF
".

(** A file encrypted with the standard handler (V 1, R 2, 40-bit key) and the
    user password "test". *)
Definition encryptedFile : list byte := bytes_of_string
"%PDF-1.4
1 0 obj
<< /Type /Catalog >>
endobj
xref
0 2
0000000000 65535 f
0000000009 00000 n
trailer
<< /Size 2 /Root 1 0 R /Encrypt << /Filter /Standard /V 1 /R 2 /O <0102030405060708090a0b0c0d0e0f101112131415161718191a1b1c1d1e1f20> /U <e3a9321567963c3a9d2fe3800ba45275ecb32a33f6ec6e3469cfddd9b22a67c0> /P -4 >> /ID [<6465666768696a6b6c6d6e6f70717273> <6465666768696a6b6c6d6e6f70717273>] >>
startxref
45
%%EOF
".

(** The encrypted file again, its cross-reference section an xref stream
    with [Index [0 2]] and fields of no byte. *)
Definition encryptedStreamFile : list byte := bytes_of_string
"%PDF-1.4
1 0 obj
<< /Type /XRef /Size 2 /W [0 0 0] /Index [0 2] /Encrypt << /Filter /Standard /V 1 /R 2 /O <0102030405060708090a0b0c0d0e0f101112131415161718191a1b1c1d1e1f20> /U <e3a9321567963c3a9d2fe3800ba45275ecb32a33f6ec6e3469cfddd9b22a67c0> /P -4 >> /ID [<6465666768696a6b6c6d6e6f70717273> <6465666768696a6b6c6d6e6f70717273>] >>
stream

endstream
endobj
startxref
9
%%EOF
".

(** The same file with the empty user password. *)
Definition unlockedFile : list byte := bytes_of_string
"%PDF-1.4
1 0 obj
<< /Type /Catalog >>
endobj
xref
0 2
0000000000 65535 f
0000000009 00000 n
trailer
<< /Size 2 /Root 1 0 R /Encrypt << /Filter /Standard /V 1 /R 2 /O <0102030405060708090a0b0c0d0e0f101112131415161718191a1b1c1d1e1f20> /U <8099f95319d6537aaee58f2ab676ef1037c7abcf4b0ea6837e63b3f34f6a95de> /P -4 >> /ID [<6465666768696a6b6c6d6e6f70717273> <6465666768696a6b6c6d6e6f70717273>] >>
startxref
45
%%EOF
".

(** The reader [NewReader] makes of a file, the zero reader if it fails. *)
Definition readerOf (f : list byte) : Reader :=
  match NewReader noZlib idAES growDouble 100 f (len f) with
  | Ret (Some r, _, _) => r
  | _ => newReader f 0
  end.

Definition entry (i g off : Z) : xref :=
  {| x_ptr := {| id := i; gen := g |}; x_inStream := false;
     x_stream := pdfobjptr_zero; x_offset := off |}.

Example twoLevelFile_xref :
  r_xref (readerOf twoLevelFile)
  = [xref_zero; entry 1 0 9; entry 2 0 58; entry 3 0 139].
Proof. vm_compute. reflexivity. Qed.

(** ** Cross-reference sections of an updated file *)


(** the buffer of [rewrittenFile] at its newest section, the keyword [xref]
    read *)
Definition rewrittenSection : pdfbuffer :=
  let b := newPdfBuffer (NewSectionReader rewrittenFile 192 91) 192 in
  match readToken 100 b with
  | Ret (_, b') => b'
  | _ => b
  end.

(** On [rewrittenFile] both sections hold a row [n] for object 1: the table
    has the one of the newest section. *)
Example rewrittenFile_xref :
  readXrefTable 100 (newReader rewrittenFile 283) rewrittenSection
  = Ret ([xref_zero; entry 1 0 145], pdfobjptr_zero,
         [("Prev", Oint64 45); ("Root", Oobjptr {| id := 1; gen := 0 |});
          ("Size", Oint64 2)], None).
Proof. vm_compute. reflexivity. Qed.

(** The header of an xref stream with fields of no byte: every entry is of
    type 1, at offset 0 and of generation 0. *)
Definition xrefStreamHeader (index w : list pdfobject) : pdfdict :=
  [("Index", Oarray index); ("W", Oarray w)].

Definition noWidths : list pdfobject := [Oint64 0; Oint64 0; Oint64 0].

Definition emptySlots : xrefSlice :=
  {| s_elems := [xref_zero; xref_zero; xref_zero]; s_cap := 3 |}.


(** [Index] is read whole, pair by pair: [[0 3]] fills the three slots, an
    [Index] of three elements is refused, and the widths are all summed
    up: with [W [1 2 1]] an entry has four bytes, which the stream does not
    hold. *)
Example readXrefStreamData_Index :
  let read hdr :=
    readXrefStreamData noZlib idAES growDouble 10 (newReader rewrittenFile 283)
      hdr pdfobjptr_zero 0 emptySlots 3 in
  read (xrefStreamHeader [Oint64 0; Oint64 3] noWidths)
  = Ret ({| s_elems := [xref_zero; entry 1 0 0; entry 2 0 0]; s_cap := 3 |},
         None)
  /\ read (xrefStreamHeader [Oint64 9; Oint64 0; Oint64 3] noWidths)
     = Ret (nilSlice, Some (Errorf "invalid Index array %v"))
  /\ read (xrefStreamHeader [Oint64 0; Oint64 3]
             [Oint64 1; Oint64 2; Oint64 1])
     = Ret (nilSlice, Some (Errorf "error reading xref stream: %v")).
Proof. vm_compute. split; [| split]; reflexivity. Qed.


(** ** References out of the table and to free slots *)

(** On the reader of [twoLevelFile] (a table of four slots): [7 0 R] is out
    of bounds, [0 65535 R] names the free slot 0, and [3 1 R] names slot 3 by
    another generation than the table holds. *)
Lemma resolve_out_of_bounds_or_free_twoLevelFile :
  let r := readerOf twoLevelFile in
  resolve noZlib idAES 1 r pdfobjptr_zero (Oobjptr {| id := 7; gen := 0 |})
  = Ret (Value_zero, Some ErrObjectOutOfBounds)
  /\ resolve noZlib idAES 1 r pdfobjptr_zero
       (Oobjptr {| id := 0; gen := 65535 |})
     = Ret (Value_zero, None)
  /\ resolve noZlib idAES 1 r pdfobjptr_zero
       (Oobjptr {| id := 3; gen := 1 |})
     = Ret (Value_zero, None).
Proof.
  intro r.
  assert (Hlen : len (r_xref r) < 2 ^ 32) by (vm_compute; reflexivity).
  split; [| split].
  - apply (resolve_out_of_bounds_or_free noZlib idAES 0 r pdfobjptr_zero
             {| id := 7; gen := 0 |} Hlen);
      vm_compute; discriminate.
  - apply (resolve_out_of_bounds_or_free noZlib idAES 0 r pdfobjptr_zero
             {| id := 0; gen := 65535 |} Hlen).
    + vm_compute; discriminate.
    + vm_compute; reflexivity.
    + left. left. vm_compute. reflexivity.
  - apply (resolve_out_of_bounds_or_free noZlib idAES 0 r pdfobjptr_zero
             {| id := 3; gen := 1 |} Hlen).
    + vm_compute; discriminate.
    + vm_compute; reflexivity.
    + right. vm_compute. discriminate.
Defined.

(** ** Inherited page attributes *)

Definition page3 : Value :=
  {| v_ptr := {| id := 3; gen := 0 |};
     v_data := Odict [("Parent", Oobjptr {| id := 2; gen := 0 |});
                      ("Type", Oname "Page")] |}.

Definition letterBox : pdfobject :=
  Oarray [Oint64 0; Oint64 0; Oint64 612; Oint64 792].

(** On [twoLevelFile], page 3 has no [MediaBox] and its parent has one. *)
Example twoLevelFile_parent_MediaBox :
  let r := readerOf twoLevelFile in
  resolve noZlib idAES 100 r pdfobjptr_zero (Oobjptr {| id := 3; gen := 0 |})
  = Ret (page3, None)
  /\ (parent <- KeyV noZlib idAES 100 r page3 "Parent" ;;
      KeyV noZlib idAES 100 r parent "MediaBox")
     = Ret {| v_ptr := {| id := 2; gen := 0 |}; v_data := letterBox |}.
Proof. split; vm_compute; reflexivity. Qed.

(** C4 at that page: [MediaBox] is what [Key] finds on the page itself, the
    null value, and not the box of the parent. *)
Lemma findInherited_page_only_twoLevelFile :
  MediaBox noZlib idAES 100 (readerOf twoLevelFile) {| p_V := page3 |}
  = Ret ({| v_ptr := {| id := 3; gen := 0 |}; v_data := Onil |}, None).
Proof.
  unfold MediaBox.
  rewrite (findInherited_page_only noZlib idAES 100
             (readerOf twoLevelFile) {| p_V := page3 |} "MediaBox").
  - vm_compute. reflexivity.
  - vm_compute. discriminate.
Defined.

(** ** Widths of a CID font *)

(** A composite font whose descendant has [W [1 [500 600]]] and [DW 1000],
    all of it direct objects. *)
Definition cidFont : Value :=
  {| v_ptr := pdfobjptr_zero;
     v_data :=
       Odict [("DescendantFonts",
               Oarray [Odict [("DW", Oint64 1000);
                              ("W", Oarray [Oint64 1;
                                            Oarray [Oint64 500; Oint64 600]])]]);
              ("Subtype", Oname "Type0");
              ("Type", Oname "Font")] |}.

(** C5 at that font: no CID width grabber is made, the font gets the default
    grabber with no widths, and code 1 has width 0 (not 500). *)
Lemma CreateCIDWidthGrabber_cidFont :
  CreateCIDWidthGrabber noZlib idAES 100 (newReader [] 0) cidFont = Ret None
  /\ fontWidthGrabber noZlib idAES 100 (newReader [] 0) cidFont
     = Ret (DefaultWidthGrabber 0 0 [])
  /\ Width (DefaultWidthGrabber 0 0 []) 1 = Ret float64_zero.
Proof.
  assert (H : CreateCIDWidthGrabber noZlib idAES 100 (newReader [] 0) cidFont
              = Ret None) by (vm_compute; reflexivity).
  destruct (CreateCIDWidthGrabber_never_parses_W noZlib idAES 100
              (newReader [] 0) cidFont None H) as (df & Hdf & Hnone & _).
  split; [exact H |].
  split; vm_compute; reflexivity.
Defined.

(** ** Arrays with a null element *)

Definition oneAndNull : Value :=
  {| v_ptr := pdfobjptr_zero; v_data := Oarray [Oint64 1; Onil] |}.

(** C9, as stated, fails at the array [[1 null]] and [i = 1]: [index(a, 0)]
    returns 1 with no error and [index(a, 1)] returns the null Value, the
    element itself, while the length is 2. *)
Lemma Len_iff_Index_null_element :
  ~ Len_iff_Index_claim noZlib idAES.
Proof.
  intros H.
  destruct (H 1%nat (newReader [] 0) oneAndNull 1 eq_refl (Z.le_refl 1))
    as [_ Hback].
  assert (Hlen : Len oneAndNull = 1); [| discriminate Hlen].
  apply Hback. split.
  - eexists. vm_compute. reflexivity.
  - exists Value_zero, None. split; vm_compute; reflexivity.
Qed.

(** The amended claim at the same array and [i = 2]. *)
Lemma Len_iff_Index_bounds_oneAndNull :
  Len oneAndNull = 2
  /\ Index noZlib idAES 1 (newReader [] 0) oneAndNull (2 - 1)
     <> Ret (Value_zero, Some ErrNotAValidStream)
  /\ Index noZlib idAES 1 (newReader [] 0) oneAndNull 2
     = Ret (Value_zero, Some ErrNotAValidStream).
Proof.
  assert (Hi : 1 <= 2) by lia.
  pose proof (Len_iff_Index_bounds noZlib idAES 1 (newReader [] 0)
                oneAndNull 2 eq_refl Hi) as [Hfwd _].
  split; [reflexivity |].
  apply Hfwd. reflexivity.
Defined.

(** ** Decoding with a width table *)

(** A font whose [Widths] has one entry for the codes 32 to 125.  (It names
    [DescendantFonts], or [FontFromValue] would give it the CID width
    grabber.) *)
Definition shortWidthsFont : Value :=
  {| v_ptr := pdfobjptr_zero;
     v_data :=
       Odict [("DescendantFonts", Oarray []);
              ("Encoding", Oname "WinAnsiEncoding");
              ("FirstChar", Oint64 32);
              ("LastChar", Oint64 126);
              ("Widths", Oarray [Oint64 500])] |}.

Definition shortWidths : WidthGrabber :=
  DefaultWidthGrabber 32 126 [float64_of_int64 500].

(** the tables of the runs: every byte stands for itself *)
Definition asciiTable : Z -> Z := fun c => c.

(** C10, as stated, fails at that font and the one byte "A": the width
    lookup of all three [Decode]s indexes [Widths] at 33 and panics. *)
Lemma Decode_short_Widths_panics :
  FontFromValue noZlib idAES asciiTable asciiTable asciiTable unit
    (fun _ _ _ _ => Ret None) 100 (newReader [] 0) shortWidthsFont
  = Ret {| f_V := shortWidthsFont;
           f_enc := byteEncoder unit shortWidthsFont shortWidths asciiTable |}
  /\ byteEncoder_Decode shortWidths asciiTable [65]
     = Panic "index out of range"
  /\ nopEncoder_Decode shortWidths [65] = Panic "index out of range"
  /\ dictEncoder_Decode noZlib idAES (fun _ => 0) 100 (newReader [] 0)
       shortWidths Value_zero [65]
     = Panic "index out of range".
Proof. split; [| split; [| split]]; vm_compute; reflexivity. Qed.

(** A width table for the codes 65 and 66, and a [Differences] array *)
Definition twoWidths : WidthGrabber :=
  DefaultWidthGrabber 65 67 [float64_of_int64 500; float64_of_int64 600].

Definition differences : Value :=
  {| v_ptr := pdfobjptr_zero;
     v_data := Oarray [Oint64 65; Oname "B"; Oname "A"] |}.

Definition glyphRune (n : string) : Z :=
  if String.eqb n "A" then 65 else if String.eqb n "B" then 66 else 0.

(** The amended claim at the bytes "AB!": three characters each. *)
Lemma Decode_one_char_per_byte_AB :
  let raw := [65; 66; 33] in
  let w500 := float64_of_int64 500 in
  let w600 := float64_of_int64 600 in
  byteEncoder_Decode twoWidths asciiTable raw
  = Ret [ {| Text := [65]; pc_Width := w500 |};
          {| Text := [66]; pc_Width := w600 |};
          {| Text := [33]; pc_Width := float64_zero |} ]
  /\ dictEncoder_Decode noZlib idAES glyphRune 100 (newReader [] 0)
       twoWidths differences raw
     = Ret [ {| Text := [66]; pc_Width := w600 |};
             {| Text := [65]; pc_Width := w500 |};
             {| Text := [33]; pc_Width := float64_zero |} ].
Proof.
  intros raw w500 w600.
  assert (Hwg : forall code, exists w, Width twoWidths code = Ret w).
  { apply DefaultWidthGrabber_total; [lia | lia | vm_compute; discriminate]. }
  assert (Hidx : forall j, 0 <= j < Len differences ->
                   exists x, IndexV noZlib idAES 100 (newReader [] 0)
                               differences j = Ret x).
  { intros j Hj. change (Len differences) with 3 in Hj.
    assert (E : j = 0 \/ j = 1 \/ j = 2) by lia.
    destruct E as [-> | [-> | ->]]; eexists; vm_compute; reflexivity. }
  destruct (Decode_one_char_per_byte noZlib idAES glyphRune 100
              (newReader [] 0) twoWidths asciiTable differences raw Hwg Hidx)
    as [(out1 & E1 & _) [_ (out3 & E3 & _)]].
  split.
  - rewrite E1. vm_compute in E1. inversion E1. reflexivity.
  - rewrite E3. vm_compute in E3. inversion E3. reflexivity.
Defined.

(** ** Hex strings *)

Definition lexerOn (s : string) : pdfbuffer :=
  newPdfBuffer (bytes_of_string s, RdErr EOF) 0.

(** C8, as stated, fails at [<abc>]: the lexer does not return the string of
    the bytes AB and C0, it panics on the pair of [c] and [>]. *)
Lemma readToken_odd_hex_string_panics :
  readToken 10 (lexerOn "<abc>") = Panic malformedHex
  /\ forall b', readToken 10 (lexerOn "<abc>") <> Ret (Ostring [171; 192], b').
Proof.
  assert (H : readToken 10 (lexerOn "<abc>") = Panic malformedHex)
    by (vm_compute; reflexivity).
  split; [exact H |].
  intros b' E. rewrite H in E. discriminate E.
Qed.

Definition pairAB : hexPair :=
  {| hp_w1 := []; hp_d1 := ch "a"; hp_w2 := [32]; hp_d2 := ch "B" |}.

Definition pair12 : hexPair :=
  {| hp_w1 := [10]; hp_d1 := ch "1"; hp_w2 := []; hp_d2 := ch "2" |}.

(** The amended claim at [<a B\n12 > x] and, with one more digit, at
    [<a B\n12 c> x]. *)
Lemma readToken_hex_string_two_pairs :
  (exists b',
      readToken 20 (lexerOn "<a B
12 > x")
      = Ret (Ostring [171; 18], b')
      /\ pending b' = bytes_of_string " x")
  /\ readToken 20 (lexerOn "<a B
12 c> x")
     = Panic malformedHex.
Proof.
  split.
  - apply (readToken_hex_string [pairAB; pair12] [32] (bytes_of_string " x")
             (lexerOn "<a B
12 > x") 20).
    + vm_compute. repeat split; discriminate.
    + reflexivity.
    + reflexivity.
    + reflexivity.
    + reflexivity.
    + vm_compute. lia.
  - apply (readToken_hex_string [pairAB; pair12] [32] (bytes_of_string " x")
             (lexerOn "<a B
12 c> x") 20)
      with (d := ch "c") (ws2 := []).
    + vm_compute. repeat split; discriminate.
    + reflexivity.
    + reflexivity.
    + reflexivity.
    + reflexivity.
    + reflexivity.
    + reflexivity.
    + vm_compute. lia.
Defined.

(** ** Three rows of the PNG "Up" predictor *)

Definition upRows : list (list byte) := [[1; 2]; [3; 4]; [255; 250]].

(** the three rows, each behind its filter byte 2, then a row of filter 0 *)
Definition upInput : reader :=
  (pngInput upRows ++ [0; 9; 9], RdErr EOF).

Definition upReader : pngUpReader :=
  {| png_r := upInput; png_hist := [0; 0; 0]; png_tmp := [0; 0; 0];
     png_pend := [] |}.

(** C7 at these rows.  Two reads of three bytes return the running sums
    modulo 256, the second going on where the first stopped; a read of four
    bytes and one of five return the six bytes and, with the last two, the
    error of the fourth row. *)
Lemma pngUpRead_cumulative_rows_upRows :
  newPngUpReader upInput 2 = Ret upReader
  /\ (exists r',
        pngUpReads upReader [3; 3]
        = Ret ([([1; 2; 4], None); ([6; 3; 0], None)], r'))
  /\ (exists r',
        pngUpReads upReader [4; 5]
        = Ret ([([1; 2; 4; 6], None); ([3; 0], Some malformedPngUp)], r')).
Proof.
  assert (Hrows : Forall (fun p : list byte => List.length p = 2%nat) upRows)
    by (repeat constructor).
  assert (Hcol : Z.of_nat 2 < 2 ^ 63 - 1) by (vm_compute; reflexivity).
  assert (H33 : Forall (fun n => 0 <= n) [3; 3])
    by (repeat constructor; lia).
  assert (H4 : Forall (fun n => 0 <= n) [4])
    by (repeat constructor; lia).
  assert (T33 : total [3; 3] <= Z.of_nat (2 * List.length upRows))
    by (vm_compute; discriminate).
  assert (T4 : total [4] <= Z.of_nat (2 * List.length upRows))
    by (vm_compute; discriminate).
  pose proof (pngUpRead_cumulative_rows 2 upRows [0; 9; 9] (RdErr EOF) [3; 3]
                Hcol Hrows H33 T33) as A.
  pose proof (pngUpRead_cumulative_rows 2 upRows [0; 9; 9] (RdErr EOF) [4]
                Hcol Hrows H4 T4) as B.
  cbv zeta in A, B.
  destruct A as (Hnew & Hread & _). destruct B as (_ & _ & Hbad).
  split; [exact Hnew |]. split.
  - exact Hread.
  - apply (Hbad 0 [9; 9] [] 5); [discriminate | reflexivity | reflexivity |].
    vm_compute. reflexivity.
Defined.

(** ** Opening encrypted files *)

(** what [openReader] makes of a file: the reader and the trailer *)
Definition opened (f : list byte) : Reader * pdfdict :=
  match openReader noZlib idAES growDouble 100 f (len f) with
  | Ret (Some p, _) => p
  | _ => (newReader f 0, [])
  end.

Definition badThenTest (k : nat) : list byte :=
  match k with
  | O => bytes_of_string "bad"
  | _ => bytes_of_string "test"
  end.

Definition badThenNothing (k : nat) : list byte :=
  match k with
  | O => bytes_of_string "bad"
  | _ => []
  end.

Example encryptedFile_attempts :
  let r := fst (opened encryptedFile) in
  (exists r', initEncrypt noZlib idAES 100 r []
              = Ret (Some ErrInvalidPassword, r'))
  /\ (exists r', initEncrypt noZlib idAES 100 r (bytes_of_string "bad")
                 = Ret (Some ErrInvalidPassword, r'))
  /\ (exists r', initEncrypt noZlib idAES 100 r (bytes_of_string "test")
                 = Ret (None, r')
                 /\ r_key r' = Some [55; 47; 144; 10; 192]).
Proof.
  intro r. split; [| split].
  - eexists. vm_compute. reflexivity.
  - eexists. vm_compute. reflexivity.
  - eexists. split; vm_compute; reflexivity.
Qed.

(** C6 on [unlockedFile], [encryptedFile] and [encryptedStreamFile]: the
    empty password opens the first with no call of the callback; the second
    fails with ErrInvalidPassword when there is no callback, opens at the
    second answer of [badThenTest], and fails at the second, empty answer of
    [badThenNothing]; the third, read through its xref stream, opens at the
    second answer of [badThenTest] as well. *)
Lemma NewReaderEncrypted_password_protocol_files :
  (exists r',
      NewReaderEncrypted noZlib idAES growDouble 100 unlockedFile
        (len unlockedFile) (Some badThenTest)
      = Ret (Some r', None, O))
  /\ NewReaderEncrypted noZlib idAES growDouble 100 encryptedFile
       (len encryptedFile) None
     = Ret (None, Some ErrInvalidPassword, O)
  /\ (exists r',
         NewReaderEncrypted noZlib idAES growDouble 100 encryptedFile
           (len encryptedFile) (Some badThenTest)
         = Ret (Some r', None, 2%nat)
         /\ r_key r' = Some [55; 47; 144; 10; 192])
  /\ NewReaderEncrypted noZlib idAES growDouble 100 encryptedFile
       (len encryptedFile) (Some badThenNothing)
     = Ret (None, Some ErrInvalidPassword, 2%nat)
  /\ (exists r',
         NewReaderEncrypted noZlib idAES growDouble 100 encryptedStreamFile
           (len encryptedStreamFile) (Some badThenTest)
         = Ret (Some r', None, 2%nat)
         /\ r_key r' = Some [55; 47; 144; 10; 192]).
Proof.
  assert (Hopen : forall f,
             f = unlockedFile \/ f = encryptedFile
             \/ f = encryptedStreamFile ->
             openReader noZlib idAES growDouble 100 f (len f)
             = Ret (Some (fst (opened f), snd (opened f)), None)
             /\ map_get (snd (opened f)) "Encrypt" <> Onil).
  { intros f [-> | [-> | ->]]; split; vm_compute;
      (reflexivity || discriminate). }
  destruct (Hopen unlockedFile (or_introl eq_refl)) as [Hu Hue].
  destruct (Hopen encryptedFile (or_intror (or_introl eq_refl))) as [He Hee].
  destruct (Hopen encryptedStreamFile (or_intror (or_intror eq_refl)))
    as [Hs Hse].
  pose proof (NewReaderEncrypted_password_protocol noZlib idAES growDouble
                100 unlockedFile (len unlockedFile) _ _ Hu Hue)
    as (Hempty & _ & _).
  pose proof (NewReaderEncrypted_password_protocol noZlib idAES growDouble
                100 encryptedFile (len encryptedFile) _ _ He Hee)
    as (_ & Hnone & Hloop).
  pose proof (NewReaderEncrypted_password_protocol noZlib idAES growDouble
                100 encryptedStreamFile (len encryptedStreamFile) _ _ Hs Hse)
    as (_ & _ & Hsloop).
  assert (Hsfirst : exists r0,
             initEncrypt noZlib idAES 100 (fst (opened encryptedStreamFile)) []
             = Ret (Some ErrInvalidPassword, r0))
    by (eexists; vm_compute; reflexivity).
  destruct Hsfirst as [rs0 Hsfirst].
  assert (Hsfail : forall pw, pw O = bytes_of_string "bad" ->
             answersFail noZlib idAES 100 (fst (opened encryptedStreamFile))
               pw 0 1).
  { intros pw Hpw j Hj. assert (j = O) by lia. subst j. rewrite Hpw.
    split; [discriminate |].
    eexists. eexists. vm_compute. reflexivity. }
  assert (Hfirst : exists r0,
             initEncrypt noZlib idAES 100 (fst (opened encryptedFile)) []
             = Ret (Some ErrInvalidPassword, r0))
    by (eexists; vm_compute; reflexivity).
  destruct Hfirst as [r0 Hfirst].
  assert (Hfail : forall pw, pw O = bytes_of_string "bad" ->
             answersFail noZlib idAES 100 (fst (opened encryptedFile)) pw 0 1).
  { intros pw Hpw j Hj. assert (j = O) by lia. subst j. rewrite Hpw.
    split; [discriminate |].
    eexists. eexists. vm_compute. reflexivity. }
  split; [| split; [| split; [| split]]].
  - eexists. apply Hempty. vm_compute. reflexivity.
  - apply (Hnone None ErrInvalidPassword r0 Hfirst). left. reflexivity.
  - destruct (Hloop badThenTest r0 1%nat Hfirst) as [_ Hok];
      [lia | apply Hfail; reflexivity |].
    eexists. split.
    + apply Hok; [discriminate | vm_compute; reflexivity].
    + reflexivity.
  - destruct (Hloop badThenNothing r0 1%nat Hfirst) as [Hstop _];
      [lia | apply Hfail; reflexivity |].
    apply Hstop. reflexivity.
  - destruct (Hsloop badThenTest rs0 1%nat Hsfirst) as [_ Hok];
      [lia | apply Hsfail; reflexivity |].
    eexists. split.
    + apply Hok; [discriminate | vm_compute; reflexivity].
    + reflexivity.
Defined.

(** * More runs on concrete inputs *)

(** A file whose object 1 is the integer 42 and whose object 2 is a stream
    of five bytes. *)
Definition streamFile : list byte := bytes_of_string
"%PDF-1.4
1 0 obj
42
endobj
2 0 obj
<< /Length 5 >>
stream
hello
endstream
endobj
xref
0 3
0000000000 65535 f
0000000009 00000 n
0000000027 00000 n
trailer
<< /Size 3 /Root 1 0 R >>
startxref
81
%%EOF
".

Definition helloStream : Value :=
  {| v_ptr := {| id := 2; gen := 0 |};
     v_data := Ostream [("Length", Oint64 5)] {| id := 2; gen := 0 |} 58 |}.

Example streamFile_objects :
  r_xref (readerOf streamFile) = [xref_zero; entry 1 0 9; entry 2 0 27]
  /\ resolve noZlib idAES 100 (readerOf streamFile) pdfobjptr_zero
       (Oobjptr {| id := 2; gen := 0 |})
     = Ret (helloStream, None).
Proof. split; vm_compute; reflexivity. Qed.

(** the stream of [streamFile] read through [Value.Reader] *)
Lemma Value_Reader_reads_nothing_of_hello :
  Value_Reader noZlib idAES 100 (readerOf streamFile) helloStream
  = Ret ([], RdErr EOF).
Proof.
  apply (Value_Reader_reads_nothing noZlib idAES 99 (readerOf streamFile)
           {| id := 2; gen := 0 |} [("Length", Oint64 5)]
           {| id := 2; gen := 0 |} 58);
    reflexivity.
Defined.

Lemma decodeInt_big_endian_123 :
  decodeInt [1; 2; 3] = 66051 /\ 0 <= decodeInt [1; 2; 3] < 256 ^ 3.
Proof.
  assert (Hb : Forall (fun c => 0 <= c < 256) [1; 2; 3])
    by (repeat constructor; lia).
  assert (Hl : (List.length [1; 2; 3] <= 7)%nat) by (cbn; lia).
  destruct (decodeInt_big_endian [1; 2; 3] Hb Hl) as (E & R & _).
  split; [rewrite E; reflexivity | exact R].
Defined.

Lemma readXrefTable_within_Size_rewrittenFile :
  exists size,
    map_get [("Prev", Oint64 45); ("Root", Oobjptr {| id := 1; gen := 0 |});
             ("Size", Oint64 2)] "Size" = Oint64 size
    /\ 0 <= len [xref_zero; entry 1 0 145] <= size
    /\ pdfobjptr_zero = pdfobjptr_zero.
Proof.
  apply (readXrefTable_within_Size 100 (newReader rewrittenFile 283)
           rewrittenSection).
  vm_compute. reflexivity.
Defined.

Lemma NewReaderEncrypted_bad_header_hello :
  NewReaderEncrypted noZlib idAES growDouble 100 (bytes_of_string "hello") 5
    None
  = Ret (None, Some (Errorf "not a PDF file: invalid header"), O).
Proof.
  apply NewReaderEncrypted_bad_header.
  left. vm_compute. discriminate.
Defined.

(** the two attempts on [encryptedFile] *)
Lemma initEncrypt_sets_only_the_key_encryptedFile :
  (exists e,
      initEncrypt noZlib idAES 100 (fst (opened encryptedFile))
        (bytes_of_string "bad")
      = Ret (Some e, fst (opened encryptedFile)))
  /\ (exists key aes,
         initEncrypt noZlib idAES 100 (fst (opened encryptedFile))
           (bytes_of_string "test")
         = Ret (None, set_key (fst (opened encryptedFile)) key aes)
         /\ 5 <= len key <= 16).
Proof.
  split.
  - destruct (initEncrypt noZlib idAES 100 (fst (opened encryptedFile))
                (bytes_of_string "bad")) as [[e r'] | |] eqn:E;
      try (vm_compute in E; discriminate E).
    destruct (initEncrypt_sets_only_the_key noZlib idAES 100 _ _ e r' E)
      as [Herr _].
    destruct e as [e |]; [| vm_compute in E; discriminate E].
    exists e. rewrite (Herr ltac:(discriminate)). reflexivity.
  - destruct (initEncrypt noZlib idAES 100 (fst (opened encryptedFile))
                (bytes_of_string "test")) as [[e r'] | |] eqn:E;
      try (vm_compute in E; discriminate E).
    destruct (initEncrypt_sets_only_the_key noZlib idAES 100 _ _ e r' E)
      as [_ Hok].
    destruct e as [e |]; [vm_compute in E; discriminate E |].
    destruct (Hok eq_refl) as (key & aes & -> & Hk).
    exists key, aes. split; [reflexivity | exact Hk].
Defined.

(** the side conditions of a run: an evaluation *)
Ltac by_evaluation :=
  first [ reflexivity
        | vm_compute; reflexivity
        | vm_compute; repeat split; discriminate
        | vm_compute; lia ].

(** a byte of "ab" read, put back and read again *)
Lemma readByte_unreadByte_round_trip_ab :
  exists b1 b2,
    readByte (lexerOn "ab") = Ret (97, b1)
    /\ pending b1 = [98] /\ readOffset b1 = readOffset (lexerOn "ab") + 1
    /\ pending (unreadByte b1) = [97; 98]
    /\ readOffset (unreadByte b1) = readOffset (lexerOn "ab")
    /\ readByte (unreadByte b1) = Ret (97, b2)
    /\ pending b2 = [98] /\ readOffset b2 = readOffset (lexerOn "ab") + 1.
Proof.
  apply (readByte_unreadByte_round_trip (lexerOn "ab") 97 [98]).
  - vm_compute. repeat split; discriminate.
  - reflexivity.
Defined.

(** the empty input, with and without [allowEOF] *)
Lemma readByte_at_end_of_input_empty :
  (exists b', readByte (set_allowEOF (lexerOn "") true) = Ret (10, b')
              /\ b_eof b' = true)
  /\ readByte (lexerOn "") = Panic "malformed PDF: reading at offset %d: %v".
Proof.
  split.
  - destruct (readByte_at_end_of_input (set_allowEOF (lexerOn "") true))
      as [Hyes _]; [vm_compute; discriminate | vm_compute; discriminate
                    | reflexivity |].
    destruct (Hyes eq_refl) as (b' & R & E & _).
    exists b'. split; assumption.
  - destruct (readByte_at_end_of_input (lexerOn ""))
      as [_ Hno]; [vm_compute; discriminate | vm_compute; discriminate
                   | reflexivity |].
    apply Hno. reflexivity.
Defined.

Lemma readToken_literal_string_nested :
  exists b',
    readToken 20 (lexerOn " (a(b)c) x")
    = Ret (Ostring (bytes_of_string "a(b)c"), b')
    /\ pending b' = bytes_of_string " x"
    /\ readOffset b' = readOffset (lexerOn " (a(b)c) x") + len [32]
                       + len (bytes_of_string "a(b)c") + 2.
Proof.
  apply (readToken_literal_string [32] (bytes_of_string "a(b)c")
           (bytes_of_string " x") (lexerOn " (a(b)c) x") 20);
    try reflexivity.
  - vm_compute. repeat split; discriminate.
  - vm_compute. lia.
Defined.

Lemma readToken_name_with_escape :
  exists b',
    readToken 20 (lexerOn "/A#42C ")
    = Ret (Oname "ABC", b')
    /\ pending b' = [32]
    /\ readOffset b' = readOffset (lexerOn "/A#42C ") + len (@nil byte) + 1
                       + len (renderItems [Plain 65; Escaped 52 50; Plain 67]).
Proof.
  apply (readToken_name [] [Plain 65; Escaped 52 50; Plain 67] 32 []
           (lexerOn "/A#42C ") 20);
    try reflexivity.
  - vm_compute. repeat split; discriminate.
  - vm_compute. lia.
Defined.

Lemma readToken_integer_minus_42 :
  (exists b',
      readToken 20 (lexerOn " -42]")
      = Ret (Oint64 (- 42), b')
      /\ pending b' = [ch "]"])
  /\ readToken 40 (lexerOn "9223372036854775808 ")
     = Panic "invalid integer %s".
Proof.
  split.
  - destruct (readToken_integer [32] true (ch "4") [ch "2"] (ch "]") []
                (lexerOn " -42]") 20 ltac:(by_evaluation) eq_refl eq_refl
                eq_refl eq_refl eq_refl ltac:(by_evaluation) eq_refl)
      as [Hok _].
    destruct Hok as (b' & R & P & _); [by_evaluation |].
    exists b'. split; assumption.
  - destruct (readToken_integer [] false (ch "9")
                (bytes_of_string "223372036854775808") 32 []
                (lexerOn "9223372036854775808 ") 40 ltac:(by_evaluation)
                eq_refl eq_refl eq_refl eq_refl eq_refl ltac:(by_evaluation)
                eq_refl)
      as [_ Hbig].
    apply Hbig; by_evaluation.
Defined.

Lemma readObject_reference_12_0_R :
  exists b',
    readObject 20 (lexerOn " 12 0 R>>")
    = Ret (Oobjptr {| id := 12; gen := 0 |}, b')
    /\ pending b' = bytes_of_string ">>".
Proof.
  apply (readObject_reference [32] (ch "1") [ch "2"] 32 [] (ch "0") [] 32 []
           (ch ">") [ch ">"] (lexerOn " 12 0 R>>") 20);
    try reflexivity.
  - vm_compute. repeat split; discriminate.
  - vm_compute. lia.
Defined.

(** a simple font with [Widths] *)
Definition simpleFont : pdfdict :=
  [("FirstChar", Oint64 65); ("LastChar", Oint64 66);
   ("Subtype", Oname "Type1"); ("Type", Oname "Font");
   ("Widths", Oarray [Oint64 500; Oint64 600])].

Lemma fontWidthGrabber_simple_font_Type1 :
  fontWidthGrabber noZlib idAES 1 (newReader [] 0)
    {| v_ptr := pdfobjptr_zero; v_data := Odict simpleFont |}
  = Ret (CIDWidthGrabber [] [] float64_zero)
  /\ Width (CIDWidthGrabber [] [] float64_zero) 65 = Ret float64_zero.
Proof.
  destruct (fontWidthGrabber_simple_font noZlib idAES 0 (newReader [] 0)
              pdfobjptr_zero simpleFont eq_refl) as [H W].
  split; [exact H | apply W].
Defined.

Lemma dictEncoder_without_Differences_AB :
  dictEncoder_Decode noZlib idAES glyphRune 1 (newReader [] 0) twoWidths
    Value_zero [65; 66]
  = nopEncoder_Decode twoWidths [65; 66].
Proof.
  apply dictEncoder_without_Differences. reflexivity.
Defined.

Definition endOfFile : list byte := bytes_of_string "
startxref
12
%%EOF".

Lemma findLastLine_sound_startxref :
  findLastLine endOfFile "startxref" = 1
  /\ firstn 9 (skipn 1 endOfFile) = bytes_of_string "startxref".
Proof.
  assert (H : findLastLine endOfFile "startxref" = 1)
    by (vm_compute; reflexivity).
  split; [exact H |].
  destruct (findLastLine_sound endOfFile "startxref" 1 H) as (_ & _ & M & _);
    [discriminate |].
  exact M.
Defined.

(** object 1 of [streamFile]: [1 0 obj 42 endobj] at offset 9 *)
Definition object42 : intObject :=
  {| io_ws0 := [];
     io_id := [ch "1"]; io_ws1 := [32];
     io_gen := [ch "0"]; io_ws2 := [32];
     io_ws3 := [10];
     io_val := bytes_of_string "42"; io_ws4 := [10] |}.

Lemma resolve_loads_integer_42 :
  resolve noZlib idAES 100 (readerOf streamFile) pdfobjptr_zero
    (Oobjptr {| id := 1; gen := 0 |})
  = Ret ({| v_ptr := {| id := 1; gen := 0 |}; v_data := Oint64 42 |}, None).
Proof.
  apply (resolve_loads_integer noZlib idAES 100 (readerOf streamFile)
           pdfobjptr_zero (bytes_of_string "%PDF-1.4
") object42 10
           (skipn 27 streamFile) (entry 1 0 9));
    by_evaluation.
Defined.

(** white space at the end of the input *)
Lemma readToken_at_end_of_input_blank :
  (exists b',
      readToken 10 (set_allowEOF (lexerOn "  ") true) = Ret (Oerror EOF, b')
      /\ b_eof b' = true)
  /\ readToken 10 (lexerOn "  ") = Panic readPastEnd.
Proof.
  split.
  - apply (readToken_at_end_of_input [32; 32]
             (set_allowEOF (lexerOn "  ") true) 10); by_evaluation.
  - apply (readToken_at_end_of_input [32; 32] (lexerOn "  ") 10);
      by_evaluation.
Defined.

(** a reference of [twoLevelFile] that resolves, and one out of bounds *)
Lemma resolve_returns_values_twoLevelFile :
  resolved page3 None
  /\ resolved Value_zero (Some ErrObjectOutOfBounds).
Proof.
  split.
  - apply (resolve_returns_values noZlib idAES 100 (readerOf twoLevelFile)
             pdfobjptr_zero (Oobjptr {| id := 3; gen := 0 |})).
    vm_compute. reflexivity.
  - apply (resolve_returns_values noZlib idAES 100 (readerOf twoLevelFile)
             pdfobjptr_zero (Oobjptr {| id := 9; gen := 0 |})).
    vm_compute. reflexivity.
Defined.

(** reads of the three rows of [upReader] *)
Lemma pngUpRead_count_upRows :
  (0 <= len [1; 2; 4; 6] <= Z.max 4 0
   /\ (@None error = None -> len [1; 2; 4; 6] = Z.max 4 0))
  /\ (0 <= len [1; 2; 4; 6; 3; 0] <= Z.max 9 0
      /\ (Some malformedPngUp = None -> len [1; 2; 4; 6; 3; 0] = Z.max 9 0)).
Proof.
  split.
  - destruct (pngUpRead upReader 4) as [[[out e] r'] | |] eqn:E;
      try (vm_compute in E; discriminate E).
    pose proof (pngUpRead_count upReader 4 out e r' E) as H.
    vm_compute in E. inversion E; subst. exact H.
  - destruct (pngUpRead upReader 9) as [[[out e] r'] | |] eqn:E;
      try (vm_compute in E; discriminate E).
    pose proof (pngUpRead_count upReader 9 out e r' E) as H.
    vm_compute in E. inversion E; subst. exact H.
Defined.

Lemma readToken_escaped_string_items :
  exists b',
    readToken 20 (lexerOn "(a\n\101\
b\)) ")
    = Ret (Ostring (bytes_of_string "a
Ab)"), b')
    /\ pending b' = [32].
Proof.
  destruct (readToken_escaped_string []
              [SPlain (ch "a"); SEscape (ch "n");
               SOctal (ch "1") (ch "0") (ch "1"); SContinue;
               SPlain (ch "b"); SEscape (ch ")")]
              [32]
              (lexerOn "(a\n\101\
b\)) ") 20)
    as (b' & R & P & _); try by_evaluation.
  exists b'. split; assumption.
Defined.

Lemma readToken_after_comment_Name :
  exists b',
    readToken 30 (lexerOn "%a note
  /Na#6De]")
    = Ret (Oname "Name", b')
    /\ pending b' = [ch "]"].
Proof.
  apply (readToken_after_comment (bytes_of_string "a note") 10 [32; 32]
           [Plain 78; Plain 97; Escaped 54 68; Plain 101] (ch "]") []
           (lexerOn "%a note
  /Na#6De]") 30);
    try reflexivity.
  - vm_compute. repeat split; discriminate.
  - vm_compute. lia.
Defined.

Lemma seekForward_lands_on_offset_6 :
  exists b',
    seekForward 5 (lexerOn "hello world") 6 = Ret b'
    /\ readOffset b' = 6 /\ pending b' = bytes_of_string "world".
Proof.
  exists (set_pos (snd (match reload (lexerOn "hello world") with
                        | Ret p => p
                        | _ => (false, lexerOn "hello world")
                        end)) 6).
  split; [vm_compute; reflexivity |].
  split; [| vm_compute; reflexivity].
  apply (seekForward_lands_on_offset 5 (lexerOn "hello world") _ 6);
    vm_compute; reflexivity.
Defined.
